(** * The wallet engine of [ironfish/src/wallet/wallet.ts]

    A shallow embedding of the [Wallet] class: the account registry, the
    block connect / disconnect pipeline, note decryption fan-out, the spend
    selector, the rebroadcast pass, transaction status and account
    creation.

    Conventions.
    - [bigint] and the integral [number]s of the source (sequences, note
      indexes, confirmation counts) are [Z].
    - A [Buffer] is a byte string; two buffers are equal when their bytes are.
    - [T | null] is [option T].
    - An [async] method is its sequential reading: the statements between two
      [await]s run in program order and nothing is interleaved, with one
      exception: [stop()] aborting the token of a running scan, which
      [scanTransactions] takes as an argument saying where the abort lands.
    - A head that was never written, [undefined], is told apart from the head
      [null]: [isAccountUpToDate] asserts that the head is not [undefined].
    - [this.accounts], a [Map] from account id to account, is a [gmap]; a
      loop over [this.accounts.values()] runs over [map_to_list], whose order
      is fixed but is not the insertion order.  No statement below depends
      on the order.
    - Collaborators that raise on I/O failure (database, worker pool, chain)
      are total functions here; the only exceptions modelled are the ones
      [wallet.ts] raises itself. *)

From stdpp Require Import gmap strings list fin_maps.
From Stdlib Require Import ZArith Lia.

Local Open Scope Z_scope.

(** ** JavaScript values *)

Definition Buffer := string.

(** [if (x)] on a [number | null | undefined]: [null], [undefined] and [0]
    are falsy, every other number is truthy. *)
Definition truthy (x : option Z) : bool :=
  match x with
  | Some v => negb (v =? 0)
  | None => false
  end.

(** [if (x)] on an object reference ([Buffer | null], [HeadValue | null]):
    only [null] is falsy. *)
Definition notNull {A} (x : option A) : bool :=
  match x with
  | Some _ => true
  | None => false
  end.

(** Modelled from the spec: [BufferUtils.equalsNullable] (the utils module is
    not among the sources).  "Whose head matches [header.previousBlockHash]":
    two nullable buffers are equal when both are [null] or both hold the same
    bytes. *)
Definition equalsNullable (a b : option Buffer) : bool :=
  match a, b with
  | Some x, Some y => String.eqb x y
  | None, None => true
  | _, _ => false
  end.

(** ** Exceptions raised by the wallet *)

Inductive WalletError :=
  | NotEnoughFundsError (assetId : Buffer) (amount amountNeeded : Z)
  | AssertionError
  | Error (message : string).

Inductive Result (A : Type) :=
  | Ok (a : A)
  | Throw (e : WalletError).
Arguments Ok {A} a.
Arguments Throw {A} e.

(** ** Primitives *)

Module BlockHeader.
Record t := mk {
  hash : Buffer;
  previousBlockHash : Buffer;
  sequence : Z
}.
End BlockHeader.

Module HeadValue.
Record t := mk {
  hash : Buffer;
  sequence : Z
}.
End HeadValue.

(** A decrypted note, read through [value()] and [assetId()]. *)
Module Note.
Record t := mk {
  value : Z;
  assetId : Buffer;
  memo : string
}.
End Note.

Module NoteWitness.
Record t := mk {
  treeSize : Z;
  rootHash : Buffer;
  authenticationPath : list Buffer
}.
End NoteWitness.

(** A posted transaction, read through [hash()], [notes], [isMinersFee()] and
    [expiration()]; each encrypted note is kept as its serialization. *)
Module Transaction.
Record t := mk {
  hash : Buffer;
  notes : list Buffer;
  isMinersFee : bool;
  expiration : Z
}.
End Transaction.

Module RawTransaction.
Record t := mk {
  spendingKey : string;
  expiration : Z;
  fee : Z;
  receives : list Note.t;
  burns : list (Buffer * Z);
  spends : list (Note.t * NoteWitness.t)
}.
End RawTransaction.

(** [DecryptedNoteValue]: a note as the wallet database stores it. *)
Module DecryptedNoteValue.
Record t := mk {
  note : Note.t;
  index : option Z;
  nullifier : option Buffer;
  spent : bool;
  transactionHash : Buffer
}.
Definition markSpent (v : t) : t :=
  mk (note v) (index v) (nullifier v) true (transactionHash v).
End DecryptedNoteValue.

(** [DecryptedNoteValue & { hash: Buffer }], what [getUnspentNotes] yields. *)
Module UnspentNote.
Record t := mk {
  hash : Buffer;
  stored : DecryptedNoteValue.t
}.
Definition note (u : t) := DecryptedNoteValue.note (stored u).
Definition index (u : t) := DecryptedNoteValue.index (stored u).
Definition nullifier (u : t) := DecryptedNoteValue.nullifier (stored u).
End UnspentNote.

(** [TransactionValue]: a transaction as the wallet database stores it. *)
Module TransactionValue.
Record t := mk {
  transaction : Transaction.t;
  blockHash : option Buffer;
  sequence : option Z;
  submittedSequence : Z
}.
Definition withSubmittedSequence (s : Z) (v : t) : t :=
  mk (transaction v) (blockHash v) (sequence v) s.
End TransactionValue.

(** The payload handed to the worker pool for one encrypted note. *)
Module DecryptNoteOptions.
Record t := mk {
  serializedNote : Buffer;
  incomingViewKey : string;
  outgoingViewKey : string;
  spendingKey : string;
  currentNoteIndex : option Z
}.
End DecryptNoteOptions.

(** The worker pool's answer for a note that decrypted. *)
Module DecryptedNote.
Record t := mk {
  index : option Z;
  forSpender : bool;
  hash : Buffer;
  nullifier : option Buffer;
  serializedNote : Buffer
}.
End DecryptedNote.

Module VerificationResult.
Record t := mk {
  valid : bool;
  reason : option string
}.
End VerificationResult.

(** ** Accounts

    An [Account] object carries read-only key material and reads and writes
    its own region of the wallet database.  The two are kept together: the
    record [AccountDb.t] is that region.  Its [head] is [None] as long as no
    head has been written for the account, [Some None] once [null] has been
    written and [Some (Some h)] once the head [h] has. *)

Module AccountDb.
Record t := mk {
  head : option (option HeadValue.t);
  decryptedNotes : gmap string DecryptedNoteValue.t;
  transactions : gmap string TransactionValue.t;
  balances : gmap string Z
}.
End AccountDb.

Module Account.
Record t := mk {
  name : string;
  spendingKey : string;
  incomingViewKey : string;
  outgoingViewKey : string;
  publicAddress : string;
  db : AccountDb.t
}.

Definition withDb (f : AccountDb.t → AccountDb.t) (a : t) : t :=
  mk (name a) (spendingKey a) (incomingViewKey a) (outgoingViewKey a)
     (publicAddress a) (f (db a)).

(** Modelled from the spec: [Account.getHead] (account.ts is not among the
    sources).  "Holds a head: either [null] or [{hash, sequence}]", persisted
    per account as [head]; for an account whose head has never been written
    the answer is [undefined].  The wallet reads the answer through [!head],
    [head?.hash] and [??], to which [undefined] is [null]: [getHead] is the
    answer read that way.  [isAccountUpToDate] alone asserts that the answer
    is not [undefined]; [headIsUndefined] is that test. *)
Definition getHead (a : t) : option HeadValue.t := default None (AccountDb.head (db a)).

Definition headIsUndefined (a : t) : bool := negb (notNull (AccountDb.head (db a))).

(** Modelled from the spec: [Account.updateHead] (account.ts is not among the
    sources).  It overwrites the persisted [head] and nothing else. *)
Definition updateHead (h : option HeadValue.t) (a : t) : t :=
  withDb (λ d, AccountDb.mk (Some h) (AccountDb.decryptedNotes d)
                 (AccountDb.transactions d) (AccountDb.balances d)) a.

(** Modelled from the spec: [Account.getDecryptedNote] (account.ts is not
    among the sources), a read of the persisted collection
    [decryptedNotes[noteHash]]. *)
Definition getDecryptedNote (noteHash : Buffer) (a : t) : option DecryptedNoteValue.t :=
  AccountDb.decryptedNotes (db a) !! noteHash.

(** Modelled from the spec: [WalletDB.saveDecryptedNote] (walletdb.ts is not
    among the sources), a write to [decryptedNotes[noteHash]]. *)
Definition saveDecryptedNote (noteHash : Buffer) (v : DecryptedNoteValue.t) (a : t) : t :=
  withDb (λ d, AccountDb.mk (AccountDb.head d)
                 (<[noteHash := v]> (AccountDb.decryptedNotes d))
                 (AccountDb.transactions d) (AccountDb.balances d)) a.

(** Modelled from the spec: [Account.getTransaction] (account.ts is not among
    the sources), a read of the persisted collection [transactions[txHash]]. *)
Definition getTransaction (txHash : Buffer) (a : t) : option TransactionValue.t :=
  AccountDb.transactions (db a) !! txHash.

(** Modelled from the spec: [Account.hasTransaction] (account.ts is not among
    the sources): the account "already contains the transaction hash". *)
Definition hasTransaction (txHash : Buffer) (a : t) : bool :=
  notNull (getTransaction txHash a).

(** Modelled from the spec: [WalletDB.saveTransaction] (walletdb.ts is not
    among the sources), a write to [transactions[txHash]]. *)
Definition saveTransaction (txHash : Buffer) (v : TransactionValue.t) (a : t) : t :=
  withDb (λ d, AccountDb.mk (AccountDb.head d) (AccountDb.decryptedNotes d)
                 (<[txHash := v]> (AccountDb.transactions d))
                 (AccountDb.balances d)) a.
End Account.

(** The remaining [Account] methods the wallet calls.  Their bodies live in
    account.ts, which is not among the sources, so they are parameters: each
    may rewrite the account's database region in any way.
    [getPendingTransactionHashes] is the walk over the pending index that
    feeds [Account.getPendingTransactions]. *)
Class AccountMethods := {
  connectTransaction :
    BlockHeader.t → Transaction.t → list DecryptedNote.t → AccountDb.t → AccountDb.t;
  disconnectTransaction : BlockHeader.t → Transaction.t → AccountDb.t → AccountDb.t;
  deleteTransaction : Transaction.t → AccountDb.t → AccountDb.t;
  addPendingTransactionToAccount :
    Transaction.t → list DecryptedNote.t → Z → AccountDb.t → AccountDb.t;
  getUnspentNotesOfAccount : Buffer → Z → AccountDb.t → list UnspentNote.t;
  getPendingTransactionHashes : Z → AccountDb.t → list Buffer
}.

(** ** Collaborators *)

(** The blockchain as the wallet reads it. *)
Module Blockchain.
Record t := mk {
  head : BlockHeader.t;
  genesis : BlockHeader.t;
  synced : bool;
  getHeader : Buffer → option BlockHeader.t;
  getBlockTransactions : BlockHeader.t → list (Transaction.t * Z);
  nullifiersContains : Buffer → bool;
  notesWitness : Z → option NoteWitness.t;
  verifyCreatedTransaction : Transaction.t → VerificationResult.t;
  verifyTransactionAdd : Transaction.t → VerificationResult.t
}.
End Blockchain.

Module WorkerPool.
Record t := mk {
  decryptNotes : list DecryptNoteOptions.t → list (option DecryptedNote.t);
  postTransaction : RawTransaction.t → Transaction.t
}.
End WorkerPool.

(** The cursor of the chain follower. *)
Module ChainProcessor.
Record t := mk {
  hash : option Buffer;
  sequence : option Z
}.
End ChainProcessor.

(** Modelled from the spec: [MemPool] (memPool.ts is not among the sources).
    The wallet only calls [MemPool.accept]; the pool is the list of the
    transactions it was handed, oldest first. *)
Definition MemPool := list Transaction.t.

(** Modelled from the spec: [MemPool.acceptTransaction] (memPool.ts is not
    among the sources): the transaction is accepted into the pool. *)
Definition acceptTransaction (transaction : Transaction.t) (memPool : MemPool) : MemPool :=
  memPool ++ [transaction].

(** ** ScanState *)

Module ScanState.
Record t := mk {
  sequence : Z;
  endSequence : Z;
  isAborted : bool;
  (* [runningPromise] has been resolved *)
  completed : bool;
  (* what [onTransaction] has emitted, oldest first *)
  onTransaction : list (Z * Z)
}.

Definition signal (seq : Z) (s : t) : t :=
  mk seq (endSequence s) (isAborted s) (completed s)
     (onTransaction s ++ [(seq, endSequence s)]).

Definition signalComplete (s : t) : t :=
  mk (sequence s) (endSequence s) (isAborted s) true (onTransaction s).

(** [abort()], as far as the token goes: [abortController.abort()]. *)
Definition abort (s : t) : t :=
  mk (sequence s) (endSequence s) true (completed s) (onTransaction s).
End ScanState.

(** ** The wallet *)

Module Wallet.
Record t := mk {
  accounts : gmap string Account.t;
  chain : Blockchain.t;
  workerPool : WorkerPool.t;
  chainProcessor : ChainProcessor.t;
  (* config.get('confirmations') *)
  confirmations : Z;
  rebroadcastAfter : Z;
  defaultAccount : option string;
  isStarted : bool;
  isOpen : bool;
  scan : option ScanState.t;
  updateHeadState : option ScanState.t;
  (* eventLoopAbortController.signal.aborted *)
  eventLoopAborted : bool;
  (* what each Event has emitted, oldest first *)
  onBroadcastTransaction : list Transaction.t;
  onTransactionCreated : list Transaction.t;
  onAccountImported : list string;
  onAccountRemoved : list string
}.

Definition withAccounts (f : gmap string Account.t → gmap string Account.t) (w : t) : t :=
  mk (f (accounts w)) (chain w) (workerPool w) (chainProcessor w) (confirmations w)
     (rebroadcastAfter w) (defaultAccount w) (isStarted w) (isOpen w) (scan w)
     (updateHeadState w) (eventLoopAborted w) (onBroadcastTransaction w)
     (onTransactionCreated w) (onAccountImported w) (onAccountRemoved w).

Definition withScan (s : option ScanState.t) (w : t) : t :=
  mk (accounts w) (chain w) (workerPool w) (chainProcessor w) (confirmations w)
     (rebroadcastAfter w) (defaultAccount w) (isStarted w) (isOpen w) s
     (updateHeadState w) (eventLoopAborted w) (onBroadcastTransaction w)
     (onTransactionCreated w) (onAccountImported w) (onAccountRemoved w).

Definition withDefaultAccount (d : option string) (w : t) : t :=
  mk (accounts w) (chain w) (workerPool w) (chainProcessor w) (confirmations w)
     (rebroadcastAfter w) d (isStarted w) (isOpen w) (scan w)
     (updateHeadState w) (eventLoopAborted w) (onBroadcastTransaction w)
     (onTransactionCreated w) (onAccountImported w) (onAccountRemoved w).

Definition emitBroadcastTransaction (transaction : Transaction.t) (w : t) : t :=
  mk (accounts w) (chain w) (workerPool w) (chainProcessor w) (confirmations w)
     (rebroadcastAfter w) (defaultAccount w) (isStarted w) (isOpen w) (scan w)
     (updateHeadState w) (eventLoopAborted w) (onBroadcastTransaction w ++ [transaction])
     (onTransactionCreated w) (onAccountImported w) (onAccountRemoved w).

Definition emitTransactionCreated (transaction : Transaction.t) (w : t) : t :=
  mk (accounts w) (chain w) (workerPool w) (chainProcessor w) (confirmations w)
     (rebroadcastAfter w) (defaultAccount w) (isStarted w) (isOpen w) (scan w)
     (updateHeadState w) (eventLoopAborted w) (onBroadcastTransaction w)
     (onTransactionCreated w ++ [transaction]) (onAccountImported w) (onAccountRemoved w).

Definition emitAccountImported (id : string) (w : t) : t :=
  mk (accounts w) (chain w) (workerPool w) (chainProcessor w) (confirmations w)
     (rebroadcastAfter w) (defaultAccount w) (isStarted w) (isOpen w) (scan w)
     (updateHeadState w) (eventLoopAborted w) (onBroadcastTransaction w)
     (onTransactionCreated w) (onAccountImported w ++ [id]) (onAccountRemoved w).
End Wallet.

(** ** Arguments and results of the wallet's methods *)

(** The [options] argument of [getTransactionStatus]. *)
Module StatusOptions.
Record t := mk {
  headSequence : option Z;
  confirmations : option Z
}.
End StatusOptions.

(** What [generateKey] and [generateKeyFromPrivateKey] return. *)
Module Key.
Record t := mk {
  incoming_view_key : string;
  outgoing_view_key : string;
  public_address : string;
  spending_key : string
}.
End Key.

(** The argument of [importAccount]. *)
Module AccountImport.
Record t := mk {
  name : string;
  spendingKey : string
}.
End AccountImport.

(** ** The methods of [Wallet] *)

Section WalletMethods.
Context `{AccountMethods}.

(** [this.accounts.values()] / [listAccounts()], each account with its id (the
    key it is registered under). *)
Definition listAccounts (w : Wallet.t) : list (string * Account.t) :=
  map_to_list (Wallet.accounts w).

Definition getAccountByName (w : Wallet.t) (name : string) : option (string * Account.t) :=
  List.find (λ p, String.eqb name (Account.name p.2)) (listAccounts w).

Definition getAccount (w : Wallet.t) (id : string) : option Account.t :=
  Wallet.accounts w !! id.

(** [isAccountUpToDate(account)]: [Assert.isNotUndefined(head)] throws for an
    account whose head has never been written. *)
Definition isAccountUpToDate (w : Wallet.t) (account : Account.t) : Result bool :=
  if Account.headIsUndefined account then Throw AssertionError
  else Ok (equalsNullable (HeadValue.hash <$> Account.getHead account)
                          (ChainProcessor.hash (Wallet.chainProcessor w))).

(** *** decryptNotes *)

Definition batchSize : nat := 20.

Definition decryptNotesFromTransaction (w : Wallet.t)
    (decryptNotesPayloads : list DecryptNoteOptions.t) : list DecryptedNote.t :=
  omap id (WorkerPool.decryptNotes (Wallet.workerPool w) decryptNotesPayloads).

(** The loop over [transaction.notes] for one account.  Beside
    [decryptedNotes] it returns [submitted], the batches of payloads handed to
    the worker pool, in call order, with the last partial batch flushed after
    the loop. *)
Fixpoint decryptNotesLoop (w : Wallet.t) (account : Account.t) (notes : list Buffer)
    (currentNoteIndex : option Z) (decryptNotesPayloads : list DecryptNoteOptions.t)
    (decryptedNotes : list DecryptedNote.t) (submitted : list (list DecryptNoteOptions.t))
    : list DecryptedNote.t * list (list DecryptNoteOptions.t) :=
  match notes with
  | [] =>
      if negb (length decryptNotesPayloads =? 0)%nat
      then (decryptedNotes ++ decryptNotesFromTransaction w decryptNotesPayloads,
            submitted ++ [decryptNotesPayloads])
      else (decryptedNotes, submitted)
  | note :: rest =>
      let decryptNotesPayloads :=
        decryptNotesPayloads ++
          [DecryptNoteOptions.mk note (Account.incomingViewKey account)
             (Account.outgoingViewKey account) (Account.spendingKey account)
             currentNoteIndex] in
      let currentNoteIndex :=
        if truthy currentNoteIndex then Z.succ <$> currentNoteIndex else currentNoteIndex in
      if (batchSize <=? length decryptNotesPayloads)%nat
      then decryptNotesLoop w account rest currentNoteIndex []
             (decryptedNotes ++ decryptNotesFromTransaction w decryptNotesPayloads)
             (submitted ++ [decryptNotesPayloads])
      else decryptNotesLoop w account rest currentNoteIndex decryptNotesPayloads
             decryptedNotes submitted
  end.

Definition decryptNotesForAccount (w : Wallet.t) (transaction : Transaction.t)
    (initialNoteIndex : option Z) (account : Account.t)
    : list DecryptedNote.t * list (list DecryptNoteOptions.t) :=
  decryptNotesLoop w account (Transaction.notes transaction) initialNoteIndex [] [] [].

(** The payloads built for one account, in the order they were pushed. *)
Definition decryptNotesPayloadsOf (w : Wallet.t) (transaction : Transaction.t)
    (initialNoteIndex : option Z) (account : Account.t) : list DecryptNoteOptions.t :=
  concat (decryptNotesForAccount w transaction initialNoteIndex account).2.

(** [AsyncUtils.filter(this.listAccounts(), (a) => this.isAccountUpToDate(a))]:
    the accounts that are up to date, or the assertion error of an account
    [isAccountUpToDate] throws on. *)
Fixpoint filterUpToDate (w : Wallet.t) (accounts : list (string * Account.t))
    : Result (list (string * Account.t)) :=
  match accounts with
  | [] => Ok []
  | p :: rest =>
      match isAccountUpToDate w p.2 with
      | Throw e => Throw e
      | Ok upToDate =>
          match filterUpToDate w rest with
          | Throw e => Throw e
          | Ok kept => Ok (if upToDate then p :: kept else kept)
          end
      end
  end.

(** [accounts || (await AsyncUtils.filter(...))] *)
Definition accountsToCheck (w : Wallet.t) (accounts : option (list (string * Account.t)))
    : Result (list (string * Account.t)) :=
  match accounts with
  | Some l => Ok l
  | None => filterUpToDate w (listAccounts w)
  end.

(** The loop of [decryptNotes] over [accountsToCheck]. *)
Definition decryptNotesForAccounts (w : Wallet.t) (transaction : Transaction.t)
    (initialNoteIndex : option Z) (accountsToCheck : list (string * Account.t))
    : gmap string (list DecryptedNote.t) :=
  foldl (λ (decryptedNotesByAccountId : gmap string (list DecryptedNote.t)) p,
           let decryptedNotes :=
             (decryptNotesForAccount w transaction initialNoteIndex p.2).1 in
           if negb (length decryptedNotes =? 0)%nat
           then <[p.1 := decryptedNotes]> decryptedNotesByAccountId
           else decryptedNotesByAccountId)
        ∅ accountsToCheck.

Definition decryptNotes (w : Wallet.t) (transaction : Transaction.t)
    (initialNoteIndex : option Z) (accounts : option (list (string * Account.t)))
    : Result (gmap string (list DecryptedNote.t)) :=
  match accountsToCheck w accounts with
  | Throw e => Throw e
  | Ok accountsToCheck =>
      Ok (decryptNotesForAccounts w transaction initialNoteIndex accountsToCheck)
  end.

(** *** connectBlock *)

(** The [AsyncUtils.filter] predicate of [connectBlock]. *)
Definition connectBlockFilter (blockHeader : BlockHeader.t) (account : Account.t) : bool :=
  match Account.getHead account with
  | None => BlockHeader.sequence blockHeader =? 1
  | Some accountHead =>
      equalsNullable (Some (HeadValue.hash accountHead))
                     (Some (BlockHeader.previousBlockHash blockHeader))
  end.

Definition scanIsAborted (scan : option ScanState.t) : bool :=
  match scan with
  | Some s => ScanState.isAborted s
  | None => false
  end.

(** How the callback given to [walletDb.db.transaction] ended: it ran to its
    last statement, or it returned from inside the loop on an aborted scan. *)
Inductive ConnectOutcome :=
  | Finished (account : Account.t) (scan : option ScanState.t)
  | ScanAborted (account : Account.t) (scan : option ScanState.t).

(** The loop over the block's transactions for one account.
    [this.decryptNotes(transaction, initialNoteIndex, [account])] is given its
    accounts, so [accounts || ...] is the list given and the call is the loop
    of [decryptNotes] over it. *)
Fixpoint connectTransactions (w : Wallet.t) (blockHeader : BlockHeader.t) (id : string)
    (transactions : list (Transaction.t * Z)) (scan : option ScanState.t)
    (account : Account.t) : ConnectOutcome :=
  match transactions with
  | [] => Finished account scan
  | (transaction, initialNoteIndex) :: rest =>
      if scanIsAborted scan
      then ScanAborted account (ScanState.signalComplete <$> scan)
      else
        let decryptedNotesByAccountId :=
          decryptNotesForAccounts w transaction (Some initialNoteIndex) [(id, account)] in
        match decryptedNotesByAccountId !! id with
        | None => connectTransactions w blockHeader id rest scan account
        | Some decryptedNotes =>
            let account :=
              Account.withDb (connectTransaction blockHeader transaction decryptedNotes)
                             account in
            connectTransactions w blockHeader id rest
              (ScanState.signal (BlockHeader.sequence blockHeader) <$> scan) account
        end
  end.

(** One database transaction of [connectBlock]: the block applied to one
    account.  Returns the account, the scan token and whether [this.scan] was
    cleared. *)
Definition connectBlockForAccount (w : Wallet.t) (blockHeader : BlockHeader.t)
    (id : string) (scan : option ScanState.t) (account : Account.t)
    : Account.t * option ScanState.t * bool :=
  let transactions := Blockchain.getBlockTransactions (Wallet.chain w) blockHeader in
  match connectTransactions w blockHeader id transactions scan account with
  | ScanAborted account scan => (account, scan, true)
  | Finished account scan =>
      (Account.updateHead
         (Some (HeadValue.mk (BlockHeader.hash blockHeader)
                             (BlockHeader.sequence blockHeader))) account,
       scan, false)
  end.

Definition connectBlock (w : Wallet.t) (blockHeader : BlockHeader.t)
    (scan : option ScanState.t) : Wallet.t * option ScanState.t :=
  let accounts :=
    List.filter (λ p, connectBlockFilter blockHeader p.2) (listAccounts w) in
  foldl (λ (st : Wallet.t * option ScanState.t) (p : string * Account.t),
           let '(w, scan) := st in
           match getAccount w p.1 with
           | None => (w, scan)
           | Some account =>
               let '(account, scan, cleared) :=
                 connectBlockForAccount w blockHeader p.1 scan account in
               let w := Wallet.withAccounts (insert p.1 account) w in
               (if cleared then Wallet.withScan None w else w, scan)
           end)
        (w, scan) accounts.

(** *** disconnectBlock *)

Definition disconnectBlockFilter (header : BlockHeader.t) (account : Account.t) : bool :=
  equalsNullable (HeadValue.hash <$> Account.getHead account)
                 (Some (BlockHeader.hash header)).

(** The body of the loop over the reversed transactions. *)
Definition disconnectOne (header : BlockHeader.t) (account : Account.t)
    (transaction : Transaction.t) : Account.t :=
  let account := Account.withDb (disconnectTransaction header transaction) account in
  if Transaction.isMinersFee transaction
  then Account.withDb (deleteTransaction transaction) account
  else account.

(** One database transaction of [disconnectBlock]. *)
Definition disconnectBlockForAccount (w : Wallet.t) (header : BlockHeader.t)
    (account : Account.t) : Account.t :=
  let transactions := Blockchain.getBlockTransactions (Wallet.chain w) header in
  let account := foldl (disconnectOne header) account (reverse (fst <$> transactions)) in
  Account.updateHead
    (Some (HeadValue.mk (BlockHeader.previousBlockHash header)
                        (BlockHeader.sequence header - 1))) account.

Definition disconnectBlock (w : Wallet.t) (header : BlockHeader.t) : Wallet.t :=
  let accounts :=
    List.filter (λ p, disconnectBlockFilter header p.2) (listAccounts w) in
  foldl (λ (w : Wallet.t) (p : string * Account.t),
           match getAccount w p.1 with
           | None => w
           | Some account =>
               Wallet.withAccounts
                 (insert p.1 (disconnectBlockForAccount w header account)) w
           end)
        w accounts.

(** *** addPendingTransaction and postTransaction *)

(** [addPendingTransaction(transaction)]; [this.decryptNotes(transaction,
    null, accounts)] is given its accounts and is the loop of [decryptNotes]
    over them. *)
Definition addPendingTransaction (w : Wallet.t) (transaction : Transaction.t) : Wallet.t :=
  let accounts :=
    List.filter (λ p, negb (Account.hasTransaction (Transaction.hash transaction) p.2))
                (listAccounts w) in
  if (length accounts =? 0)%nat then w
  else
    let decryptedNotesByAccountId :=
      decryptNotesForAccounts w transaction None accounts in
    foldl (λ (w : Wallet.t) (p : string * list DecryptedNote.t),
             match getAccount w p.1 with
             | None => w
             | Some account =>
                 Wallet.withAccounts
                   (insert p.1
                      (Account.withDb
                         (addPendingTransactionToAccount transaction p.2
                            (BlockHeader.sequence (Blockchain.head (Wallet.chain w))))
                         account)) w
             end)
          w (map_to_list decryptedNotesByAccountId).

Definition broadcastTransaction (w : Wallet.t) (transaction : Transaction.t) : Wallet.t :=
  Wallet.emitBroadcastTransaction transaction w.

Definition postTransaction (w : Wallet.t) (raw : RawTransaction.t) (memPool : MemPool)
    : Wallet.t * MemPool * Result Transaction.t :=
  let transaction := WorkerPool.postTransaction (Wallet.workerPool w) raw in
  let verify := Blockchain.verifyCreatedTransaction (Wallet.chain w) transaction in
  if negb (VerificationResult.valid verify)
  then (w, memPool, Throw (Error "Invalid transaction"))
  else
    let w := addPendingTransaction w transaction in
    let memPool := acceptTransaction transaction memPool in
    let w := broadcastTransaction w transaction in
    let w := Wallet.emitTransactionCreated transaction w in
    (w, memPool, Ok transaction).

(** *** The spend selector *)

Definition getUnspentNotes (w : Wallet.t) (account : Account.t) (assetId : Buffer)
    (confirmations : option Z) : list UnspentNote.t :=
  getUnspentNotesOfAccount assetId (default (Wallet.confirmations w) confirmations)
                           (Account.db account).

Definition checkNoteOnChainAndRepair (w : Wallet.t) (sender : Account.t)
    (unspentNote : UnspentNote.t) : Account.t * bool :=
  match UnspentNote.nullifier unspentNote with
  | None => (sender, false)
  | Some nullifier =>
      if negb (Blockchain.nullifiersContains (Wallet.chain w) nullifier)
      then (sender, false)
      else
        match Account.getDecryptedNote (UnspentNote.hash unspentNote) sender with
        | Some noteMapValue =>
            (Account.saveDecryptedNote (UnspentNote.hash unspentNote)
               (DecryptedNoteValue.markSpent noteMapValue) sender, true)
        | None => (sender, true)
        end
  end.

Definition Spend : Type := Note.t * NoteWitness.t.

(** The [for await] loop of [createSpendsForAsset] over the notes the
    generator yields, with [amount] and [notes] as accumulators.  The sender
    is returned in every case: a repair is written outside any database
    transaction and stays written when the loop throws. *)
Fixpoint createSpendsLoop (w : Wallet.t) (amountNeeded : Z) (unspentNotes : list UnspentNote.t)
    (sender : Account.t) (amount : Z) (notes : list Spend)
    : Account.t * Result (Z * list Spend) :=
  match unspentNotes with
  | [] => (sender, Ok (amount, notes))
  | unspentNote :: rest =>
      if Note.value (UnspentNote.note unspentNote) <=? 0
      then createSpendsLoop w amountNeeded rest sender amount notes
      else
        match UnspentNote.index unspentNote, UnspentNote.nullifier unspentNote with
        | None, _ => (sender, Throw AssertionError)
        | Some _, None => (sender, Throw AssertionError)
        | Some index, Some _ =>
            let '(sender, onChain) := checkNoteOnChainAndRepair w sender unspentNote in
            if onChain
            then createSpendsLoop w amountNeeded rest sender amount notes
            else
              match Blockchain.notesWitness (Wallet.chain w) index with
              | None => createSpendsLoop w amountNeeded rest sender amount notes
              | Some witness =>
                  let notes := notes ++ [(UnspentNote.note unspentNote, witness)] in
                  let amount := amount + Note.value (UnspentNote.note unspentNote) in
                  if amount >=? amountNeeded
                  then (sender, Ok (amount, notes))
                  else createSpendsLoop w amountNeeded rest sender amount notes
              end
        end
  end.

Definition createSpendsForAsset (w : Wallet.t) (sender : Account.t) (assetId : Buffer)
    (amountNeeded : Z) : Account.t * Result (Z * list Spend) :=
  createSpendsLoop w amountNeeded (getUnspentNotes w sender assetId None) sender 0 [].

(** The loop of [createSpends] over [amountsNeeded.entries()]. *)
Fixpoint createSpendsEntries (w : Wallet.t) (entries : list (Buffer * Z))
    (sender : Account.t) (notesToSpend : list Spend) : Account.t * Result (list Spend) :=
  match entries with
  | [] => (sender, Ok notesToSpend)
  | (assetId, amountNeeded) :: rest =>
      match createSpendsForAsset w sender assetId amountNeeded with
      | (sender, Throw e) => (sender, Throw e)
      | (sender, Ok (amount, notes)) =>
          if amount <? amountNeeded
          then (sender, Throw (NotEnoughFundsError assetId amount amountNeeded))
          else createSpendsEntries w rest sender (notesToSpend ++ notes)
      end
  end.

Definition createSpends (w : Wallet.t) (sender : Account.t) (amountsNeeded : list (Buffer * Z))
    : Account.t * Result (list Spend) :=
  createSpendsEntries w amountsNeeded sender [].

(** *** rebroadcastTransactions *)

(** The body of the inner loop, after the abort check: one pending
    transaction record of account [id] at head [head]. *)
Definition rebroadcastTransaction (w : Wallet.t) (head : BlockHeader.t) (id : string)
    (transactionInfo : TransactionValue.t) : Wallet.t :=
  let transaction := TransactionValue.transaction transactionInfo in
  let transactionHash := Transaction.hash transaction in
  if notNull (TransactionValue.blockHash transactionInfo) then w
  else if BlockHeader.sequence head - TransactionValue.submittedSequence transactionInfo
          <? Wallet.rebroadcastAfter w
  then w
  else
    let verify := Blockchain.verifyTransactionAdd (Wallet.chain w) transaction in
    let w :=
      Wallet.withAccounts
        (alter (Account.saveTransaction transactionHash
                  (TransactionValue.withSubmittedSequence (BlockHeader.sequence head)
                     transactionInfo)) id) w in
    if negb (VerificationResult.valid verify) then w
    else broadcastTransaction w transaction.

(** Modelled from the spec: [Account.getPendingTransactions] (account.ts is
    not among the sources).  "Rebroadcast iterates pending transactions per
    account", through the pending index: the generator walks the hashes
    listed when the loop starts and loads the record of each when its turn
    comes.  This is the record it yields for [txHash]. *)
Definition pendingTransactionAt (w : Wallet.t) (id : string) (txHash : Buffer)
    : option TransactionValue.t :=
  getAccount w id ≫= Account.getTransaction txHash.

(** The inner loop of [rebroadcastTransactions], over the pending
    transactions of account [id]. *)
Definition rebroadcastAccount (w : Wallet.t) (head : BlockHeader.t) (id : string)
    (account : Account.t) : Wallet.t :=
  foldl (λ (w : Wallet.t) (txHash : Buffer),
           if Wallet.eventLoopAborted w then w
           else
             match pendingTransactionAt w id txHash with
             | None => w
             | Some transactionInfo => rebroadcastTransaction w head id transactionInfo
             end)
        w (getPendingTransactionHashes (BlockHeader.sequence head) (Account.db account)).

Definition rebroadcastTransactions (w : Wallet.t) : Wallet.t :=
  if negb (Wallet.isStarted w) then w
  else if negb (Blockchain.synced (Wallet.chain w)) then w
  else
    match ChainProcessor.hash (Wallet.chainProcessor w) with
    | None => w
    | Some hash =>
        match Blockchain.getHeader (Wallet.chain w) hash with
        | None => w
        | Some head =>
            foldl (λ (w : Wallet.t) (p : string * Account.t),
                     if Wallet.eventLoopAborted w then w
                     else
                       match getAccount w p.1 with
                       | None => w
                       | Some account => rebroadcastAccount w head p.1 account
                       end)
                  w (listAccounts w)
        end
    end.

(** *** getTransactionStatus *)

Inductive TransactionStatus :=
  | CONFIRMED
  | EXPIRED
  | PENDING
  | UNCONFIRMED
  | UNKNOWN.

(** Modelled from the spec: [isExpiredSequence] (the consensus module is not
    among the sources).  "Unmined and past expiration → expired"; "expiration
    exactly equal to head sequence: the transaction is expired, not
    pending". *)
Definition isExpiredSequence (expiration sequence : Z) : bool :=
  expiration <=? sequence.

(** [options?.headSequence ?? (await account.getHead(tx))?.sequence] *)
Definition statusHeadSequence (account : Account.t) (options : option StatusOptions.t)
    : option Z :=
  match options ≫= StatusOptions.headSequence with
  | Some s => Some s
  | None => HeadValue.sequence <$> Account.getHead account
  end.

(** [options?.confirmations ?? this.config.get('confirmations')] *)
Definition statusConfirmations (w : Wallet.t) (options : option StatusOptions.t) : Z :=
  default (Wallet.confirmations w) (options ≫= StatusOptions.confirmations).

Definition getTransactionStatus (w : Wallet.t) (account : Account.t)
    (transaction : TransactionValue.t) (options : option StatusOptions.t)
    : TransactionStatus :=
  let confirmations := statusConfirmations w options in
  match statusHeadSequence account options with
  | None => UNKNOWN
  | Some headSequence =>
      if negb (truthy (Some headSequence)) then UNKNOWN
      else
        match TransactionValue.sequence transaction with
        | Some sequence =>
            if truthy (Some sequence)
            then
              if headSequence - sequence >=? confirmations then CONFIRMED else UNCONFIRMED
            else
              if isExpiredSequence
                   (Transaction.expiration (TransactionValue.transaction transaction))
                   headSequence
              then EXPIRED else PENDING
        | None =>
            if isExpiredSequence
                 (Transaction.expiration (TransactionValue.transaction transaction))
                 headSequence
            then EXPIRED else PENDING
        end
  end.

(** *** Account creation *)

(** The database region of an account that has just been constructed:
    nothing is stored, and no head has been written. *)
Definition emptyAccountDb : AccountDb.t := AccountDb.mk None ∅ ∅ ∅.

Definition skipRescan (w : Wallet.t) (account : Account.t) : Account.t :=
  match ChainProcessor.hash (Wallet.chainProcessor w),
        ChainProcessor.sequence (Wallet.chainProcessor w) with
  | Some hash, Some sequence => Account.updateHead (Some (HeadValue.mk hash sequence)) account
  | _, _ => Account.updateHead None account
  end.

(** [if (name)] on a [string | null]: [null] and the empty string are falsy. *)
Definition truthyString (name : option string) : bool :=
  match name with
  | Some s => negb (String.eqb s "")
  | None => false
  end.

Definition setDefaultAccount (w : Wallet.t) (name : option string) : Wallet.t * Result unit :=
  if truthyString name
  then
    match getAccountByName w (default ""%string name) with
    | None => (w, Throw (Error "No account found with name"))
    | Some next =>
        if bool_decide (Wallet.defaultAccount w = Some next.1) then (w, Ok ())
        else (Wallet.withDefaultAccount (Some next.1) w, Ok ())
    end
  else (Wallet.withDefaultAccount None w, Ok ()).

(** [createAccount(name, setDefault)].  [id] is the value [uuid()] returns in
    this call and [key] the value [generateKey()] returns. *)
Definition createAccount (w : Wallet.t) (name : string) (setDefault : bool)
    (id : string) (key : Key.t) : Wallet.t * Result (string * Account.t) :=
  if notNull (getAccountByName w name)
  then (w, Throw (Error "Account already exists with the name"))
  else
    let account :=
      Account.mk name (Key.spending_key key) (Key.incoming_view_key key)
        (Key.outgoing_view_key key) (Key.public_address key) emptyAccountDb in
    let account := skipRescan w account in
    let w := Wallet.withAccounts (insert id account) w in
    if setDefault
    then
      match setDefaultAccount w (Some (Account.name account)) with
      | (w, Throw e) => (w, Throw e)
      | (w, Ok _) => (w, Ok (id, account))
      end
    else (w, Ok (id, account)).

(** [importAccount(toImport)].  [id] is the value [uuid()] returns in this
    call; [generateKeyFromPrivateKey] and [validateAccount] belong to modules
    that are not among the sources and are parameters ([validateAccount]
    answers [false] where the source's throws). *)
Definition importAccount (generateKeyFromPrivateKey : string → Key.t)
    (validateAccount : string → Account.t → bool)
    (w : Wallet.t) (toImport : AccountImport.t) (id : string)
    : Wallet.t * Result (string * Account.t) :=
  if truthyString (Some (AccountImport.name toImport))
     && notNull (getAccountByName w (AccountImport.name toImport))
  then (w, Throw (Error "Account already exists with the name"))
  else if notNull (List.find (λ p, String.eqb (AccountImport.spendingKey toImport)
                                              (Account.spendingKey p.2))
                             (listAccounts w))
  then (w, Throw (Error "Account already exists with provided spending key"))
  else
    let key := generateKeyFromPrivateKey (AccountImport.spendingKey toImport) in
    let account :=
      Account.mk (AccountImport.name toImport) (AccountImport.spendingKey toImport)
        (Key.incoming_view_key key) (Key.outgoing_view_key key) (Key.public_address key)
        emptyAccountDb in
    if negb (validateAccount id account)
    then (w, Throw (Error "Invalid account"))
    else
      let account := Account.updateHead None account in
      let w := Wallet.withAccounts (insert id account) w in
      (Wallet.emitAccountImported id w, Ok (id, account)).

(** *** Account heads and the start of a scan *)

(** The loop of [getEarliestHeadHash], [earliestHead] being its variable. *)
Fixpoint earliestHeadLoop (accounts : list (string * Account.t))
    (earliestHead : option HeadValue.t) : option Buffer :=
  match accounts with
  | [] => HeadValue.hash <$> earliestHead
  | p :: rest =>
      match Account.getHead p.2 with
      | None => None
      | Some head =>
          earliestHeadLoop rest
            (match earliestHead with
             | None => Some head
             | Some e =>
                 if HeadValue.sequence e >? HeadValue.sequence head
                 then Some head else Some e
             end)
      end
  end.

Definition getEarliestHeadHash (w : Wallet.t) : option Buffer :=
  earliestHeadLoop (listAccounts w) None.

(** The loop of [getLatestHeadHash]. *)
Fixpoint latestHeadLoop (accounts : list (string * Account.t))
    (latestHead : option HeadValue.t) : option Buffer :=
  match accounts with
  | [] => HeadValue.hash <$> latestHead
  | p :: rest =>
      match Account.getHead p.2 with
      | None => latestHeadLoop rest latestHead
      | Some head =>
          latestHeadLoop rest
            (match latestHead with
             | None => Some head
             | Some l =>
                 if HeadValue.sequence l <? HeadValue.sequence head
                 then Some head else Some l
             end)
      end
  end.

Definition getLatestHeadHash (w : Wallet.t) : option Buffer :=
  latestHeadLoop (listAccounts w) None.

(** [beginHash] of [scanTransactions(fromHash?)].
    Priority: fromHeader > startHeader > genesisBlock. *)
Definition scanTransactionsBeginHash (w : Wallet.t) (fromHash : option Buffer) : Buffer :=
  let startHash := getEarliestHeadHash w in
  match fromHash with
  | Some fromHash => fromHash
  | None =>
      match startHash with
      | Some startHash => startHash
      | None => BlockHeader.hash (Blockchain.genesis (Wallet.chain w))
      end
  end.

End WalletMethods.

(** ** More methods of [Wallet] *)

(** One entry of the [receives] argument of [createTransaction]. *)
Module Receive.
Record t := mk {
  publicAddress : string;
  amount : Z;
  memo : string;
  assetId : Buffer
}.
End Receive.

(** [MintDescription], what [createTransaction] is given in [mints]. *)
Module MintDescription.
Record t := mk {
  asset : Buffer;
  value : Z
}.
End MintDescription.

(** [this.onAccountRemoved.emit(account)], the account named by its id. *)
Definition emitAccountRemoved (id : string) (w : Wallet.t) : Wallet.t :=
  Wallet.mk (Wallet.accounts w) (Wallet.chain w) (Wallet.workerPool w)
    (Wallet.chainProcessor w) (Wallet.confirmations w) (Wallet.rebroadcastAfter w)
    (Wallet.defaultAccount w) (Wallet.isStarted w) (Wallet.isOpen w) (Wallet.scan w)
    (Wallet.updateHeadState w) (Wallet.eventLoopAborted w)
    (Wallet.onBroadcastTransaction w) (Wallet.onTransactionCreated w)
    (Wallet.onAccountImported w) (Wallet.onAccountRemoved w ++ [id]).

(** [this.chainProcessor.hash = hash]; the cursor's sequence is not written. *)
Definition setChainProcessorHash (hash : option Buffer) (w : Wallet.t) : Wallet.t :=
  Wallet.mk (Wallet.accounts w) (Wallet.chain w) (Wallet.workerPool w)
    (ChainProcessor.mk hash (ChainProcessor.sequence (Wallet.chainProcessor w)))
    (Wallet.confirmations w) (Wallet.rebroadcastAfter w)
    (Wallet.defaultAccount w) (Wallet.isStarted w) (Wallet.isOpen w) (Wallet.scan w)
    (Wallet.updateHeadState w) (Wallet.eventLoopAborted w)
    (Wallet.onBroadcastTransaction w) (Wallet.onTransactionCreated w)
    (Wallet.onAccountImported w) (Wallet.onAccountRemoved w).

(** [BufferMap<bigint>], the map [buildAmountsNeeded] fills: its entries in
    insertion order, which is the order [createSpends] walks them in.
    [set] on a key that is present replaces the value in place. *)
Fixpoint bufferMapSet (key : Buffer) (value : Z) (m : list (Buffer * Z))
    : list (Buffer * Z) :=
  match m with
  | [] => [(key, value)]
  | (k, v) :: rest =>
      if String.eqb k key then (k, value) :: rest
      else (k, v) :: bufferMapSet key value rest
  end.

Definition bufferMapGet (key : Buffer) (m : list (Buffer * Z)) : option Z :=
  snd <$> List.find (λ p, String.eqb p.1 key) m.

Section MoreWalletMethods.
Context `{AccountMethods}.

(** *** The account registry *)

Definition accountExists (w : Wallet.t) (name : string) : bool :=
  notNull (getAccountByName w name).

Definition assertHasAccount (w : Wallet.t) (account : Account.t) : Result unit :=
  if negb (accountExists w (Account.name account))
  then Throw (Error "No account found with name")
  else Ok ().

Definition hasDefaultAccount (w : Wallet.t) : bool :=
  truthyString (Wallet.defaultAccount w).

Definition getDefaultAccount (w : Wallet.t) : option Account.t :=
  if negb (truthyString (Wallet.defaultAccount w)) then None
  else Wallet.defaultAccount w ≫= getAccount w.

(** [removeAccount(name)].  The database transaction clears the default
    account when it is the removed one and drops the account's record and
    head; then the account leaves the registry and the event is emitted. *)
Definition removeAccount (w : Wallet.t) (name : string) : Wallet.t :=
  match getAccountByName w name with
  | None => w
  | Some (id, account) =>
      let w :=
        if bool_decide (Some id = Wallet.defaultAccount w)
        then Wallet.withDefaultAccount None w else w in
      let w := Wallet.withAccounts (delete id) w in
      emitAccountRemoved id w
  end.

(** The loop of [shouldRescan]: [true] at the first account that is not up to
    date, the assertion error of an account [isAccountUpToDate] throws on. *)
Fixpoint shouldRescanLoop (w : Wallet.t) (accounts : list (string * Account.t))
    : Result bool :=
  match accounts with
  | [] => Ok false
  | p :: rest =>
      match isAccountUpToDate w p.2 with
      | Throw e => Throw e
      | Ok upToDate => if negb upToDate then Ok true else shouldRescanLoop w rest
      end
  end.

Definition shouldRescan (w : Wallet.t) : Result bool :=
  if notNull (Wallet.scan w) then Ok false
  else shouldRescanLoop w (listAccounts w).

(** *** Funding a raw transaction *)

(** [buildAmountsNeeded(raw, {fee})]; [nativeId] is the value of
    [Asset.nativeId()]. *)
Definition buildAmountsNeeded (nativeId : Buffer) (raw : RawTransaction.t) (fee : Z)
    : list (Buffer * Z) :=
  let amountsNeeded := bufferMapSet nativeId fee [] in
  let amountsNeeded :=
    foldl (λ (amountsNeeded : list (Buffer * Z)) (receive : Note.t),
             let currentAmount :=
               default 0 (bufferMapGet (Note.assetId receive) amountsNeeded) in
             bufferMapSet (Note.assetId receive)
               (currentAmount + Note.value receive) amountsNeeded)
          amountsNeeded (RawTransaction.receives raw) in
  foldl (λ (amountsNeeded : list (Buffer * Z)) (burn : Buffer * Z),
           let currentAmount := default 0 (bufferMapGet burn.1 amountsNeeded) in
           bufferMapSet burn.1 (currentAmount + burn.2) amountsNeeded)
        amountsNeeded (RawTransaction.burns raw).

(** [raw.spends.push({note, witness})] for each spend, the witness rebuilt
    from its tree size, root hash and authentication path. *)
Definition pushSpends (raw : RawTransaction.t) (spends : list Spend) : RawTransaction.t :=
  RawTransaction.mk (RawTransaction.spendingKey raw) (RawTransaction.expiration raw)
    (RawTransaction.fee raw) (RawTransaction.receives raw) (RawTransaction.burns raw)
    (RawTransaction.spends raw
     ++ ((λ spend : Spend,
            (spend.1,
             NoteWitness.mk (NoteWitness.treeSize spend.2) (NoteWitness.rootHash spend.2)
               (NoteWitness.authenticationPath spend.2))) <$> spends)).

(** [fund(raw, {fee, account})]: the funded transaction, or what
    [createSpends] threw; the account comes back with its repairs. *)
Definition fund (nativeId : Buffer) (w : Wallet.t) (raw : RawTransaction.t) (fee : Z)
    (account : Account.t) : Account.t * Result RawTransaction.t :=
  let needed := buildAmountsNeeded nativeId raw fee in
  match createSpends w account needed with
  | (account, Throw e) => (account, Throw e)
  | (account, Ok spends) => (account, Ok (pushSpends raw spends))
  end.

(** [createTransaction(sender, receives, mints, burns, fee, expirationDelta,
    expiration)].  The record [RawTransaction.t] has no field for the mints;
    [raw.mints = mints] is kept by returning the mints beside the raw
    transaction.  A received note keeps its amount, memo and asset id; the
    two addresses it is built with are not read by the wallet.  The mutex
    around the body orders concurrent calls and does nothing in one call. *)
Definition createTransaction (nativeId : Buffer) (w : Wallet.t) (sender : Account.t)
    (receives : list Receive.t) (mints : list MintDescription.t)
    (burns : list (Buffer * Z)) (fee : Z) (expirationDelta : Z) (expiration : option Z)
    : Account.t * Result (RawTransaction.t * list MintDescription.t) :=
  let heaviestHead := Blockchain.head (Wallet.chain w) in
  let expiration :=
    default (BlockHeader.sequence heaviestHead + expirationDelta) expiration in
  if isExpiredSequence expiration (BlockHeader.sequence (Blockchain.head (Wallet.chain w)))
  then (sender, Throw (Error "Invalid expiration sequence for transaction"))
  else
    match assertHasAccount w sender with
    | Throw e => (sender, Throw e)
    | Ok _ =>
        match isAccountUpToDate w sender with
        | Throw e => (sender, Throw e)
        | Ok upToDate =>
            if negb upToDate
            then (sender,
                  Throw (Error
                    "Your account must finish scanning before sending a transaction."))
            else
              let raw :=
                RawTransaction.mk (Account.spendingKey sender) expiration fee
                  ((λ receive, Note.mk (Receive.amount receive) (Receive.assetId receive)
                                 (Receive.memo receive)) <$> receives)
                  burns [] in
              match fund nativeId w raw fee sender with
              | (sender, Throw e) => (sender, Throw e)
              | (sender, Ok raw) => (sender, Ok (raw, mints))
              end
        end
    end.

(** *** scanTransactions *)

(** The token [new ScanState()] builds. *)
Definition newScanState : ScanState.t := ScanState.mk (-1) (-1) false false [].

Definition setScanRange (sequence endSequence : Z) (s : ScanState.t) : ScanState.t :=
  ScanState.mk sequence endSequence (ScanState.isAborted s) (ScanState.completed s)
    (ScanState.onTransaction s).

(** The loop [for await (const blockHeader of ...) connectBlock(blockHeader,
    scan)] when the token is not aborted while it runs: [scanBlocksStoppable]
    below at [stop = None]. *)
Definition scanBlocks (w : Wallet.t) (scan : option ScanState.t)
    (blockHeaders : list BlockHeader.t) : Wallet.t * option ScanState.t :=
  foldl (λ (st : Wallet.t * option ScanState.t) (blockHeader : BlockHeader.t),
           connectBlock st.1 blockHeader st.2)
        (w, scan) blockHeaders.

(** [stop()] aborts the token of a running scan, [this.scan?.abort()], at
    one of the scan's [await]s.  The scan looks at [scan.isAborted] once in
    [scanTransactions], before the block loop, and in [connectBlock] once
    for each transaction it comes to for each account, so what matters of
    [stop()] is between which two of these reads the abort lands.  [stop]
    says so: [Some n] when [n] more reads find the token as it is and the
    abort has landed before the read after them ([Some 0]: before the check
    in [scanTransactions]), [None] when nothing aborts the token during the
    scan.  [nextRead] is the token as the next read finds it, with what is
    left of [stop]. *)
Definition nextRead (stop : option nat) (scan : option ScanState.t)
    : option nat * option ScanState.t :=
  match stop with
  | Some O => (None, ScanState.abort <$> scan)
  | Some (S n) => (Some n, scan)
  | None => (None, scan)
  end.

(** [connectBlock(blockHeader, scan)] as a scan calls it, with [stop()] in
    the picture: the loop over the block's transactions for one account.
    With [stop = None] it is [connectTransactions]. *)
Fixpoint connectTransactionsStoppable (w : Wallet.t) (blockHeader : BlockHeader.t)
    (id : string) (transactions : list (Transaction.t * Z)) (stop : option nat)
    (scan : option ScanState.t) (account : Account.t) : ConnectOutcome * option nat :=
  match transactions with
  | [] => (Finished account scan, stop)
  | (transaction, initialNoteIndex) :: rest =>
      let '(stop, scan) := nextRead stop scan in
      if scanIsAborted scan
      then (ScanAborted account (ScanState.signalComplete <$> scan), stop)
      else
        let decryptedNotesByAccountId :=
          decryptNotesForAccounts w transaction (Some initialNoteIndex) [(id, account)] in
        match decryptedNotesByAccountId !! id with
        | None => connectTransactionsStoppable w blockHeader id rest stop scan account
        | Some decryptedNotes =>
            let account :=
              Account.withDb (connectTransaction blockHeader transaction decryptedNotes)
                             account in
            connectTransactionsStoppable w blockHeader id rest stop
              (ScanState.signal (BlockHeader.sequence blockHeader) <$> scan) account
        end
  end.

(** One database transaction of [connectBlock], with [stop()] in the
    picture. *)
Definition connectBlockForAccountStoppable (w : Wallet.t) (blockHeader : BlockHeader.t)
    (id : string) (stop : option nat) (scan : option ScanState.t) (account : Account.t)
    : Account.t * option ScanState.t * bool * option nat :=
  let transactions := Blockchain.getBlockTransactions (Wallet.chain w) blockHeader in
  match connectTransactionsStoppable w blockHeader id transactions stop scan account with
  | (ScanAborted account scan, stop) => (account, scan, true, stop)
  | (Finished account scan, stop) =>
      (Account.updateHead
         (Some (HeadValue.mk (BlockHeader.hash blockHeader)
                             (BlockHeader.sequence blockHeader))) account,
       scan, false, stop)
  end.

Definition connectBlockStoppable (w : Wallet.t) (blockHeader : BlockHeader.t)
    (stop : option nat) (scan : option ScanState.t)
    : Wallet.t * option ScanState.t * option nat :=
  let accounts :=
    List.filter (λ p, connectBlockFilter blockHeader p.2) (listAccounts w) in
  foldl (λ (st : Wallet.t * option ScanState.t * option nat) (p : string * Account.t),
           let '(w, scan, stop) := st in
           match getAccount w p.1 with
           | None => (w, scan, stop)
           | Some account =>
               let '(account, scan, cleared, stop) :=
                 connectBlockForAccountStoppable w blockHeader p.1 stop scan account in
               let w := Wallet.withAccounts (insert p.1 account) w in
               (if cleared then Wallet.withScan None w else w, scan, stop)
           end)
        (w, scan, stop) accounts.

(** The loop [for await (const blockHeader of ...) connectBlock(blockHeader,
    scan)], with [stop()] in the picture. *)
Definition scanBlocksStoppable (w : Wallet.t) (stop : option nat)
    (scan : option ScanState.t) (blockHeaders : list BlockHeader.t)
    : Wallet.t * option ScanState.t * option nat :=
  foldl (λ (st : Wallet.t * option ScanState.t * option nat)
           (blockHeader : BlockHeader.t),
           connectBlockStoppable st.1.1 blockHeader st.2 st.1.2)
        (w, scan, stop) blockHeaders.

(** [scanTransactions(fromHash?)].  [iterateBlockHeaders begin end] is what
    [chain.iterateBlockHeaders(begin, end, undefined, false)] yields (the
    chain module is not among the sources), and [stop] is where [stop()]
    aborts the token, if it does.  A failed [Assert.isNotNull] throws with
    [this.scan] as it is then: still the token, or [null] when [connectBlock]
    has met the aborted token and cleared it.  The token is one object, so
    [this.scan], while it is set, shows the progress [connectBlock] signalled
    on it. *)
Definition scanTransactions (iterateBlockHeaders : Buffer → Buffer → list BlockHeader.t)
    (stop : option nat) (w : Wallet.t) (fromHash : option Buffer)
    : Wallet.t * Result unit :=
  if negb (Wallet.isOpen w)
  then (w, Throw (Error "Cannot start a scan if accounts are not loaded"))
  else if notNull (Wallet.scan w) then (w, Ok ())
  else
    let scan := newScanState in
    let w := Wallet.withScan (Some scan) w in
    let beginHash := scanTransactionsBeginHash w fromHash in
    match Blockchain.getHeader (Wallet.chain w) beginHash with
    | None => (w, Throw AssertionError)
    | Some beginHeader =>
        let endHash :=
          default (BlockHeader.hash (Blockchain.head (Wallet.chain w)))
                  (ChainProcessor.hash (Wallet.chainProcessor w)) in
        match Blockchain.getHeader (Wallet.chain w) endHash with
        | None => (w, Throw AssertionError)
        | Some endHeader =>
            let scan :=
              setScanRange (BlockHeader.sequence beginHeader)
                           (BlockHeader.sequence endHeader) scan in
            let '(stop, scan) := nextRead stop (Some scan) in
            let w := Wallet.withScan scan w in
            if scanIsAborted scan || String.eqb beginHash endHash
            then (Wallet.withScan None w, Ok ())
            else
              let '(w, scan, _) :=
                scanBlocksStoppable w stop scan (iterateBlockHeaders beginHash endHash) in
              match ChainProcessor.hash (Wallet.chainProcessor w) with
              | Some _ => (Wallet.withScan None w, Ok ())
              | None =>
                  match getLatestHeadHash w with
                  | None =>
                      (if notNull (Wallet.scan w) then Wallet.withScan scan w else w,
                       Throw AssertionError)
                  | Some latestHeadHash =>
                      (Wallet.withScan None (setChainProcessorHash (Some latestHeadHash) w),
                       Ok ())
                  end
              end
        end
    end.

(** *** Closing the wallet *)

Definition unload (w : Wallet.t) : Wallet.t :=
  let w := Wallet.withAccounts (λ _, ∅) w in
  let w := Wallet.withDefaultAccount None w in
  setChainProcessorHash None w.

(** [close()]; [walletDb.close()] changes nothing the wallet reads. *)
Definition close (w : Wallet.t) : Wallet.t :=
  if negb (Wallet.isOpen w) then w
  else
    let w :=
      Wallet.mk (Wallet.accounts w) (Wallet.chain w) (Wallet.workerPool w)
        (Wallet.chainProcessor w) (Wallet.confirmations w) (Wallet.rebroadcastAfter w)
        (Wallet.defaultAccount w) (Wallet.isStarted w) false (Wallet.scan w)
        (Wallet.updateHeadState w) (Wallet.eventLoopAborted w)
        (Wallet.onBroadcastTransaction w) (Wallet.onTransactionCreated w)
        (Wallet.onAccountImported w) (Wallet.onAccountRemoved w) in
    unload w.

End MoreWalletMethods.

(** ** A reference store

    A small instance of the account methods, used to run the wallet on
    concrete data: transactions are recorded as confirmed, pending or
    removed, unspent notes are the stored notes of the asset that are not
    marked spent, and the pending index lists the unconfirmed records. *)

Definition sampleWithTransactions
    (f : gmap string TransactionValue.t → gmap string TransactionValue.t)
    (d : AccountDb.t) : AccountDb.t :=
  AccountDb.mk (AccountDb.head d) (AccountDb.decryptedNotes d)
               (f (AccountDb.transactions d)) (AccountDb.balances d).

Definition sampleAccountMethods : AccountMethods := {|
  connectTransaction header transaction _ d :=
    sampleWithTransactions
      (insert (Transaction.hash transaction)
         (TransactionValue.mk transaction (Some (BlockHeader.hash header))
            (Some (BlockHeader.sequence header)) (BlockHeader.sequence header))) d;
  disconnectTransaction header transaction d :=
    sampleWithTransactions
      (insert (Transaction.hash transaction)
         (TransactionValue.mk transaction None None (BlockHeader.sequence header - 1))) d;
  deleteTransaction transaction d :=
    sampleWithTransactions (delete (Transaction.hash transaction)) d;
  addPendingTransactionToAccount transaction _ submittedSequence d :=
    sampleWithTransactions
      (insert (Transaction.hash transaction)
         (TransactionValue.mk transaction None None submittedSequence)) d;
  getUnspentNotesOfAccount assetId _ d :=
    (λ p, UnspentNote.mk p.1 p.2) <$>
      List.filter
        (λ p, String.eqb (Note.assetId (DecryptedNoteValue.note p.2)) assetId
              && negb (DecryptedNoteValue.spent p.2))
        (map_to_list (AccountDb.decryptedNotes d));
  getPendingTransactionHashes _ d :=
    fst <$> List.filter (λ p, negb (notNull (TransactionValue.blockHash p.2)))
                        (map_to_list (AccountDb.transactions d))
|}.

(** A worker pool that decrypts the notes whose serialization starts with the
    account's incoming view key. *)
Definition sampleWorkerPool : WorkerPool.t :=
  WorkerPool.mk
    (λ payloads,
       (λ o, if String.prefix (DecryptNoteOptions.incomingViewKey o)
                              (DecryptNoteOptions.serializedNote o)
             then Some (DecryptedNote.mk (DecryptNoteOptions.currentNoteIndex o) false
                          (DecryptNoteOptions.serializedNote o) None
                          (DecryptNoteOptions.serializedNote o))
             else None) <$> payloads)
    (λ raw, Transaction.mk "tx-posted" ["alice-change"%string] false
                           (RawTransaction.expiration raw)).

Definition sampleGenesis : BlockHeader.t := BlockHeader.mk "h1" "h0" 1.
Definition sampleBlock2 : BlockHeader.t := BlockHeader.mk "h2" "h1" 2.

Definition sampleReward : Transaction.t :=
  Transaction.mk "tx-reward" ["alice-reward"%string] true 0.
Definition samplePayment : Transaction.t :=
  Transaction.mk "tx-pay" ["alice-pay"%string; "bob-pay"%string] false 200.

(** A chain whose head is [head]; block ["h2"] holds a miner's fee and a
    payment.  The nullifier ["nf-spent"] is in the nullifier set and leaf 3
    has no witness. *)
Definition sampleChainAt (head : BlockHeader.t) (valid : bool) : Blockchain.t :=
  Blockchain.mk head sampleGenesis true
    (λ h, if String.eqb h (BlockHeader.hash head) then Some head
          else if String.eqb h "h1" then Some sampleGenesis else None)
    (λ header, if String.eqb (BlockHeader.hash header) "h2"
               then [(sampleReward, 0); (samplePayment, 1)] else [])
    (λ nullifier, String.eqb nullifier "nf-spent")
    (λ index, if index =? 3 then None
              else Some (NoteWitness.mk 8 "root" ["sibling"%string]))
    (λ _, VerificationResult.mk valid None)
    (λ _, VerificationResult.mk valid None).

Definition sampleChain (valid : bool) : Blockchain.t := sampleChainAt sampleBlock2 valid.

Definition sampleNote (value : Z) : Note.t := Note.mk value "native" "".

Definition sampleAccount (name : string) (head : option HeadValue.t)
    (notes : list (string * DecryptedNoteValue.t))
    (transactions : list (string * TransactionValue.t)) : Account.t :=
  Account.mk name (name +:+ "-sk") name (name +:+ "-ovk") (name +:+ "-addr")
    (AccountDb.mk (Some head) (list_to_map notes) (list_to_map transactions) ∅).

Definition sampleWallet (valid : bool) (accounts : list (string * Account.t)) : Wallet.t :=
  Wallet.mk (list_to_map accounts) (sampleChain valid) sampleWorkerPool
    (ChainProcessor.mk (Some "h2"%string) (Some 2)) 2 10 None true true None None false
    [] [] [] [].

(** Two accounts: alice has applied block 1, bob has no head yet. *)
Definition alice : Account.t := sampleAccount "alice" (Some (HeadValue.mk "h1" 1)) [] [].
Definition bob : Account.t := sampleAccount "bob" None [] [].

Definition sampleWallet2 : Wallet.t :=
  sampleWallet true [("id-alice"%string, alice); ("id-bob"%string, bob)].

(** A scan token that has been aborted. *)
Definition abortedScan : ScanState.t := ScanState.mk 1 2 true false [].

Definition sampleStored (value : Z) (index : option Z) (nullifier : option Buffer)
    : DecryptedNoteValue.t :=
  DecryptedNoteValue.mk (sampleNote value) index nullifier false "tx-reward".

(** A sender with five mined notes: one of value 0, one whose nullifier is on
    the chain, one whose leaf has no witness, and two that can be spent. *)
Definition spender : Account.t :=
  sampleAccount "alice" (Some (HeadValue.mk "h2" 2))
    [("n-a"%string, sampleStored 0 (Some 0) (Some "nf-0"%string));
     ("n-b"%string, sampleStored 7 (Some 2) (Some "nf-spent"%string));
     ("n-c"%string, sampleStored 3 (Some 3) (Some "nf-3"%string));
     ("n-d"%string, sampleStored 5 (Some 4) (Some "nf-4"%string));
     ("n-e"%string, sampleStored 10 (Some 5) (Some "nf-5"%string))] [].

(** A sender whose only unspent note has not been mined. *)
Definition unminedSpender : Account.t :=
  sampleAccount "alice" (Some (HeadValue.mk "h2" 2))
    [("n-u"%string, sampleStored 5 None None)] [].

Definition unminedCandidate : UnspentNote.t :=
  UnspentNote.mk "n-u" (sampleStored 5 None None).

(** Two accounts of one wallet that both hold the same pending payment,
    submitted at sequence 100, in a wallet whose cursor is at sequence 120. *)
Definition pendingPayment : TransactionValue.t :=
  TransactionValue.mk samplePayment None None 100.

(** The same payment, mined at sequence 100. *)
Definition minedPayment : TransactionValue.t :=
  TransactionValue.mk samplePayment (Some "h100"%string) (Some 100) 100.

Definition sampleBlock120 : BlockHeader.t := BlockHeader.mk "h120" "h119" 120.

Definition rebroadcastWallet : Wallet.t :=
  Wallet.mk
    (list_to_map
       [("id-alice"%string,
         sampleAccount "alice" (Some (HeadValue.mk "h120" 120)) []
           [("tx-pay"%string, pendingPayment)]);
        ("id-bob"%string,
         sampleAccount "bob" (Some (HeadValue.mk "h120" 120)) []
           [("tx-pay"%string, pendingPayment)])])
    (sampleChainAt sampleBlock120 true) sampleWorkerPool
    (ChainProcessor.mk (Some "h120"%string) (Some 120)) 2 10 None true true None None false
    [] [] [] [].

(** A wallet whose only account, [spender], has applied block 2. *)
Definition sampleWallet1 : Wallet.t := sampleWallet true [("id-alice"%string, spender)].

Definition sampleRaw : RawTransaction.t := RawTransaction.mk "alice-sk" 200 1 [] [] [].

Definition sampleKey : Key.t := Key.mk "carol" "carol-ovk" "carol-addr" "carol-sk".

Definition sampleBlock3 : BlockHeader.t := BlockHeader.mk "h3" "h2" 3.

(** The block headers a scan of the sample chain walks, from block 1 to
    block 2. *)
Definition sampleHeaders (_ _ : Buffer) : list BlockHeader.t :=
  [sampleGenesis; sampleBlock2].

(** The wallet as [load()] leaves it: [chainProcessor.hash] is the latest
    head hash of the accounts and [chainProcessor.sequence] is still
    [null]. *)
Definition loadedWallet : Wallet.t :=
  Wallet.mk (list_to_map [("id-alice"%string, spender)]) (sampleChain true) sampleWorkerPool
    (ChainProcessor.mk (Some "h2"%string) None) 2 10 None true true None None false
    [] [] [] [].

(** A chain every block of which holds a miner's fee, the genesis block
    too. *)
Definition busyChain : Blockchain.t :=
  Blockchain.mk sampleBlock2 sampleGenesis true
    (λ h, if String.eqb h "h2" then Some sampleBlock2
          else if String.eqb h "h1" then Some sampleGenesis else None)
    (λ _, [(sampleReward, 0)])
    (λ _, false)
    (λ _, Some (NoteWitness.mk 8 "root" ["sibling"%string]))
    (λ _, VerificationResult.mk true None)
    (λ _, VerificationResult.mk true None).

(** A wallet that has never scanned: bob has no head yet and the cursor has
    no hash. *)
Definition freshWallet : Wallet.t :=
  Wallet.mk (list_to_map [("id-bob"%string, bob)]) busyChain sampleWorkerPool
    (ChainProcessor.mk None None) 2 10 None true true None None false
    [] [] [] [].

(** A payment of 12 of the native asset. *)
Definition sampleReceive (amount : Z) : Receive.t :=
  Receive.mk "bob-addr" amount "" "native".

(** ** Specification vocabulary *)

Section Vocabulary.
Context `{AccountMethods}.

(** The payload [decryptNotes] pushes for [note] when [currentNoteIndex] holds
    [index]. *)
Definition payloadOf (account : Account.t) (note : Buffer) (index : option Z)
    : DecryptNoteOptions.t :=
  DecryptNoteOptions.mk note (Account.incomingViewKey account)
    (Account.outgoingViewKey account) (Account.spendingKey account) index.

(** [if (currentNoteIndex) { currentNoteIndex++ }] *)
Definition nextNoteIndex (currentNoteIndex : option Z) : option Z :=
  if truthy currentNoteIndex then Z.succ <$> currentNoteIndex else currentNoteIndex.

(** The payloads of [notes], the index stepping once per note. *)
Fixpoint payloadsFrom (account : Account.t) (notes : list Buffer)
    (currentNoteIndex : option Z) : list DecryptNoteOptions.t :=
  match notes with
  | [] => []
  | note :: rest =>
      payloadOf account note currentNoteIndex
        :: payloadsFrom account rest (nextNoteIndex currentNoteIndex)
  end.

(** The transactions of a block applied to one account in block order: a
    transaction is handed to [account.connectTransaction] when some of its
    notes decrypt for the account, and left out otherwise. *)
Definition connectedTransactions (w : Wallet.t) (blockHeader : BlockHeader.t)
    (account : Account.t) : Account.t :=
  foldl (λ (account : Account.t) (p : Transaction.t * Z),
           let decryptedNotes :=
             (decryptNotesForAccount w p.1 (Some p.2) account).1 in
           if (length decryptedNotes =? 0)%nat then account
           else Account.withDb (connectTransaction blockHeader p.1 decryptedNotes) account)
        account (Blockchain.getBlockTransactions (Wallet.chain w) blockHeader).

(** The account's head lets [blockHeader] connect: it is the block's
    predecessor, or there is no head yet and the block has sequence 1. *)
Definition headAccepts (blockHeader : BlockHeader.t) (account : Account.t) : Prop :=
  match Account.getHead account with
  | Some accountHead =>
      HeadValue.hash accountHead = BlockHeader.previousBlockHash blockHeader
  | None => BlockHeader.sequence blockHeader = 1
  end.

(** The candidate has been mined: its index and its nullifier are known. *)
Definition mined (unspentNote : UnspentNote.t) : Prop :=
  UnspentNote.index unspentNote ≠ None ∧ UnspentNote.nullifier unspentNote ≠ None.

(** The candidate's nullifier is in the chain's nullifier set. *)
Definition nullifierOnChain (w : Wallet.t) (unspentNote : UnspentNote.t) : bool :=
  match UnspentNote.nullifier unspentNote with
  | Some nullifier => Blockchain.nullifiersContains (Wallet.chain w) nullifier
  | None => false
  end.

(** What the selector takes from a candidate: nothing when its value is not
    positive, when its nullifier is on the chain, or when no witness can be
    produced for its index; the note with its witness otherwise. *)
Definition spendOf (w : Wallet.t) (unspentNote : UnspentNote.t) : option Spend :=
  if Note.value (UnspentNote.note unspentNote) <=? 0 then None
  else if nullifierOnChain w unspentNote then None
  else
    match UnspentNote.index unspentNote with
    | Some index =>
        (λ witness, (UnspentNote.note unspentNote, witness))
          <$> Blockchain.notesWitness (Wallet.chain w) index
    | None => None
    end.

Definition selection (w : Wallet.t) (examined : list UnspentNote.t) : list Spend :=
  omap (spendOf w) examined.

(** The sum of the values of the selected notes. *)
Definition amountOf (spends : list Spend) : Z :=
  foldr (λ (spend : Spend) (sum : Z), Note.value spend.1 + sum) 0 spends.

(** The stored note [noteHash], when there is one, gets [spent = true]. *)
Definition markNoteSpent (noteHash : Buffer) (sender : Account.t) : Account.t :=
  match Account.getDecryptedNote noteHash sender with
  | Some noteMapValue =>
      Account.saveDecryptedNote noteHash (DecryptedNoteValue.markSpent noteMapValue) sender
  | None => sender
  end.

(** The repair of one candidate: a candidate of positive value whose
    nullifier is on the chain is marked spent in the sender's store. *)
Definition repair (w : Wallet.t) (sender : Account.t) (unspentNote : UnspentNote.t)
    : Account.t :=
  if (0 <? Note.value (UnspentNote.note unspentNote)) && nullifierOnChain w unspentNote
  then markNoteSpent (UnspentNote.hash unspentNote) sender
  else sender.

Definition repaired (w : Wallet.t) (sender : Account.t) (examined : list UnspentNote.t)
    : Account.t :=
  foldl (repair w) sender examined.

(** Every stored transaction record is filed under the hash of its
    transaction. *)
Definition wellKeyed (w : Wallet.t) : Prop :=
  ∀ id account txHash transactionInfo,
    Wallet.accounts w !! id = Some account →
    Account.getTransaction txHash account = Some transactionInfo →
    Transaction.hash (TransactionValue.transaction transactionInfo) = txHash.

(** From [w] to [w'] every stored transaction record is still there, for the
    same transaction, with a [submittedSequence] that is not lower. *)
Definition submittedNotLower (w w' : Wallet.t) : Prop :=
  ∀ id account txHash transactionInfo,
    Wallet.accounts w !! id = Some account →
    Account.getTransaction txHash account = Some transactionInfo →
    ∃ account' transactionInfo',
      Wallet.accounts w' !! id = Some account'
      ∧ Account.getTransaction txHash account' = Some transactionInfo'
      ∧ TransactionValue.transaction transactionInfo'
        = TransactionValue.transaction transactionInfo
      ∧ TransactionValue.submittedSequence transactionInfo
        ≤ TransactionValue.submittedSequence transactionInfo'.

End Vocabulary.

(** ** More specification vocabulary *)

Section MoreVocabulary.
Context `{AccountMethods}.

(** No two registered accounts have the same name. *)
Definition uniqueNames (w : Wallet.t) : Prop :=
  ∀ id1 id2 account1 account2,
    Wallet.accounts w !! id1 = Some account1 →
    Wallet.accounts w !! id2 = Some account2 →
    Account.name account1 = Account.name account2 → id1 = id2.

(** The account [createAccount] builds from a name and a generated key, with
    the head [skipRescan] gives it. *)
Definition createdAccount (w : Wallet.t) (name : string) (key : Key.t) : Account.t :=
  skipRescan w
    (Account.mk name (Key.spending_key key) (Key.incoming_view_key key)
       (Key.outgoing_view_key key) (Key.public_address key) emptyAccountDb).

(** From [sender] to [sender'] nothing is written but [spent = true] on notes
    that are stored: the account's name, keys, head, transaction records and
    balances are the same, no note is added and none is removed. *)
Definition onlyMarksSpent (sender sender' : Account.t) : Prop :=
  Account.name sender' = Account.name sender
  ∧ Account.spendingKey sender' = Account.spendingKey sender
  ∧ Account.incomingViewKey sender' = Account.incomingViewKey sender
  ∧ Account.outgoingViewKey sender' = Account.outgoingViewKey sender
  ∧ Account.publicAddress sender' = Account.publicAddress sender
  ∧ AccountDb.head (Account.db sender') = AccountDb.head (Account.db sender)
  ∧ AccountDb.transactions (Account.db sender') = AccountDb.transactions (Account.db sender)
  ∧ AccountDb.balances (Account.db sender') = AccountDb.balances (Account.db sender)
  ∧ ∀ noteHash,
      Account.getDecryptedNote noteHash sender' = Account.getDecryptedNote noteHash sender
      ∨ Account.getDecryptedNote noteHash sender'
        = DecryptedNoteValue.markSpent <$> Account.getDecryptedNote noteHash sender.

(** The notes selected for an entry of the amounts needed are worth the
    amount of the entry at least. *)
Definition covers (entry : Buffer * Z) (notes : list Spend) : Prop :=
  entry.2 ≤ amountOf notes.

(** What a raw transaction pays out, asset by asset: the fee in the native
    asset, the notes it creates and what it burns. *)
Definition outputs (nativeId : Buffer) (raw : RawTransaction.t) (fee : Z)
    : list (Buffer * Z) :=
  (nativeId, fee)
    :: ((λ receive, (Note.assetId receive, Note.value receive))
          <$> RawTransaction.receives raw)
    ++ RawTransaction.burns raw.

(** The sum of the amounts of [assetId] in a list of amounts. *)
Definition demand (assetId : Buffer) (amounts : list (Buffer * Z)) : Z :=
  foldr (λ (p : Buffer * Z) (sum : Z), if String.eqb p.1 assetId then p.2 + sum else sum)
        0 amounts.

(** The sum of all the amounts of a list. *)
Definition total (amounts : list (Buffer * Z)) : Z :=
  foldr (λ (p : Buffer * Z) (sum : Z), p.2 + sum) 0 amounts.

(** What [createTransaction] is asked to pay out, asset by asset: the fee in
    the native asset, the amounts to receive and the burns. *)
Definition requested (nativeId : Buffer) (receives : list Receive.t)
    (burns : list (Buffer * Z)) (fee : Z) : list (Buffer * Z) :=
  (nativeId, fee)
    :: ((λ receive, (Receive.assetId receive, Receive.amount receive)) <$> receives)
    ++ burns.

(** An account with its transaction records left out. *)
Definition withoutTransactions (account : Account.t) : Account.t :=
  Account.withDb (λ d, AccountDb.mk (AccountDb.head d) (AccountDb.decryptedNotes d)
                         ∅ (AccountDb.balances d)) account.

(** From [w] to [w'] the broadcast event has emitted [sent] and nothing else
    has changed but transaction records of registered accounts. *)
Definition rebroadcasts (w w' : Wallet.t) (sent : list Transaction.t) : Prop :=
  Wallet.onBroadcastTransaction w' = Wallet.onBroadcastTransaction w ++ sent
  ∧ Wallet.chain w' = Wallet.chain w
  ∧ Wallet.chainProcessor w' = Wallet.chainProcessor w
  ∧ Wallet.rebroadcastAfter w' = Wallet.rebroadcastAfter w
  ∧ Wallet.eventLoopAborted w' = Wallet.eventLoopAborted w
  ∧ Wallet.defaultAccount w' = Wallet.defaultAccount w
  ∧ Wallet.scan w' = Wallet.scan w
  ∧ Wallet.onTransactionCreated w' = Wallet.onTransactionCreated w
  ∧ ∀ id, withoutTransactions <$> Wallet.accounts w' !! id
          = withoutTransactions <$> Wallet.accounts w !! id.

(** From [w] to [w'] nothing has changed but transaction records, and the
    transactions broadcast meanwhile are all reported valid by
    [verifyTransactionAdd]. *)
Definition rebroadcastsValid (w w' : Wallet.t) : Prop :=
  ∃ sent,
    rebroadcasts w w' sent
    ∧ Forall (λ transaction,
                VerificationResult.valid
                  (Blockchain.verifyTransactionAdd (Wallet.chain w) transaction) = true)
             sent.

(** The test of [connectBlock] on the head of an account. *)
Definition accepts (head : option HeadValue.t) (blockHeader : BlockHeader.t) : bool :=
  match head with
  | Some accountHead =>
      String.eqb (HeadValue.hash accountHead) (BlockHeader.previousBlockHash blockHeader)
  | None => BlockHeader.sequence blockHeader =? 1
  end.

(** The head of an account after the block headers have been offered to it
    one after the other: it moves to each header it accepts. *)
Definition followHeaders (head : option HeadValue.t) (blockHeaders : list BlockHeader.t)
    : option HeadValue.t :=
  foldl (λ (head : option HeadValue.t) (blockHeader : BlockHeader.t),
           if accepts head blockHeader
           then Some (HeadValue.mk (BlockHeader.hash blockHeader)
                                   (BlockHeader.sequence blockHeader))
           else head)
        head blockHeaders.

(** Each header is the successor of the one before it. *)
Fixpoint linked (previous : BlockHeader.t) (blockHeaders : list BlockHeader.t) : Prop :=
  match blockHeaders with
  | [] => True
  | blockHeader :: rest =>
      BlockHeader.previousBlockHash blockHeader = BlockHeader.hash previous
      ∧ linked blockHeader rest
  end.

(** What a scan keeps of the wallet whenever [stop()] lands: the wallet stays
    open, [this.scan] is the token it was or [null], and the token is
    there. *)
Definition scanKeeps (w : Wallet.t) (scan : option ScanState.t)
    (st : Wallet.t * option ScanState.t * option nat) : Prop :=
  Wallet.isOpen st.1.1 = Wallet.isOpen w
  ∧ (Wallet.scan st.1.1 = Wallet.scan w ∨ Wallet.scan st.1.1 = None)
  ∧ (is_Some scan → is_Some st.1.2).

End MoreVocabulary.

(** ** Properties *)

(** Case analysis on the condition of the first [if] of the goal. *)
Ltac case_if :=
  match goal with
  | |- context [if ?b then _ else _] => destruct b eqn:?
  end.

Section WalletProperties.
Context `{AccountMethods}.

(** *** decryptNotes *)

Lemma decryptNotesLoop_submitted w account notes :
  ∀ currentNoteIndex payloads decryptedNotes submitted,
    concat (decryptNotesLoop w account notes currentNoteIndex payloads
              decryptedNotes submitted).2
    = concat submitted ++ payloads ++ payloadsFrom account notes currentNoteIndex.
Proof.
  induction notes as [|note rest IH]; intros cur payloads dn submitted; simpl.
  - destruct payloads as [|p ps]; simpl.
    + by rewrite !app_nil_r.
    + by rewrite concat_app; simpl; rewrite !app_nil_r.
  - fold (payloadOf account note cur). fold (nextNoteIndex cur).
    case_if.
    + rewrite IH, concat_app. simpl. by rewrite app_nil_r, <- !app_assoc.
    + rewrite IH. by rewrite <- !app_assoc.
Qed.

Lemma decryptNotesPayloadsOf_payloadsFrom w transaction initialNoteIndex account :
  decryptNotesPayloadsOf w transaction initialNoteIndex account
  = payloadsFrom account (Transaction.notes transaction) initialNoteIndex.
Proof.
  unfold decryptNotesPayloadsOf, decryptNotesForAccount.
  by rewrite decryptNotesLoop_submitted.
Qed.

Lemma payloadsFrom_positive account notes :
  ∀ i, 0 < i →
    payloadsFrom account notes (Some i)
    = imap (λ j note, payloadOf account note (Some (i + Z.of_nat j))) notes.
Proof.
  induction notes as [|note rest IH]; intros i Hi; simpl; [done|].
  rewrite Z.add_0_r. f_equal.
  unfold nextNoteIndex, truthy.
  destruct (Z.eqb_spec i 0) as [->|_]; [lia|]. simpl.
  rewrite IH by lia. apply imap_ext. intros j note' _. simpl.
  do 2 f_equal. lia.
Qed.

Lemma payloadsFrom_null account notes :
  payloadsFrom account notes None = (λ note, payloadOf account note None) <$> notes.
Proof. induction notes as [|note rest IH]; simpl; [done|]. f_equal; exact IH. Qed.

Lemma payloadsFrom_zero account notes :
  payloadsFrom account notes (Some 0)
  = (λ note, payloadOf account note (Some 0)) <$> notes.
Proof. induction notes as [|note rest IH]; simpl; [done|]. f_equal; exact IH. Qed.

(** X10: One payload per note, in order; from a positive [initialNoteIndex] the
    j-th payload carries [initialNoteIndex + j], and from [null] every payload
    carries [null]. *)
Lemma decryptNotes_payload_indices w transaction account :
  (∀ i, 0 < i →
     decryptNotesPayloadsOf w transaction (Some i) account
     = imap (λ j note, payloadOf account note (Some (i + Z.of_nat j)))
            (Transaction.notes transaction))
  ∧ decryptNotesPayloadsOf w transaction None account
    = (λ note, payloadOf account note None) <$> Transaction.notes transaction.
Proof.
  split; [intros i Hi|]; rewrite decryptNotesPayloadsOf_payloadsFrom.
  - by apply payloadsFrom_positive.
  - apply payloadsFrom_null.
Qed.

(** C5, at [initialNoteIndex = 0]: the test [if (currentNoteIndex)] reads [0]
    as falsy, so the index is never incremented and every payload of the
    transaction carries [currentNoteIndex = 0]. *)
Theorem decryptNotes_zero_index_never_increments w transaction account :
  decryptNotesPayloadsOf w transaction (Some 0) account
  = (λ note, payloadOf account note (Some 0)) <$> Transaction.notes transaction.
Proof.
  rewrite decryptNotesPayloadsOf_payloadsFrom. apply payloadsFrom_zero.
Qed.

(** *** getTransactionStatus *)

(** C7: the head sequence is the one given in the options when there is one
    and the sequence of the account's head otherwise, and the confirmations
    setting is the one given in the options when there is one and the
    configured one otherwise.  The status is [UNKNOWN] when no head sequence
    is available ([null], [undefined] or the falsy [0]); with a head
    sequence, a mined transaction (one with a sequence) is [CONFIRMED] when
    [headSequence - sequence >= confirmations] and [UNCONFIRMED] otherwise; an
    unmined one is [EXPIRED] when [isExpiredSequence] says so of its
    expiration at the head sequence, which is when the expiration is at or
    below the head sequence, and [PENDING] otherwise. *)
Theorem getTransactionStatus_cases w account transaction options :
  let headSequence :=
    match options with
    | Some (StatusOptions.mk (Some headSequence) _) => Some headSequence
    | _ => HeadValue.sequence <$> Account.getHead account
    end in
  let confirmations :=
    match options with
    | Some (StatusOptions.mk _ (Some confirmations)) => confirmations
    | _ => Wallet.confirmations w
    end in
  let expiration := Transaction.expiration (TransactionValue.transaction transaction) in
  let status := getTransactionStatus w account transaction options in
  (truthy headSequence = false → status = UNKNOWN)
  ∧ (∀ h, headSequence = Some h → h ≠ 0 →
       (∀ s, TransactionValue.sequence transaction = Some s → s ≠ 0 →
             (confirmations ≤ h - s → status = CONFIRMED)
             ∧ (h - s < confirmations → status = UNCONFIRMED))
       ∧ (truthy (TransactionValue.sequence transaction) = false →
             status = (if isExpiredSequence expiration h then EXPIRED else PENDING)
             ∧ (expiration ≤ h → status = EXPIRED)
             ∧ (expiration = h → status = EXPIRED)
             ∧ (h < expiration → status = PENDING))).
Proof.
  cbv zeta.
  assert (Hhead : statusHeadSequence account options
                  = match options with
                    | Some (StatusOptions.mk (Some headSequence) _) => Some headSequence
                    | _ => HeadValue.sequence <$> Account.getHead account
                    end)
    by (unfold statusHeadSequence; by destruct options as [[[h|] c]|]).
  assert (Hconfirmations : statusConfirmations w options
                           = match options with
                             | Some (StatusOptions.mk _ (Some confirmations)) =>
                                 confirmations
                             | _ => Wallet.confirmations w
                             end)
    by (unfold statusConfirmations; by destruct options as [[h [c|]]|]).
  unfold getTransactionStatus. rewrite Hhead, Hconfirmations.
  set (confirmations := match options with
                        | Some (StatusOptions.mk _ (Some confirmations)) => confirmations
                        | _ => Wallet.confirmations w
                        end).
  destruct (match options with
            | Some (StatusOptions.mk (Some headSequence) _) => Some headSequence
            | _ => HeadValue.sequence <$> Account.getHead account
            end) as [h|]; simpl.
  2: { split; [done|]. intros h Hh. discriminate. }
  split.
  - intros Hf. by rewrite Hf.
  - intros h' [= <-] Hh. destruct (Z.eqb_spec h 0) as [?|_]; [done|]. simpl.
    split.
    + intros s -> Hs. destruct (Z.eqb_spec s 0) as [?|_]; [done|]. simpl.
      split; intros Hc.
      * by rewrite (proj2 (Z.geb_le _ _) Hc).
      * destruct (Z.geb_spec (h - s) confirmations); [lia|done].
    + intros Hs.
      assert (Hstatus :
        match TransactionValue.sequence transaction with
        | Some sequence =>
            if negb (sequence =? 0)
            then if h - sequence >=? confirmations
                 then CONFIRMED else UNCONFIRMED
            else if isExpiredSequence
                      (Transaction.expiration (TransactionValue.transaction transaction)) h
                 then EXPIRED else PENDING
        | None =>
            if isExpiredSequence
                 (Transaction.expiration (TransactionValue.transaction transaction)) h
            then EXPIRED else PENDING
        end
        = if isExpiredSequence
               (Transaction.expiration (TransactionValue.transaction transaction)) h
          then EXPIRED else PENDING).
      { destruct (TransactionValue.sequence transaction) as [s|]; [|done].
        simpl in Hs. by rewrite Hs. }
      rewrite Hstatus. split; [done|]. unfold isExpiredSequence.
      destruct (Z.leb_spec
                  (Transaction.expiration (TransactionValue.transaction transaction)) h);
        repeat split; intros; first [done | lia].
Qed.

(** *** Account heads and the start of a scan *)

Lemma earliestHeadLoop_null accounts :
  ∀ earliestHead,
    (∃ p, p ∈ accounts ∧ Account.getHead p.2 = None) →
    earliestHeadLoop accounts earliestHead = None.
Proof.
  induction accounts as [|q rest IH]; intros acc [p [Hin Hnull]].
  - by apply elem_of_nil in Hin.
  - simpl. destruct (Account.getHead q.2) as [head|] eqn:Hq; [|done].
    apply IH. exists p. split; [|done].
    apply elem_of_cons in Hin as [->|Hin]; [congruence|done].
Qed.

Lemma earliestHeadLoop_min accounts :
  ∀ earliestHead,
    (∀ p, p ∈ accounts → Account.getHead p.2 ≠ None) →
    match earliestHeadLoop accounts earliestHead with
    | None => earliestHead = None ∧ accounts = []
    | Some hash =>
        ∃ head,
          hash = HeadValue.hash head
          ∧ (earliestHead = Some head
             ∨ ∃ p, p ∈ accounts ∧ Account.getHead p.2 = Some head)
          ∧ (∀ e, earliestHead = Some e → HeadValue.sequence head ≤ HeadValue.sequence e)
          ∧ (∀ p head', p ∈ accounts → Account.getHead p.2 = Some head' →
                        HeadValue.sequence head ≤ HeadValue.sequence head')
    end.
Proof.
  induction accounts as [|q rest IH]; intros acc Hall; simpl.
  - destruct acc as [e|]; simpl; [|done].
    exists e. repeat split; [by left| |].
    + intros e' [= <-]. lia.
    + intros p head' Hin. by apply elem_of_nil in Hin.
  - destruct (Account.getHead q.2) as [head|] eqn:Hq.
    2: { exfalso. apply (Hall q); [left|done]. }
    assert (Hrest : ∀ p, p ∈ rest → Account.getHead p.2 ≠ None).
    { intros p Hp. apply Hall. by right. }
    set (acc' := match acc with
                 | Some e => if HeadValue.sequence e >? HeadValue.sequence head
                             then Some head else Some e
                 | None => Some head
                 end).
    specialize (IH acc' Hrest).
    destruct (earliestHeadLoop rest acc') as [hash|].
    2: { destruct IH as [Hacc' _]. subst acc'. destruct acc as [e|]; [|done].
         by destruct (HeadValue.sequence e >? HeadValue.sequence head). }
    destruct IH as (m & -> & Hfrom & Hacc & Hothers).
    assert (Hhead : HeadValue.sequence m ≤ HeadValue.sequence head).
    { subst acc'. destruct acc as [e|].
      - destruct (Z.gtb_spec (HeadValue.sequence e) (HeadValue.sequence head)).
        + by apply Hacc.
        + specialize (Hacc e eq_refl). lia.
      - by apply Hacc. }
    exists m. split; [done|]. split; [|split].
    + destruct Hfrom as [Hm|(p & Hp & Hpm)].
      * subst acc'. destruct acc as [e|].
        -- destruct (HeadValue.sequence e >? HeadValue.sequence head).
           ++ right. exists q. split; [left|congruence].
           ++ by left.
        -- right. exists q. split; [left|congruence].
      * right. exists p. split; [by right|done].
    + intros e ->. subst acc'. simpl in *.
      destruct (Z.gtb_spec (HeadValue.sequence e) (HeadValue.sequence head)).
      * specialize (Hacc head eq_refl). lia.
      * by apply Hacc.
    + intros p head' Hin Hp. apply elem_of_cons in Hin as [->|Hin].
      * rewrite Hq in Hp. by injection Hp as <-.
      * by eapply Hothers.
Qed.

(** C9: when some loaded account has a [null] head, [getEarliestHeadHash]
    returns [null], whatever the other heads are, and a scan started without
    [fromHash] begins at the genesis hash.  When every account has a head, it
    returns the hash of a head of minimum sequence (and [null] only for a
    wallet with no account). *)
Theorem getEarliestHeadHash_spec w :
  ((∃ id account, Wallet.accounts w !! id = Some account
                  ∧ Account.getHead account = None) →
     getEarliestHeadHash w = None
     ∧ scanTransactionsBeginHash w None
       = BlockHeader.hash (Blockchain.genesis (Wallet.chain w)))
  ∧ ((∀ id account, Wallet.accounts w !! id = Some account →
                    Account.getHead account ≠ None) →
       match getEarliestHeadHash w with
       | None => Wallet.accounts w = ∅
       | Some hash =>
           scanTransactionsBeginHash w None = hash
           ∧ ∃ id account head,
               Wallet.accounts w !! id = Some account
               ∧ Account.getHead account = Some head
               ∧ hash = HeadValue.hash head
               ∧ ∀ id' account' head',
                   Wallet.accounts w !! id' = Some account' →
                   Account.getHead account' = Some head' →
                   HeadValue.sequence head ≤ HeadValue.sequence head'
       end).
Proof.
  split.
  - intros (id & account & Hin & Hnull).
    assert (Hnone : getEarliestHeadHash w = None).
    { apply earliestHeadLoop_null. exists (id, account). split; [|done].
      by apply elem_of_map_to_list. }
    split; [done|]. unfold scanTransactionsBeginHash. by rewrite Hnone.
  - intros Hall.
    pose proof (earliestHeadLoop_min (listAccounts w) None) as Hmin.
    unfold scanTransactionsBeginHash. fold (getEarliestHeadHash w) in Hmin.
    destruct (getEarliestHeadHash w) as [hash|].
    + destruct Hmin as (head & -> & Hfrom & _ & Hothers).
      { intros [id account] Hin. apply elem_of_map_to_list in Hin. by eapply Hall. }
      split; [done|].
      destruct Hfrom as [?|([id account] & Hin & Hp)]; [done|].
      exists id, account, head. apply elem_of_map_to_list in Hin.
      repeat split; try done.
      intros id' account' head' Hin' Hhead'.
      apply (Hothers (id', account') head'); [|done].
      by apply elem_of_map_to_list.
    + destruct Hmin as [_ Hnil].
      { intros [id account] Hin. apply elem_of_map_to_list in Hin. by eapply Hall. }
      by apply map_to_list_empty_iff.
Qed.

(** A [fromHash] argument takes priority over every account head. *)
Lemma scanTransactionsBeginHash_fromHash w fromHash :
  scanTransactionsBeginHash w (Some fromHash) = fromHash.
Proof. done. Qed.

(** *** Account creation *)

Lemma getAccountByName_None w name :
  getAccountByName w name = None ↔
  ∀ id account, Wallet.accounts w !! id = Some account → Account.name account ≠ name.
Proof.
  unfold getAccountByName, listAccounts. split.
  - intros Hfind id account Hin Hname.
    pose proof (find_none _ _ Hfind (id, account)) as Hf. simpl in Hf.
    rewrite Hname, String.eqb_refl in Hf. discriminate Hf.
    apply list_elem_of_In. by apply elem_of_map_to_list.
  - intros Hall.
    destruct (find _ _) as [[id account]|] eqn:Hfind; [|done].
    apply find_some in Hfind as [Hin Hname]. simpl in Hname.
    apply String.eqb_eq in Hname. apply list_elem_of_In, elem_of_map_to_list in Hin.
    by destruct (Hall id account Hin).
Qed.

Lemma setDefaultAccount_registered w name id account :
  Wallet.accounts w !! id = Some account → Account.name account = name →
  ∃ w', setDefaultAccount w (Some name) = (w', Ok ())
        ∧ Wallet.accounts w' = Wallet.accounts w
        ∧ Wallet.chainProcessor w' = Wallet.chainProcessor w.
Proof.
  intros Hin Hname. unfold setDefaultAccount.
  destruct (truthyString (Some name)); [|by eexists].
  simpl. destruct (getAccountByName w name) as [next|] eqn:Hfind.
  - case_bool_decide; by eexists.
  - exfalso. by eapply getAccountByName_None.
Qed.

Lemma skipRescan_head w account :
  Account.getHead (skipRescan w account)
  = match ChainProcessor.hash (Wallet.chainProcessor w),
          ChainProcessor.sequence (Wallet.chainProcessor w) with
    | Some hash, Some sequence => Some (HeadValue.mk hash sequence)
    | _, _ => None
    end.
Proof.
  unfold skipRescan.
  destruct (ChainProcessor.hash (Wallet.chainProcessor w)),
           (ChainProcessor.sequence (Wallet.chainProcessor w)); done.
Qed.

Lemma skipRescan_stored w account :
  AccountDb.head (Account.db (skipRescan w account))
  = Some (match ChainProcessor.hash (Wallet.chainProcessor w),
                ChainProcessor.sequence (Wallet.chainProcessor w) with
          | Some hash, Some sequence => Some (HeadValue.mk hash sequence)
          | _, _ => None
          end).
Proof.
  unfold skipRescan.
  destruct (ChainProcessor.hash (Wallet.chainProcessor w)),
           (ChainProcessor.sequence (Wallet.chainProcessor w)); done.
Qed.

(** C10: [createAccount] registers the new account and writes its head: the
    chain cursor [{hash: chainProcessor.hash, sequence: chainProcessor.sequence}]
    when the cursor's hash and sequence are both set, and [null] when either
    is [null].  With both set, or with no hash, the new account is up to date
    and is not rescanned; with a hash and no sequence it is not up to date,
    the earliest head of the wallet is [null] and a scan starts at the genesis
    block.  [importAccount], whenever it returns, has written the head [null]
    for the imported account: the account is not up to date with a cursor
    that has a hash, the earliest head of the wallet is [null] and a scan
    starts at the genesis block.  It returns when the name is empty or free,
    the spending key is new and the validator accepts the account. *)
Theorem createAccount_importAccount_head
    (generateKeyFromPrivateKey : string → Key.t)
    (validateAccount : string → Account.t → bool) w :
  (∀ name setDefault id key,
     getAccountByName w name = None →
     ∃ w' account,
       createAccount w name setDefault id key = (w', Ok (id, account))
       ∧ Wallet.accounts w' !! id = Some account
       ∧ AccountDb.head (Account.db account)
         = Some (match ChainProcessor.hash (Wallet.chainProcessor w),
                       ChainProcessor.sequence (Wallet.chainProcessor w) with
                 | Some hash, Some sequence => Some (HeadValue.mk hash sequence)
                 | _, _ => None
                 end)
       ∧ (is_Some (ChainProcessor.hash (Wallet.chainProcessor w)) →
          is_Some (ChainProcessor.sequence (Wallet.chainProcessor w)) →
          isAccountUpToDate w' account = Ok true)
       ∧ (ChainProcessor.hash (Wallet.chainProcessor w) = None →
          isAccountUpToDate w' account = Ok true)
       ∧ (is_Some (ChainProcessor.hash (Wallet.chainProcessor w)) →
          ChainProcessor.sequence (Wallet.chainProcessor w) = None →
          isAccountUpToDate w' account = Ok false
          ∧ getEarliestHeadHash w' = None
          ∧ scanTransactionsBeginHash w' None
            = BlockHeader.hash (Blockchain.genesis (Wallet.chain w))))
  ∧ (∀ toImport id w' imported,
       importAccount generateKeyFromPrivateKey validateAccount w toImport id
       = (w', Ok imported) →
       ∃ account,
         imported = (id, account)
         ∧ Wallet.accounts w' !! id = Some account
         ∧ AccountDb.head (Account.db account) = Some None
         ∧ (is_Some (ChainProcessor.hash (Wallet.chainProcessor w)) →
            isAccountUpToDate w' account = Ok false)
         ∧ getEarliestHeadHash w' = None
         ∧ scanTransactionsBeginHash w' None
           = BlockHeader.hash (Blockchain.genesis (Wallet.chain w)))
  ∧ (∀ toImport id,
       (AccountImport.name toImport = ""%string
        ∨ getAccountByName w (AccountImport.name toImport) = None) →
       (∀ id' account', Wallet.accounts w !! id' = Some account' →
                        Account.spendingKey account' ≠ AccountImport.spendingKey toImport) →
       validateAccount id
         (Account.mk (AccountImport.name toImport) (AccountImport.spendingKey toImport)
            (Key.incoming_view_key
               (generateKeyFromPrivateKey (AccountImport.spendingKey toImport)))
            (Key.outgoing_view_key
               (generateKeyFromPrivateKey (AccountImport.spendingKey toImport)))
            (Key.public_address
               (generateKeyFromPrivateKey (AccountImport.spendingKey toImport)))
            emptyAccountDb) = true →
       ∃ w' account,
         importAccount generateKeyFromPrivateKey validateAccount w toImport id
         = (w', Ok (id, account))).
Proof.
  split; [|split].
  - intros name setDefault id key Hfree. unfold createAccount. rewrite Hfree. simpl.
    set (account := skipRescan w _).
    set (w1 := Wallet.withAccounts (insert id account) w).
    assert (Hin : Wallet.accounts w1 !! id = Some account) by apply lookup_insert_eq.
    assert (Hstored : AccountDb.head (Account.db account)
                      = Some (match ChainProcessor.hash (Wallet.chainProcessor w),
                                    ChainProcessor.sequence (Wallet.chainProcessor w) with
                              | Some hash, Some sequence => Some (HeadValue.mk hash sequence)
                              | _, _ => None
                              end)) by apply skipRescan_stored.
    assert (Hrest : ∀ w', Wallet.chainProcessor w' = Wallet.chainProcessor w →
              Wallet.chain w' = Wallet.chain w →
              Wallet.accounts w' !! id = Some account →
              (is_Some (ChainProcessor.hash (Wallet.chainProcessor w)) →
               is_Some (ChainProcessor.sequence (Wallet.chainProcessor w)) →
               isAccountUpToDate w' account = Ok true)
              ∧ (ChainProcessor.hash (Wallet.chainProcessor w) = None →
                 isAccountUpToDate w' account = Ok true)
              ∧ (is_Some (ChainProcessor.hash (Wallet.chainProcessor w)) →
                 ChainProcessor.sequence (Wallet.chainProcessor w) = None →
                 isAccountUpToDate w' account = Ok false
                 ∧ getEarliestHeadHash w' = None
                 ∧ scanTransactionsBeginHash w' None
                   = BlockHeader.hash (Blockchain.genesis (Wallet.chain w)))).
    { intros w' Hcursor Hchain Hin'.
      unfold isAccountUpToDate, Account.headIsUndefined, Account.getHead.
      rewrite Hstored, Hcursor. cbn [notNull negb default].
      split; [|split].
      - intros [hash Hhash] [sequence Hsequence]. rewrite Hhash, Hsequence. simpl.
        by rewrite String.eqb_refl.
      - intros Hhash. by rewrite Hhash.
      - intros [hash Hhash] Hsequence. rewrite Hhash, Hsequence. simpl.
        split; [done|].
        assert (Hnone : getEarliestHeadHash w' = None).
        { apply earliestHeadLoop_null. exists (id, account). split.
          - by apply elem_of_map_to_list.
          - simpl. unfold Account.getHead. by rewrite Hstored, Hhash, Hsequence. }
        split; [done|]. unfold scanTransactionsBeginHash. by rewrite Hnone, Hchain. }
    destruct setDefault.
    + destruct (setDefaultAccount_registered w1 (Account.name account) id account
                  Hin eq_refl) as (w2 & Hrun & Haccounts & Hcursor).
      rewrite Hrun. exists w2, account. rewrite Haccounts.
      split; [done|]. split; [done|]. split; [done|].
      apply Hrest; [done| |by rewrite Haccounts].
      revert Hrun. unfold setDefaultAccount.
      destruct (truthyString _); [|by intros [= <-]].
      destruct (getAccountByName w1 _); [|done].
      case_bool_decide; by intros [= <-].
    + exists w1, account. split; [done|]. split; [done|]. split; [done|].
      by apply Hrest.
  - intros toImport id w' imported Hrun. unfold importAccount in Hrun.
    destruct (_ && _); [done|].
    destruct (notNull (find _ (listAccounts w))); [done|].
    destruct (validateAccount id _); [|done]. simpl in Hrun.
    injection Hrun as <- <-.
    set (account := Account.updateHead None _).
    set (w' := Wallet.emitAccountImported id _).
    assert (Hin : Wallet.accounts w' !! id = Some account) by apply lookup_insert_eq.
    assert (Hnone : getEarliestHeadHash w' = None).
    { apply earliestHeadLoop_null. exists (id, account). split; [|done].
      by apply elem_of_map_to_list. }
    exists account. split; [done|]. split; [done|]. split; [done|].
    split; [intros [hash Hhash]; unfold isAccountUpToDate; simpl; by rewrite Hhash|].
    split; [done|]. unfold scanTransactionsBeginHash. by rewrite Hnone.
  - intros toImport id Hname Hkey Hvalid. unfold importAccount.
    assert (Hn : truthyString (Some (AccountImport.name toImport))
                 && notNull (getAccountByName w (AccountImport.name toImport)) = false).
    { destruct Hname as [->| ->]; [done|]. apply andb_false_r. }
    rewrite Hn.
    destruct (find _ (listAccounts w)) as [[id' account']|] eqn:Hfind; simpl.
    { apply find_some in Hfind as [Hin Heq]. simpl in Heq. apply String.eqb_eq in Heq.
      apply list_elem_of_In, elem_of_map_to_list in Hin.
      by destruct (Hkey id' account' Hin). }
    rewrite Hvalid. simpl. by eexists _, _.
Qed.

(** A taken name makes [createAccount] throw and leaves the wallet as it
    was. *)
Lemma createAccount_name_taken w name setDefault id key :
  getAccountByName w name ≠ None →
  ∃ message, createAccount w name setDefault id key = (w, Throw (Error message)).
Proof.
  intros Htaken. unfold createAccount.
  destruct (getAccountByName w name); [by eexists|done].
Qed.

(** *** Loops over the registered accounts *)

Lemma NoDup_fst_filter {A B} (f : A * B → bool) (l : list (A * B)) :
  NoDup l.*1 → NoDup (List.filter f l).*1.
Proof.
  induction l as [|[k v] l IH]; simpl; [done|].
  intros Hnd. apply NoDup_cons in Hnd as [Hk Hnd].
  destruct (f (k, v)); simpl; [|by apply IH].
  apply NoDup_cons. split; [|by apply IH].
  intros Hin. apply Hk. apply list_elem_of_fmap in Hin as ([k' v'] & -> & Hin).
  apply list_elem_of_In, filter_In in Hin as [Hin _].
  apply list_elem_of_fmap. exists (k', v'). split; [done|]. by apply list_elem_of_In.
Qed.

Lemma list_to_map_filter_to_list {A} (f : string * A → bool) (m : gmap string A) id :
  (list_to_map (List.filter f (map_to_list m)) : gmap string A) !! id
  = match m !! id with
    | Some a => if f (id, a) then Some a else None
    | None => None
    end.
Proof.
  apply option_eq. intros x.
  rewrite <- elem_of_list_to_map
    by apply NoDup_fst_filter, NoDup_fst_map_to_list.
  rewrite list_elem_of_In, filter_In, <- list_elem_of_In, elem_of_map_to_list.
  split.
  - intros [-> ->]. done.
  - destruct (m !! id) as [a|]; [|done].
    destruct (f (id, a)) eqn:Hf; [|done]. by intros [= <-].
Qed.

(** A loop that rewrites each listed account in place: every listed id is
    rewritten once and the other accounts are not touched.  [registry] reads
    the accounts out of the loop's state and [inv] is what the loop body
    keeps true. *)
Lemma foldl_registry {S V} (registry : S → gmap string Account.t) (inv : S → Prop)
    (step : S → string * V → S) (update : string → V → Account.t → Account.t) :
  (∀ st p, inv st →
     inv (step st p)
     ∧ registry (step st p)
       = match registry st !! p.1 with
         | Some account => <[p.1 := update p.1 p.2 account]> (registry st)
         | None => registry st
         end) →
  ∀ l st, inv st → NoDup l.*1 →
    inv (foldl step st l)
    ∧ ∀ id, registry (foldl step st l) !! id
            = match (list_to_map l : gmap string V) !! id with
              | Some v => update id v <$> registry st !! id
              | None => registry st !! id
              end.
Proof.
  intros Hstep. induction l as [|[k v] l IH]; intros st Hinv Hnd.
  - split; [done|]. intros id. simpl. by rewrite lookup_empty.
  - apply NoDup_cons in Hnd as [Hk Hnd]. simpl.
    destruct (Hstep st (k, v) Hinv) as [Hinv' Hreg]. simpl in Hreg.
    destruct (IH (step st (k, v)) Hinv' Hnd) as [Hfinal Hlookup].
    split; [done|]. intros id. rewrite Hlookup, Hreg.
    destruct (decide (id = k)) as [->|Hne].
    + rewrite lookup_insert_eq, (not_elem_of_list_to_map_1 l k Hk).
      destruct (registry st !! k) as [account|] eqn:Hacc.
      * by rewrite lookup_insert_eq.
      * by rewrite Hacc.
    + rewrite lookup_insert_ne by done.
      destruct (registry st !! k) as [account|]; [|done].
      by rewrite lookup_insert_ne.
Qed.

(** *** connectBlock *)

Lemma decryptNotesLoop_workerPool w w' account notes :
  Wallet.workerPool w = Wallet.workerPool w' →
  ∀ currentNoteIndex payloads decryptedNotes submitted,
    decryptNotesLoop w account notes currentNoteIndex payloads decryptedNotes submitted
    = decryptNotesLoop w' account notes currentNoteIndex payloads decryptedNotes submitted.
Proof.
  intros Hpool. unfold decryptNotesLoop, decryptNotesFromTransaction.
  induction notes as [|note rest IH]; intros cur payloads dn submitted.
  - by rewrite Hpool.
  - rewrite Hpool. case_if; apply IH.
Qed.

(** [decryptNotes] given its accounts does not look at the heads and does
    not throw: it is its loop over the accounts given, which is how
    [connectBlock] and [addPendingTransaction] call it. *)
Lemma decryptNotes_given_accounts w transaction initialNoteIndex accounts :
  decryptNotes w transaction initialNoteIndex (Some accounts)
  = Ok (decryptNotesForAccounts w transaction initialNoteIndex accounts).
Proof. done. Qed.

Lemma decryptNotes_single w transaction initialNoteIndex id account :
  decryptNotesForAccounts w transaction initialNoteIndex [(id, account)] !! id
  = let decryptedNotes :=
      (decryptNotesForAccount w transaction initialNoteIndex account).1 in
    if (length decryptedNotes =? 0)%nat then None else Some decryptedNotes.
Proof.
  unfold decryptNotesForAccounts. simpl.
  destruct (length _ =? 0)%nat; simpl; [done|apply lookup_insert_eq].
Qed.

Lemma connectTransactions_not_aborted w w0 blockHeader id transactions :
  Wallet.workerPool w = Wallet.workerPool w0 →
  ∀ scan account,
    scanIsAborted scan = false →
    ∃ scan',
      connectTransactions w blockHeader id transactions scan account
      = Finished
          (foldl (λ (account : Account.t) (p : Transaction.t * Z),
                    let decryptedNotes :=
                      (decryptNotesForAccount w0 p.1 (Some p.2) account).1 in
                    if (length decryptedNotes =? 0)%nat then account
                    else Account.withDb
                           (connectTransaction blockHeader p.1 decryptedNotes) account)
                 account transactions)
          scan'
      ∧ scanIsAborted scan' = false.
Proof.
  intros Hpool.
  induction transactions as [|[transaction initialNoteIndex] rest IH];
    intros scan account Hscan.
  - by exists scan.
  - cbn [connectTransactions]. rewrite Hscan, decryptNotes_single. cbn zeta.
    unfold decryptNotesForAccount.
    rewrite (decryptNotesLoop_workerPool w w0 _ _ Hpool).
    cbn [foldl fst snd]. unfold decryptNotesForAccount.
    destruct (length _ =? 0)%nat.
    + by apply IH.
    + apply IH. by destruct scan.
Qed.


Lemma connectTransactions_aborted w blockHeader id transactions scan account :
  scanIsAborted scan = true → transactions ≠ [] →
  connectTransactions w blockHeader id transactions scan account
  = ScanAborted account (ScanState.signalComplete <$> scan).
Proof.
  intros Hscan Hne. destruct transactions as [|[transaction initialNoteIndex] rest];
    [done|]. cbn [connectTransactions]. by rewrite Hscan.
Qed.

(** X12: An aborted scan token stops [connectBlock] before the first transaction of
    a non-empty block: no account is touched and no head moves. *)
Lemma connectBlock_aborted w blockHeader scan :
  scanIsAborted scan = true →
  Blockchain.getBlockTransactions (Wallet.chain w) blockHeader ≠ [] →
  ∀ id, Wallet.accounts (connectBlock w blockHeader scan).1 !! id
        = Wallet.accounts w !! id.
Proof.
  intros Hscan Hne id. unfold connectBlock.
  set (l := List.filter _ (listAccounts w)).
  set (step := λ (st : Wallet.t * option ScanState.t) (p : string * Account.t), _).
  pose (inv := λ st : Wallet.t * option ScanState.t,
          Wallet.chain st.1 = Wallet.chain w ∧ scanIsAborted st.2 = true).
  destruct (foldl_registry (λ st, Wallet.accounts st.1) inv step
              (λ (_ : string) (_ : Account.t) (a : Account.t), a)) with
    (l := l) (st := (w, scan)) as [_ Hlookup].
  { intros [w1 scan1] [k a] (Hchain & Hscan1). subst step. cbn beta iota.
    unfold getAccount. cbn [fst snd].
    destruct (Wallet.accounts w1 !! k) as [account1|] eqn:Hk; [|done].
    unfold connectBlockForAccount. simpl in *. rewrite Hchain.
    rewrite connectTransactions_aborted by done. simpl.
    split; [|done]. split; [done|]. by destruct scan1. }
  { done. }
  { apply NoDup_fst_filter, NoDup_fst_map_to_list. }
  specialize (Hlookup id). cbn [fst] in Hlookup. rewrite Hlookup.
  destruct (list_to_map l !! id); [|done].
  by destruct (Wallet.accounts w !! id).
Qed.

(** *** disconnectBlock *)

(** C4: for every account whose head hash equals [header.hash],
    [disconnectBlock] hands the block's transactions to
    [account.disconnectTransaction] in reverse block order, deletes each one
    that is a miner's fee right after disconnecting it, and then sets the head
    to [{hash: header.previousBlockHash, sequence: header.sequence - 1}]; the
    account is rewritten in one step, the database transaction. *)
Theorem disconnectBlock_accounts w header id account accountHead :
  Wallet.accounts w !! id = Some account →
  Account.getHead account = Some accountHead →
  HeadValue.hash accountHead = BlockHeader.hash header →
  ∃ account',
    Wallet.accounts (disconnectBlock w header) !! id = Some account'
    ∧ account'
      = Account.updateHead
          (Some (HeadValue.mk (BlockHeader.previousBlockHash header)
                              (BlockHeader.sequence header - 1)))
          (foldl (λ (account : Account.t) (transaction : Transaction.t),
                    let disconnected :=
                      Account.withDb (disconnectTransaction header transaction) account in
                    if Transaction.isMinersFee transaction
                    then Account.withDb (deleteTransaction transaction) disconnected
                    else disconnected)
                 account
                 (reverse
                    (fst <$> Blockchain.getBlockTransactions (Wallet.chain w) header)))
    ∧ Account.getHead account'
      = Some (HeadValue.mk (BlockHeader.previousBlockHash header)
                           (BlockHeader.sequence header - 1)).
Proof.
  intros Hacc Hhead Hhash. unfold disconnectBlock.
  set (l := List.filter _ (listAccounts w)).
  set (step := λ (w : Wallet.t) (p : string * Account.t), _).
  destruct (foldl_registry Wallet.accounts (λ w1, Wallet.chain w1 = Wallet.chain w) step
              (λ (_ : string) (_ : Account.t) (a : Account.t),
                 disconnectBlockForAccount w header a)) with
    (l := l) (st := w) as [_ Hlookup].
  { intros w1 [k a] Hchain. subst step. cbn beta iota.
    unfold getAccount. cbn [fst snd].
    destruct (Wallet.accounts w1 !! k) as [account1|]; [|done].
    split; [done|]. simpl. unfold disconnectBlockForAccount. by rewrite Hchain. }
  { done. }
  { apply NoDup_fst_filter, NoDup_fst_map_to_list. }
  rewrite (Hlookup id). subst l. unfold listAccounts.
  rewrite list_to_map_filter_to_list, Hacc. cbn [snd].
  unfold disconnectBlockFilter, equalsNullable. rewrite Hhead. simpl.
  rewrite Hhash, String.eqb_refl. simpl. by eexists.
Qed.

(** X15: Accounts with no head, or with another head, are left as they were. *)
Lemma disconnectBlock_other_accounts w header id account :
  Wallet.accounts w !! id = Some account →
  HeadValue.hash <$> Account.getHead account ≠ Some (BlockHeader.hash header) →
  Wallet.accounts (disconnectBlock w header) !! id = Some account.
Proof.
  intros Hacc Hhead. unfold disconnectBlock.
  set (l := List.filter _ (listAccounts w)).
  set (step := λ (w : Wallet.t) (p : string * Account.t), _).
  destruct (foldl_registry Wallet.accounts (λ w1, Wallet.chain w1 = Wallet.chain w) step
              (λ (_ : string) (_ : Account.t) (a : Account.t),
                 disconnectBlockForAccount w header a)) with
    (l := l) (st := w) as [_ Hlookup].
  { intros w1 [k a] Hchain. subst step. cbn beta iota.
    unfold getAccount. cbn [fst snd].
    destruct (Wallet.accounts w1 !! k) as [account1|]; [|done].
    split; [done|]. simpl. unfold disconnectBlockForAccount. by rewrite Hchain. }
  { done. }
  { apply NoDup_fst_filter, NoDup_fst_map_to_list. }
  rewrite (Hlookup id). subst l. unfold listAccounts.
  rewrite list_to_map_filter_to_list, Hacc. cbn [snd].
  unfold disconnectBlockFilter, equalsNullable.
  destruct (Account.getHead account) as [h|]; simpl in *; [|done].
  destruct (String.eqb_spec (HeadValue.hash h) (BlockHeader.hash header)); [|done].
  congruence.
Qed.

(** *** addPendingTransaction and postTransaction *)

Lemma decryptNotes_lookup w transaction initialNoteIndex (l : list (string * Account.t)) id :
  NoDup l.*1 →
  decryptNotesForAccounts w transaction initialNoteIndex l !! id
  = match (list_to_map l : gmap string Account.t) !! id with
    | Some account =>
        let decryptedNotes :=
          (decryptNotesForAccount w transaction initialNoteIndex account).1 in
        if (length decryptedNotes =? 0)%nat then None else Some decryptedNotes
    | None => None
    end.
Proof.
  unfold decryptNotesForAccounts.
  set (step := λ (m : gmap string (list DecryptedNote.t)) (p : string * Account.t), _).
  assert (Hgen : ∀ (acc : gmap string (list DecryptedNote.t)),
            NoDup l.*1 →
            foldl step acc l !! id
            = match (list_to_map l : gmap string Account.t) !! id with
              | Some account =>
                  if (length (decryptNotesForAccount w transaction initialNoteIndex
                                account).1 =? 0)%nat
                  then acc !! id
                  else Some (decryptNotesForAccount w transaction initialNoteIndex
                               account).1
              | None => acc !! id
              end).
  { induction l as [|[k a] l IH]; intros acc Hnd; [done|].
    apply NoDup_cons in Hnd as [Hk Hnd]. simpl. rewrite IH by done.
    destruct (decide (id = k)) as [->|Hne].
    - rewrite lookup_insert_eq, (not_elem_of_list_to_map_1 l k Hk).
      subst step. cbn beta iota. cbn [fst snd].
      destruct (length _ =? 0)%nat; simpl; [done|apply lookup_insert_eq].
    - rewrite lookup_insert_ne by done.
      assert (Hacc : step acc (k, a) !! id = acc !! id).
      { subst step. cbn beta iota. cbn [fst snd].
        destruct (negb _); [by rewrite lookup_insert_ne|done]. }
      by rewrite Hacc. }
  intros Hnd. rewrite (Hgen ∅ Hnd).
  destruct (list_to_map l !! id); [|done]. cbn zeta.
  by destruct (length _ =? 0)%nat.
Qed.

(** [addPendingTransaction] rewrites an account only when it does not hold the
    transaction yet and some note of the transaction decrypts for it; it
    emits nothing. *)
Lemma addPendingTransaction_accounts w transaction :
  Wallet.onBroadcastTransaction (addPendingTransaction w transaction)
  = Wallet.onBroadcastTransaction w
  ∧ Wallet.onTransactionCreated (addPendingTransaction w transaction)
    = Wallet.onTransactionCreated w
  ∧ ∀ id account,
      Wallet.accounts w !! id = Some account →
      Wallet.accounts (addPendingTransaction w transaction) !! id
      = Some
          (let decryptedNotes := (decryptNotesForAccount w transaction None account).1 in
           if Account.hasTransaction (Transaction.hash transaction) account
              || (length decryptedNotes =? 0)%nat
           then account
           else Account.withDb
                  (addPendingTransactionToAccount transaction decryptedNotes
                     (BlockHeader.sequence (Blockchain.head (Wallet.chain w))))
                  account).
Proof.
  unfold addPendingTransaction.
  set (l := List.filter _ (listAccounts w)).
  assert (Hl : ∀ id, (list_to_map l : gmap string Account.t) !! id
                     = match Wallet.accounts w !! id with
                       | Some a =>
                           if negb (Account.hasTransaction
                                      (Transaction.hash transaction) a)
                           then Some a else None
                       | None => None
                       end).
  { intros id. subst l. unfold listAccounts. by rewrite list_to_map_filter_to_list. }
  destruct (length l =? 0)%nat eqn:Hlen.
  { repeat split. intros id account Hacc. f_equal.
    destruct l; [|done]. specialize (Hl id). rewrite Hacc in Hl. simpl in Hl.
    rewrite lookup_empty in Hl.
    by destruct (Account.hasTransaction (Transaction.hash transaction) account). }
  set (step := λ (w : Wallet.t) (p : string * list DecryptedNote.t), _).
  pose (inv := λ w1 : Wallet.t,
          Wallet.chain w1 = Wallet.chain w
          ∧ Wallet.onBroadcastTransaction w1 = Wallet.onBroadcastTransaction w
          ∧ Wallet.onTransactionCreated w1 = Wallet.onTransactionCreated w).
  destruct (foldl_registry Wallet.accounts inv step
              (λ (_ : string) (decryptedNotes : list DecryptedNote.t) (a : Account.t),
                 Account.withDb
                   (addPendingTransactionToAccount transaction decryptedNotes
                      (BlockHeader.sequence (Blockchain.head (Wallet.chain w)))) a)) with
    (l := map_to_list (decryptNotesForAccounts w transaction None l)) (st := w)
    as [(_ & Hb & Hc) Hlookup].
  { intros w1 [k v] (Hchain & Hb & Hc). subst step. cbn beta iota.
    unfold getAccount. cbn [fst snd].
    destruct (Wallet.accounts w1 !! k) as [account1|]; [|done].
    split; [done|]. simpl. by rewrite Hchain. }
  { done. }
  { apply NoDup_fst_map_to_list. }
  split; [done|]. split; [done|]. intros id account Hacc.
  rewrite (Hlookup id), list_to_map_to_list, decryptNotes_lookup
    by (subst l; apply NoDup_fst_filter, NoDup_fst_map_to_list).
  rewrite Hl, Hacc. cbn zeta.
  destruct (Account.hasTransaction (Transaction.hash transaction) account); [done|].
  simpl. by case_if.
Qed.


(** *** rebroadcastTransactions *)

Lemma rebroadcastTransaction_confirmed w head id transactionInfo :
  TransactionValue.blockHash transactionInfo ≠ None →
  rebroadcastTransaction w head id transactionInfo = w.
Proof.
  intros Hblock. unfold rebroadcastTransaction.
  by destruct (TransactionValue.blockHash transactionInfo).
Qed.

Lemma rebroadcastTransaction_recent w head id transactionInfo :
  BlockHeader.sequence head - TransactionValue.submittedSequence transactionInfo
    < Wallet.rebroadcastAfter w →
  rebroadcastTransaction w head id transactionInfo = w.
Proof.
  intros Hrecent. unfold rebroadcastTransaction.
  destruct (notNull _); [done|]. by rewrite (proj2 (Z.ltb_lt _ _) Hrecent).
Qed.

Lemma rebroadcastTransaction_due w head id transactionInfo :
  TransactionValue.blockHash transactionInfo = None →
  Wallet.rebroadcastAfter w
    ≤ BlockHeader.sequence head - TransactionValue.submittedSequence transactionInfo →
  rebroadcastTransaction w head id transactionInfo
  = let transaction := TransactionValue.transaction transactionInfo in
    let saved :=
      Wallet.withAccounts
        (alter (Account.saveTransaction (Transaction.hash transaction)
                  (TransactionValue.withSubmittedSequence (BlockHeader.sequence head)
                     transactionInfo)) id) w in
    if VerificationResult.valid
         (Blockchain.verifyTransactionAdd (Wallet.chain w) transaction)
    then broadcastTransaction saved transaction
    else saved.
Proof.
  intros Hblock Hdue. unfold rebroadcastTransaction. rewrite Hblock. simpl.
  rewrite (proj2 (Z.ltb_ge _ _) Hdue). by destruct (VerificationResult.valid _).
Qed.

Lemma foldl_invariant {A B} (inv : A → Prop) (f : A → B → A) (l : list B) :
  (∀ a b, inv a → inv (f a b)) → ∀ a, inv a → inv (foldl f a l).
Proof.
  intros Hstep. induction l as [|b l IH]; intros a Ha; [done|].
  simpl. by apply IH, Hstep.
Qed.

Lemma saveTransaction_lookup txHash txHash' v account :
  Account.getTransaction txHash' (Account.saveTransaction txHash v account)
  = if decide (txHash = txHash') then Some v
    else Account.getTransaction txHash' account.
Proof.
  unfold Account.getTransaction, Account.saveTransaction. simpl.
  case_decide as Heq.
  - subst. apply lookup_insert_eq.
  - by apply lookup_insert_ne.
Qed.

Lemma submittedNotLower_refl w : submittedNotLower w w.
Proof. intros id account txHash info Hacc Hinfo. by exists account, info. Qed.

Lemma submittedNotLower_trans w1 w2 w3 :
  submittedNotLower w1 w2 → submittedNotLower w2 w3 → submittedNotLower w1 w3.
Proof.
  intros H12 H23 id account txHash info Hacc Hinfo.
  destruct (H12 id account txHash info Hacc Hinfo) as (a2 & i2 & Ha2 & Hi2 & Ht2 & Hs2).
  destruct (H23 id a2 txHash i2 Ha2 Hi2) as (a3 & i3 & Ha3 & Hi3 & Ht3 & Hs3).
  exists a3, i3. repeat split; [done|done|congruence|lia].
Qed.

(** One step of the pass on a record loaded from the store. *)
Lemma rebroadcastTransaction_step w head id txHash transactionInfo :
  0 ≤ Wallet.rebroadcastAfter w → wellKeyed w →
  pendingTransactionAt w id txHash = Some transactionInfo →
  Wallet.rebroadcastAfter (rebroadcastTransaction w head id transactionInfo)
  = Wallet.rebroadcastAfter w
  ∧ Wallet.eventLoopAborted (rebroadcastTransaction w head id transactionInfo)
    = Wallet.eventLoopAborted w
  ∧ wellKeyed (rebroadcastTransaction w head id transactionInfo)
  ∧ submittedNotLower w (rebroadcastTransaction w head id transactionInfo).
Proof.
  intros Hafter Hkeys Hload.
  unfold pendingTransactionAt, getAccount in Hload.
  destruct (Wallet.accounts w !! id) as [account|] eqn:Hacc; [|done].
  simpl in Hload. pose proof (Hkeys id account txHash transactionInfo Hacc Hload) as Hkey.
  destruct (TransactionValue.blockHash transactionInfo) as [blockHash|] eqn:Hblock.
  { rewrite rebroadcastTransaction_confirmed by (rewrite Hblock; done).
    repeat split; [done|apply submittedNotLower_refl]. }
  destruct (Z.lt_ge_cases
              (BlockHeader.sequence head
               - TransactionValue.submittedSequence transactionInfo)
              (Wallet.rebroadcastAfter w)) as [Hrecent|Hdue].
  { rewrite rebroadcastTransaction_recent by done.
    repeat split; [done|apply submittedNotLower_refl]. }
  rewrite rebroadcastTransaction_due by done. cbv zeta. rewrite Hkey.
  set (saved := TransactionValue.withSubmittedSequence _ transactionInfo).
  assert (Hsaved : ∀ w1,
            Wallet.accounts w1
            = alter (Account.saveTransaction txHash saved) id (Wallet.accounts w) →
            wellKeyed w1 ∧ submittedNotLower w w1).
  { intros w1 Hw1. split.
    - intros id' account' k info'. rewrite Hw1.
      destruct (decide (id = id')) as [<-|Hne].
      + rewrite lookup_alter_eq, Hacc. simpl. intros [= <-].
        rewrite saveTransaction_lookup. case_decide as Hk.
        * intros [= <-]. by subst.
        * intros Hinfo. by eapply Hkeys.
      + rewrite lookup_alter_ne by done. apply Hkeys.
    - intros id' account' k info' Hacc' Hinfo'. rewrite Hw1.
      destruct (decide (id = id')) as [<-|Hne].
      + rewrite lookup_alter_eq, Hacc. simpl. rewrite Hacc in Hacc'.
        injection Hacc' as <-.
        exists (Account.saveTransaction txHash saved account),
               (if decide (txHash = k) then saved else info').
        split; [done|]. rewrite saveTransaction_lookup. case_decide as Hk.
        * subst k. rewrite Hload in Hinfo'. injection Hinfo' as <-.
          split; [done|]. split; [done|]. subst saved. simpl. lia.
        * split; [done|]. split; [done|]. lia.
      + rewrite lookup_alter_ne by done. by exists account', info'. }
  destruct (VerificationResult.valid _); simpl.
  - split; [done|]. split; [done|]. by apply Hsaved.
  - split; [done|]. split; [done|]. by apply Hsaved.
Qed.

(** Over a whole pass, with a non-negative [rebroadcastAfter] and records
    filed under their hashes, no stored [submittedSequence] decreases. *)
Lemma rebroadcastTransactions_monotone w :
  0 ≤ Wallet.rebroadcastAfter w → wellKeyed w →
  submittedNotLower w (rebroadcastTransactions w).
Proof.
  intros Hafter Hkeys.
  pose (inv := λ w1 : Wallet.t,
          Wallet.rebroadcastAfter w1 = Wallet.rebroadcastAfter w
          ∧ wellKeyed w1 ∧ submittedNotLower w w1).
  assert (Hstart : inv w) by (repeat split; [done|apply submittedNotLower_refl]).
  assert (Haccount : ∀ head id account w1, inv w1 →
            inv (rebroadcastAccount w1 head id account)).
  { intros head id account w1 Hw1. unfold rebroadcastAccount.
    apply foldl_invariant; [|done].
    intros w2 txHash (Hafter2 & Hkeys2 & Hlow2).
    destruct (Wallet.eventLoopAborted w2); [done|].
    destruct (pendingTransactionAt w2 id txHash) as [info|] eqn:Hload; [|done].
    destruct (rebroadcastTransaction_step w2 head id txHash info)
      as (Hafter3 & _ & Hkeys3 & Hlow3); [lia|done|done|].
    split; [congruence|]. split; [done|].
    by eapply submittedNotLower_trans. }
  enough (inv (rebroadcastTransactions w)) as (_ & _ & Hlow) by done.
  unfold rebroadcastTransactions.
  destruct (negb (Wallet.isStarted w)); [done|].
  destruct (negb (Blockchain.synced (Wallet.chain w))); [done|].
  destruct (ChainProcessor.hash (Wallet.chainProcessor w)) as [hash|]; [|done].
  destruct (Blockchain.getHeader (Wallet.chain w) hash) as [head|]; [|done].
  apply foldl_invariant; [|done].
  intros w1 [id account] Hw1. cbn [fst].
  destruct (Wallet.eventLoopAborted w1); [done|].
  destruct (getAccount w1 id); [|done]. by apply Haccount.
Qed.

(** C6, per account record: a record with a block hash, or one submitted
    fewer than [rebroadcastAfter] blocks before the head, is skipped with no
    effect at all.  Any other record is saved with
    [submittedSequence = head.sequence] whether or not [verifyTransactionAdd]
    accepts it, and the broadcast event fires exactly when it does.  So, for
    a non-negative [rebroadcastAfter], the record's [submittedSequence] does
    not decrease, the record just saved is skipped again at every head fewer
    than [rebroadcastAfter] blocks later, and over a whole pass no stored
    [submittedSequence] decreases. *)
Theorem rebroadcastTransaction_record w head id transactionInfo :
  let headSequence := BlockHeader.sequence head in
  let transaction := TransactionValue.transaction transactionInfo in
  let saved := TransactionValue.withSubmittedSequence headSequence transactionInfo in
  let w' := rebroadcastTransaction w head id transactionInfo in
  (TransactionValue.blockHash transactionInfo ≠ None → w' = w)
  ∧ (headSequence - TransactionValue.submittedSequence transactionInfo
       < Wallet.rebroadcastAfter w → w' = w)
  ∧ (TransactionValue.blockHash transactionInfo = None →
     Wallet.rebroadcastAfter w
       ≤ headSequence - TransactionValue.submittedSequence transactionInfo →
       Wallet.accounts w'
       = alter (Account.saveTransaction (Transaction.hash transaction) saved) id
               (Wallet.accounts w)
       ∧ Wallet.onBroadcastTransaction w'
         = Wallet.onBroadcastTransaction w
           ++ (if VerificationResult.valid
                    (Blockchain.verifyTransactionAdd (Wallet.chain w) transaction)
               then [transaction] else [])
       ∧ (0 ≤ Wallet.rebroadcastAfter w →
            TransactionValue.submittedSequence transactionInfo
              ≤ TransactionValue.submittedSequence saved)
       ∧ (∀ head2,
            BlockHeader.sequence head2 - headSequence < Wallet.rebroadcastAfter w →
            rebroadcastTransaction w' head2 id saved = w'))
  ∧ (0 ≤ Wallet.rebroadcastAfter w → wellKeyed w →
       submittedNotLower w (rebroadcastTransactions w)).
Proof.
  cbv zeta. split; [apply rebroadcastTransaction_confirmed|].
  split; [apply rebroadcastTransaction_recent|].
  split; [|apply rebroadcastTransactions_monotone].
  intros Hblock Hdue. rewrite rebroadcastTransaction_due by done. cbv zeta.
  split; [|split; [|split]].
  - by destruct (VerificationResult.valid _).
  - destruct (VerificationResult.valid _); simpl; [done|by rewrite app_nil_r].
  - simpl. lia.
  - intros head2 Hwindow. apply rebroadcastTransaction_recent.
    by destruct (VerificationResult.valid _).
Qed.

(** *** The spend selector *)

Lemma selection_cons_skip w unspentNote examined :
  spendOf w unspentNote = None →
  selection w (unspentNote :: examined) = selection w examined.
Proof. intros Hskip. unfold selection. simpl. by rewrite Hskip. Qed.

Lemma selection_cons_spend w unspentNote examined spend :
  spendOf w unspentNote = Some spend →
  selection w (unspentNote :: examined) = spend :: selection w examined.
Proof. intros Hspend. unfold selection. simpl. by rewrite Hspend. Qed.

(** The loop of [createSpendsForAsset], from any state of its accumulators:
    it examines a prefix of the candidates, keeps what [spendOf] takes from
    each, and stops right after the first consumption that brings the amount
    to [amountNeeded]. *)
Lemma createSpendsLoop_spec w amountNeeded unspentNotes :
  ∀ sender amount notes,
    Forall (λ u, 0 < Note.value (UnspentNote.note u) → mined u) unspentNotes →
    ∃ examined rest,
      unspentNotes = examined ++ rest
      ∧ createSpendsLoop w amountNeeded unspentNotes sender amount notes
        = (repaired w sender examined,
           Ok (amount + amountOf (selection w examined),
               notes ++ selection w examined))
      ∧ (∀ k, (0 < k < length (selection w examined))%nat →
              amount + amountOf (take k (selection w examined)) < amountNeeded)
      ∧ ((∃ before last,
            examined = before ++ [last] ∧ is_Some (spendOf w last)
            ∧ amountNeeded ≤ amount + amountOf (selection w examined))
         ∨ (rest = []
            ∧ (selection w examined = []
               ∨ amount + amountOf (selection w examined) < amountNeeded))).
Proof.
  induction unspentNotes as [|u l IH]; intros sender amount notes Hmined.
  { exists [], []. simpl. rewrite Z.add_0_r, app_nil_r.
    repeat split; [intros k; simpl; lia|]. right. split; [done|by left]. }
  apply Forall_cons in Hmined as [Hu Hl]. cbn [createSpendsLoop].
  (* a candidate the loop passes over *)
  assert (Hskip : ∀ sender',
            spendOf w u = None → repair w sender u = sender' →
            ∃ examined rest,
              u :: l = examined ++ rest
              ∧ createSpendsLoop w amountNeeded l sender' amount notes
                = (repaired w sender examined,
                   Ok (amount + amountOf (selection w examined),
                       notes ++ selection w examined))
              ∧ (∀ k, (0 < k < length (selection w examined))%nat →
                      amount + amountOf (take k (selection w examined)) < amountNeeded)
              ∧ ((∃ before last,
                    examined = before ++ [last] ∧ is_Some (spendOf w last)
                    ∧ amountNeeded ≤ amount + amountOf (selection w examined))
                 ∨ (rest = []
                    ∧ (selection w examined = []
                       ∨ amount + amountOf (selection w examined) < amountNeeded)))).
  { intros sender' Hnone Hrepair.
    destruct (IH sender' amount notes Hl)
      as (examined & rest & -> & Hrun & Hbelow & Hend).
    exists (u :: examined), rest.
    rewrite (selection_cons_skip _ _ _ Hnone). unfold repaired. simpl.
    rewrite Hrepair. repeat split; try done.
    destruct Hend as [(before & last & -> & Hlast & Hreach)|Hend]; [left|by right].
    by exists (u :: before), last. }
  unfold spendOf, repair, nullifierOnChain in Hskip.
  destruct (Z.leb_spec (Note.value (UnspentNote.note u)) 0) as [Hle|Hpos].
  { apply Hskip; [done|]. by rewrite (proj2 (Z.ltb_ge _ _) Hle). }
  rewrite (proj2 (Z.ltb_lt _ _) Hpos) in Hskip.
  destruct (Hu Hpos) as [Hindex Hnullifier].
  unfold checkNoteOnChainAndRepair.
  destruct (UnspentNote.index u) as [index|] eqn:Eindex; [|done].
  destruct (UnspentNote.nullifier u) as [nullifier|] eqn:Enullifier; [|done].
  destruct (Blockchain.nullifiersContains (Wallet.chain w) nullifier) eqn:Hchain;
    simpl in *.
  { unfold markNoteSpent in Hskip.
    destruct (Account.getDecryptedNote (UnspentNote.hash u) sender); by apply Hskip. }
  destruct (Blockchain.notesWitness (Wallet.chain w) index) as [witness|] eqn:Hwitness;
    simpl in *; [|by apply Hskip].
  clear Hskip.
  assert (Hspend : spendOf w u = Some (UnspentNote.note u, witness)).
  { unfold spendOf, nullifierOnChain.
    rewrite (proj2 (Z.leb_gt _ _) Hpos), Enullifier, Hchain, Eindex, Hwitness. done. }
  assert (Hkeep : repair w sender u = sender).
  { unfold repair, nullifierOnChain. by rewrite Enullifier, Hchain, andb_false_r. }
  destruct (Z.geb_spec (amount + Note.value (UnspentNote.note u)) amountNeeded)
    as [Hreached|Hshort].
  - exists [u], l. rewrite (selection_cons_spend _ _ _ _ Hspend).
    unfold repaired. cbn [foldl]. rewrite Hkeep. simpl. rewrite Z.add_0_r.
    repeat split; [intros k; simpl; lia|].
    left. exists [], u. rewrite Hspend. repeat split; [by eexists|lia].
  - destruct (IH sender (amount + Note.value (UnspentNote.note u))
                (notes ++ [(UnspentNote.note u, witness)]) Hl)
      as (examined & rest & -> & Hrun & Hbelow & Hend).
    exists (u :: examined), rest. rewrite (selection_cons_spend _ _ _ _ Hspend).
    unfold repaired. cbn [foldl]. rewrite Hkeep. fold (repaired w sender examined).
    rewrite <- app_assoc in Hrun. cbn [app] in Hrun.
    cbn [amountOf foldr fst]. fold (amountOf (selection w examined)).
    rewrite Z.add_assoc.
    split; [done|]. split; [done|]. split.
    + intros [|k] Hk; [lia|]. cbn [take amountOf foldr fst].
      fold (amountOf (take k (selection w examined))). rewrite Z.add_assoc.
      destruct k as [|k]; [simpl; lia|]. apply Hbelow. simpl in Hk. lia.
    + destruct Hend as [(before & last & -> & Hlast & Hreach)|[-> Hend]]; [left|right].
      * by exists (u :: before), last.
      * split; [done|]. right. destruct Hend as [Hnil|Hend]; [|done].
        rewrite Hnil. simpl. lia.
Qed.

Lemma markNoteSpent_lookup noteHash noteHash' sender :
  Account.getDecryptedNote noteHash' (markNoteSpent noteHash sender)
  = if decide (noteHash = noteHash')
    then DecryptedNoteValue.markSpent <$> Account.getDecryptedNote noteHash sender
    else Account.getDecryptedNote noteHash' sender.
Proof.
  unfold markNoteSpent.
  destruct (Account.getDecryptedNote noteHash sender) as [v|] eqn:Hv.
  - unfold Account.getDecryptedNote, Account.saveDecryptedNote. simpl.
    case_decide as Heq.
    + subst. apply lookup_insert_eq.
    + by apply lookup_insert_ne.
  - case_decide; [by subst|done].
Qed.

Lemma repair_keeps_spent w sender unspentNote noteHash :
  (∃ v, Account.getDecryptedNote noteHash sender = Some v
        ∧ DecryptedNoteValue.spent v = true) →
  ∃ v, Account.getDecryptedNote noteHash (repair w sender unspentNote) = Some v
       ∧ DecryptedNoteValue.spent v = true.
Proof.
  intros (v & Hv & Hspent). unfold repair. case_if; [|by exists v].
  rewrite markNoteSpent_lookup. case_decide as Heq; [|by exists v].
  subst. rewrite Hv. by eexists.
Qed.

Lemma repair_keeps_stored w sender unspentNote noteHash :
  is_Some (Account.getDecryptedNote noteHash sender) →
  is_Some (Account.getDecryptedNote noteHash (repair w sender unspentNote)).
Proof.
  intros [v Hv]. unfold repair. case_if; [|by exists v].
  rewrite markNoteSpent_lookup. case_decide as Heq; [|by exists v].
  subst. rewrite Hv. by eexists.
Qed.

(** Every examined candidate of positive value whose nullifier is on the
    chain ends with [spent = true] in the sender's store, if it is stored
    there. *)
Lemma repaired_marks_spent w examined :
  ∀ sender unspentNote,
    unspentNote ∈ examined →
    0 < Note.value (UnspentNote.note unspentNote) →
    nullifierOnChain w unspentNote = true →
    is_Some (Account.getDecryptedNote (UnspentNote.hash unspentNote) sender) →
    ∃ v, Account.getDecryptedNote (UnspentNote.hash unspentNote)
           (repaired w sender examined) = Some v
         ∧ DecryptedNoteValue.spent v = true.
Proof.
  assert (Hkept : ∀ l sender noteHash,
            (∃ v, Account.getDecryptedNote noteHash sender = Some v
                  ∧ DecryptedNoteValue.spent v = true) →
            ∃ v, Account.getDecryptedNote noteHash (repaired w sender l) = Some v
                 ∧ DecryptedNoteValue.spent v = true).
  { induction l as [|x l IH]; intros sender noteHash Hs; [done|].
    unfold repaired. simpl. apply IH. by apply repair_keeps_spent. }
  induction examined as [|x l IH]; intros sender u Hin Hpos Hchain Hstored.
  - by apply elem_of_nil in Hin.
  - unfold repaired. cbn [foldl]. apply elem_of_cons in Hin as [->|Hin].
    + apply Hkept. unfold repair at 1.
      rewrite (proj2 (Z.ltb_lt _ _) Hpos), Hchain. simpl.
      rewrite markNoteSpent_lookup. case_decide; [|done].
      destruct Hstored as [v ->]. by eexists.
    + apply IH; try done. by apply repair_keeps_stored.
Qed.

(** C1: over candidates that are mined whenever their value is positive, the
    selector examines a prefix of the account's unspent notes; it skips the
    notes of value [<= 0], the notes whose nullifier is on the chain (marking
    them spent in the store) and the notes without a witness, and keeps the
    others with their witnesses ([selection]); the amount is the sum of the
    kept values; it stops right after the first kept note that brings the
    amount to [amountNeeded] and otherwise runs to the end; and [createSpends]
    throws [NotEnoughFundsError(assetId, amount, amountNeeded)] when the
    amount is below [amountNeeded]. *)
Theorem createSpends_selection w sender assetId amountNeeded :
  Forall (λ u, 0 < Note.value (UnspentNote.note u) → mined u)
         (getUnspentNotes w sender assetId None) →
  ∃ examined rest,
    getUnspentNotes w sender assetId None = examined ++ rest
    ∧ createSpendsForAsset w sender assetId amountNeeded
      = (repaired w sender examined,
         Ok (amountOf (selection w examined), selection w examined))
    ∧ (∀ unspentNote,
         unspentNote ∈ examined →
         0 < Note.value (UnspentNote.note unspentNote) →
         nullifierOnChain w unspentNote = true →
         is_Some (Account.getDecryptedNote (UnspentNote.hash unspentNote) sender) →
         ∃ v, Account.getDecryptedNote (UnspentNote.hash unspentNote)
                (repaired w sender examined) = Some v
              ∧ DecryptedNoteValue.spent v = true)
    ∧ (∀ k, (0 < k < length (selection w examined))%nat →
            amountOf (take k (selection w examined)) < amountNeeded)
    ∧ ((∃ before last,
          examined = before ++ [last] ∧ is_Some (spendOf w last)
          ∧ amountNeeded ≤ amountOf (selection w examined))
       ∨ (rest = []
          ∧ (selection w examined = []
             ∨ amountOf (selection w examined) < amountNeeded)))
    ∧ (∀ entries notesToSpend,
         createSpendsEntries w ((assetId, amountNeeded) :: entries) sender notesToSpend
         = if amountOf (selection w examined) <? amountNeeded
           then (repaired w sender examined,
                 Throw (NotEnoughFundsError assetId (amountOf (selection w examined))
                                            amountNeeded))
           else createSpendsEntries w entries (repaired w sender examined)
                  (notesToSpend ++ selection w examined)).
Proof.
  intros Hmined.
  destruct (createSpendsLoop_spec w amountNeeded _ sender 0 [] Hmined)
    as (examined & rest & Hsplit & Hrun & Hbelow & Hend).
  rewrite Z.add_0_l in Hrun. cbn [app] in Hrun.
  exists examined, rest. split; [done|]. split; [done|].
  split; [intros u; apply repaired_marks_spent|].
  split; [intros k Hk; specialize (Hbelow k Hk); lia|].
  split; [by rewrite Z.add_0_l in Hend|].
  intros entries notesToSpend. cbn [createSpendsEntries].
  unfold createSpendsForAsset in Hrun |- *. by rewrite Hrun.
Qed.

(** C2, as the code has it: a candidate whose index or nullifier is [null] is
    passed over only when its value is not positive (that test comes first);
    with a positive value the assertions [Assert.isNotNull] fail and the
    selection ends with an assertion error, whatever was accumulated. *)
Theorem createSpendsLoop_unmined w amountNeeded unspentNote rest sender amount notes :
  UnspentNote.index unspentNote = None ∨ UnspentNote.nullifier unspentNote = None →
  createSpendsLoop w amountNeeded (unspentNote :: rest) sender amount notes
  = if Note.value (UnspentNote.note unspentNote) <=? 0
    then createSpendsLoop w amountNeeded rest sender amount notes
    else (sender, Throw AssertionError).
Proof.
  intros Hnull. cbn [createSpendsLoop]. case_if; [done|].
  destruct Hnull as [-> | ->]; [done|]. by destruct (UnspentNote.index unspentNote).
Qed.

End WalletProperties.

(** ** More properties *)

Section MoreProperties.
Context `{AccountMethods}.

(** *** The account registry *)

Lemma getAccountByName_Some w name id account :
  getAccountByName w name = Some (id, account) →
  Wallet.accounts w !! id = Some account ∧ Account.name account = name.
Proof.
  unfold getAccountByName, listAccounts. intros Hfind.
  apply find_some in Hfind as [Hin Hname]. simpl in Hname.
  apply String.eqb_eq in Hname. by apply list_elem_of_In, elem_of_map_to_list in Hin.
Qed.

Lemma getAccountByName_registered w id account :
  Wallet.accounts w !! id = Some account →
  ∃ id' account', getAccountByName w (Account.name account) = Some (id', account').
Proof.
  intros Hin. destruct (getAccountByName w (Account.name account)) as [[id' a']|] eqn:Hfind.
  - by exists id', a'.
  - exfalso. by eapply getAccountByName_None.
Qed.

Lemma getAccountByName_unique w id account :
  uniqueNames w → Wallet.accounts w !! id = Some account →
  getAccountByName w (Account.name account) = Some (id, account).
Proof.
  intros Hunique Hin.
  destruct (getAccountByName_registered w id account Hin) as (id' & a' & Hfind).
  rewrite Hfind. destruct (getAccountByName_Some _ _ _ _ Hfind) as [Hin' Hname].
  assert (id' = id) as -> by (by eapply Hunique).
  rewrite Hin in Hin'. by injection Hin' as <-.
Qed.

Lemma getAccountByName_accounts w w' name :
  Wallet.accounts w = Wallet.accounts w' →
  getAccountByName w name = getAccountByName w' name.
Proof. unfold getAccountByName, listAccounts. by intros ->. Qed.

(** The wallet [createAccount] leaves when the name is free. *)
Lemma createAccount_run w name setDefault id key :
  getAccountByName w name = None →
  createAccount w name setDefault id key
  = ((if setDefault
      then Wallet.withDefaultAccount (if String.eqb name "" then None else Some id)
      else λ w1, w1)
       (Wallet.withAccounts (insert id (createdAccount w name key)) w),
     Ok (id, createdAccount w name key)).
Proof.
  intros Hfree. unfold createAccount. rewrite Hfree. simpl.
  fold (createdAccount w name key).
  set (account := createdAccount w name key).
  set (w1 := Wallet.withAccounts (insert id account) w).
  destruct setDefault; [|done].
  assert (Hname : Account.name account = name).
  { subst account. unfold createdAccount, skipRescan.
    destruct (ChainProcessor.hash (Wallet.chainProcessor w)),
             (ChainProcessor.sequence (Wallet.chainProcessor w)); done. }
  rewrite Hname. unfold setDefaultAccount, truthyString.
  destruct (String.eqb_spec name "") as [->|Hne]; simpl; [done|].
  assert (Hfind : getAccountByName w1 name = Some (id, account)).
  { destruct (getAccountByName w1 name) as [[id' a']|] eqn:Hfind.
    - destruct (getAccountByName_Some _ _ _ _ Hfind) as [Hin' Hname'].
      simpl in Hin'. destruct (decide (id = id')) as [<-|Hid].
      + rewrite lookup_insert_eq in Hin'. by injection Hin' as <-.
      + rewrite lookup_insert_ne in Hin' by done.
        exfalso. by eapply (proj1 (getAccountByName_None w name)).
    - exfalso. eapply (proj1 (getAccountByName_None w1 name) Hfind id account); [|done].
      apply lookup_insert_eq. }
  rewrite Hfind. simpl. case_bool_decide as Hdefault; [|done].
  simpl in Hdefault. subst w1. unfold Wallet.withDefaultAccount, Wallet.withAccounts.
  simpl. by rewrite Hdefault.
Qed.

(** X1: After [createAccount] the account is found by its id and by its name,
    the other accounts are the ones there were, and the name is taken: a
    second [createAccount] with it throws and changes nothing. *)
Theorem createAccount_registers w name setDefault id key :
  getAccountByName w name = None →
  ∃ w' account,
    createAccount w name setDefault id key = (w', Ok (id, account))
    ∧ Account.name account = name
    ∧ getAccount w' id = Some account
    ∧ getAccountByName w' name = Some (id, account)
    ∧ accountExists w' name = true
    ∧ (∀ id', id' ≠ id → getAccount w' id' = getAccount w id')
    ∧ (∀ setDefault' id' key',
         ∃ message,
           createAccount w' name setDefault' id' key' = (w', Throw (Error message))).
Proof.
  intros Hfree. rewrite createAccount_run by done.
  set (account := createdAccount w name key).
  set (w' := (if setDefault then _ else _) _).
  assert (Haccounts : Wallet.accounts w' = <[id := account]> (Wallet.accounts w))
    by (subst w'; by destruct setDefault).
  assert (Hname : Account.name account = name).
  { subst account. unfold createdAccount, skipRescan.
    destruct (ChainProcessor.hash (Wallet.chainProcessor w)),
             (ChainProcessor.sequence (Wallet.chainProcessor w)); done. }
  assert (Hfind : getAccountByName w' name = Some (id, account)).
  { destruct (getAccountByName w' name) as [[id' a']|] eqn:Hfind.
    - destruct (getAccountByName_Some _ _ _ _ Hfind) as [Hin' Hname'].
      rewrite Haccounts in Hin'. destruct (decide (id = id')) as [<-|Hid].
      + rewrite lookup_insert_eq in Hin'. by injection Hin' as <-.
      + rewrite lookup_insert_ne in Hin' by done.
        exfalso. by eapply (proj1 (getAccountByName_None w name)).
    - exfalso. eapply (proj1 (getAccountByName_None w' name) Hfind id account); [|done].
      rewrite Haccounts. apply lookup_insert_eq. }
  exists w', account. split; [done|]. split; [done|]. split.
  { unfold getAccount. rewrite Haccounts. apply lookup_insert_eq. }
  split; [done|]. split; [unfold accountExists; by rewrite Hfind|]. split.
  { intros id' Hne. unfold getAccount. rewrite Haccounts. by apply lookup_insert_ne. }
  intros setDefault' id' key'. unfold createAccount. rewrite Hfind. by eexists.
Qed.

(** X2: [createAccount] keeps account names unique, and so does [importAccount]
    when the imported account has a name. *)
Theorem account_names_stay_unique
    (generateKeyFromPrivateKey : string → Key.t)
    (validateAccount : string → Account.t → bool) w :
  uniqueNames w →
  (∀ name setDefault id key w' created,
     createAccount w name setDefault id key = (w', Ok created) → uniqueNames w')
  ∧ (∀ toImport id w' imported,
       AccountImport.name toImport ≠ ""%string →
       importAccount generateKeyFromPrivateKey validateAccount w toImport id
       = (w', Ok imported) →
       uniqueNames w').
Proof.
  intros Hunique.
  assert (Hinsert : ∀ w' id account,
            Wallet.accounts w' = <[id := account]> (Wallet.accounts w) →
            getAccountByName w (Account.name account) = None →
            uniqueNames w').
  { intros w' id account Haccounts Hfree id1 id2 a1 a2. rewrite Haccounts.
    pose proof (proj1 (getAccountByName_None w (Account.name account)) Hfree) as Hnone.
    destruct (decide (id = id1)) as [<-|H1], (decide (id = id2)) as [<-|H2]; [done|..].
    - rewrite lookup_insert_eq, lookup_insert_ne by done.
      intros [= <-] Hin2 Hname. by destruct (Hnone id2 a2 Hin2).
    - rewrite lookup_insert_eq, lookup_insert_ne by done.
      intros Hin1 [= <-] Hname. by destruct (Hnone id1 a1 Hin1).
    - rewrite !lookup_insert_ne by done. apply Hunique. }
  split.
  - intros name setDefault id key w' created Hrun.
    destruct (getAccountByName w name) as [found|] eqn:Hfree.
    { unfold createAccount in Hrun. by rewrite Hfree in Hrun. }
    rewrite createAccount_run in Hrun by done. injection Hrun as <- _.
    apply (Hinsert _ id (createdAccount w name key)); [by destruct setDefault|].
    unfold createdAccount, skipRescan.
    destruct (ChainProcessor.hash (Wallet.chainProcessor w)),
             (ChainProcessor.sequence (Wallet.chainProcessor w)); done.
  - intros toImport id w' imported Hname Hrun. unfold importAccount in Hrun.
    assert (Htruthy : truthyString (Some (AccountImport.name toImport)) = true).
    { simpl. by rewrite (proj2 (String.eqb_neq _ _) Hname). }
    rewrite Htruthy in Hrun. simpl in Hrun.
    destruct (getAccountByName w (AccountImport.name toImport)) eqn:Hfree; [done|].
    simpl in Hrun. destruct (find _ (listAccounts w)); [done|]. simpl in Hrun.
    destruct (validateAccount id _); [|done]. simpl in Hrun. injection Hrun as <- _.
    by eapply Hinsert.
Qed.

(** X3: Importing a spending key twice: once an import has succeeded, every
    further import of that spending key throws and leaves the wallet as it
    is, whatever name and id it comes with. *)
Theorem importAccount_twice
    (generateKeyFromPrivateKey : string → Key.t)
    (validateAccount : string → Account.t → bool) w toImport id w' imported :
  importAccount generateKeyFromPrivateKey validateAccount w toImport id
  = (w', Ok imported) →
  ∀ name' id',
    ∃ message,
      importAccount generateKeyFromPrivateKey validateAccount w'
        (AccountImport.mk name' (AccountImport.spendingKey toImport)) id'
      = (w', Throw (Error message)).
Proof.
  intros Hrun name' id'. unfold importAccount in Hrun.
  destruct (_ && _); [done|].
  destruct (notNull (find _ (listAccounts w))); [done|].
  destruct (validateAccount id _); [|done]. simpl in Hrun. injection Hrun as <- _.
  unfold importAccount.
  destruct (_ && _); [by eexists|].
  match goal with |- context [find ?f (listAccounts ?w1)] =>
    destruct (find f (listAccounts w1)) as [found|] eqn:Hfind end; [by eexists|].
  exfalso.
  pose proof (find_none _ _ Hfind
                (id, Account.updateHead None
                       (Account.mk (AccountImport.name toImport)
                          (AccountImport.spendingKey toImport)
                          (Key.incoming_view_key
                             (generateKeyFromPrivateKey (AccountImport.spendingKey toImport)))
                          (Key.outgoing_view_key
                             (generateKeyFromPrivateKey (AccountImport.spendingKey toImport)))
                          (Key.public_address
                             (generateKeyFromPrivateKey (AccountImport.spendingKey toImport)))
                          emptyAccountDb))) as Hnone.
  simpl in Hnone. rewrite String.eqb_refl in Hnone. discriminate Hnone.
  apply list_elem_of_In, elem_of_map_to_list. simpl. apply lookup_insert_eq.
Qed.

Lemma createdAccount_name w name key : Account.name (createdAccount w name key) = name.
Proof.
  unfold createdAccount, skipRescan.
  destruct (ChainProcessor.hash (Wallet.chainProcessor w)),
           (ChainProcessor.sequence (Wallet.chainProcessor w)); done.
Qed.

Lemma getAccountByName_inserted w w' name id account :
  getAccountByName w name = None →
  Wallet.accounts w' = <[id := account]> (Wallet.accounts w) →
  Account.name account = name →
  getAccountByName w' name = Some (id, account).
Proof.
  intros Hfree Haccounts Hname.
  destruct (getAccountByName w' name) as [[id' a']|] eqn:Hfind.
  - destruct (getAccountByName_Some _ _ _ _ Hfind) as [Hin' Hname'].
    rewrite Haccounts in Hin'. destruct (decide (id = id')) as [<-|Hid].
    + rewrite lookup_insert_eq in Hin'. by injection Hin' as <-.
    + rewrite lookup_insert_ne in Hin' by done.
      exfalso. by eapply (proj1 (getAccountByName_None w name)).
  - exfalso. eapply (proj1 (getAccountByName_None w' name) Hfind id account); [|done].
    rewrite Haccounts. apply lookup_insert_eq.
Qed.

(** X4: [createAccount] then [removeAccount]: when the id is new to the registry,
    removing the account that was just created gives back the wallet there
    was, but for the removal event and the default account, which is cleared
    if the account was created as the default one. *)
Theorem removeAccount_createAccount w name setDefault id key :
  getAccountByName w name = None →
  Wallet.accounts w !! id = None →
  removeAccount (createAccount w name setDefault id key).1 name
  = emitAccountRemoved id
      (Wallet.withDefaultAccount
         (if setDefault then None
          else if bool_decide (Some id = Wallet.defaultAccount w) then None
               else Wallet.defaultAccount w)
         w)
  ∧ Wallet.accounts (removeAccount (createAccount w name setDefault id key).1 name)
    = Wallet.accounts w.
Proof.
  intros Hfree Hfresh. rewrite createAccount_run by done. cbn [fst].
  set (account := createdAccount w name key).
  set (w' := (if setDefault then _ else _) _).
  assert (Haccounts : Wallet.accounts w' = <[id := account]> (Wallet.accounts w))
    by (subst w'; by destruct setDefault).
  assert (Hremove :
    removeAccount w' name
    = emitAccountRemoved id
        (Wallet.withDefaultAccount
           (if setDefault then None
            else if bool_decide (Some id = Wallet.defaultAccount w) then None
                 else Wallet.defaultAccount w)
           w)).
  { unfold removeAccount.
    rewrite (getAccountByName_inserted w w' name id account Hfree Haccounts
               (createdAccount_name w name key)).
    subst w'. unfold emitAccountRemoved, Wallet.withDefaultAccount, Wallet.withAccounts.
    destruct setDefault; simpl.
    - destruct (String.eqb name ""); simpl; try case_bool_decide; simpl;
        by rewrite delete_insert_id.
    - case_bool_decide; simpl; by rewrite delete_insert_id. }
  rewrite Hremove. split; [done|]. by destruct setDefault.
Qed.

(** X5: [removeAccount] of a name that is not registered does nothing, and no
    event is emitted.  Of a registered name, with unique names: the account
    is gone from the registry under its id and under its name, the others
    stay, the removal is emitted once, and the default account is cleared
    exactly when it was the removed one. *)
Theorem removeAccount_effect w name :
  (getAccountByName w name = None → removeAccount w name = w)
  ∧ (uniqueNames w →
     ∀ id account,
       getAccountByName w name = Some (id, account) →
       getAccount (removeAccount w name) id = None
       ∧ getAccountByName (removeAccount w name) name = None
       ∧ (∀ id', id' ≠ id → getAccount (removeAccount w name) id' = getAccount w id')
       ∧ Wallet.onAccountRemoved (removeAccount w name)
         = Wallet.onAccountRemoved w ++ [id]
       ∧ Wallet.defaultAccount (removeAccount w name)
         = if bool_decide (Some id = Wallet.defaultAccount w) then None
           else Wallet.defaultAccount w).
Proof.
  split; [by intros Hnone; unfold removeAccount; rewrite Hnone|].
  intros Hunique id account Hfind.
  destruct (getAccountByName_Some _ _ _ _ Hfind) as [Hin Hname].
  unfold removeAccount. rewrite Hfind.
  set (w1 := if bool_decide _ then _ else w).
  assert (Haccounts : Wallet.accounts w1 = Wallet.accounts w)
    by (subst w1; by case_bool_decide).
  assert (Hdefault : Wallet.defaultAccount w1
                     = if bool_decide (Some id = Wallet.defaultAccount w) then None
                       else Wallet.defaultAccount w)
    by (subst w1; by case_bool_decide).
  assert (Hlog : Wallet.onAccountRemoved w1 = Wallet.onAccountRemoved w)
    by (subst w1; by case_bool_decide).
  unfold getAccount. simpl. rewrite Haccounts, Hlog.
  split; [apply lookup_delete_eq|]. split.
  { apply getAccountByName_None. intros id' account'. simpl. rewrite Haccounts.
    destruct (decide (id = id')) as [<-|Hne].
    - by rewrite lookup_delete_eq.
    - rewrite lookup_delete_ne by done. intros Hin' Hname'.
      apply Hne. eapply Hunique; [done|done|congruence]. }
  split; [intros id' Hne; by apply lookup_delete_ne|]. done.
Qed.

(** X6: [setDefaultAccount] and [getDefaultAccount]: with unique names, making a
    registered, named account the default one makes [getDefaultAccount]
    return it; [null] and the empty name clear the default account; a name
    that is not registered throws and changes nothing. *)
Theorem setDefaultAccount_getDefaultAccount w :
  (uniqueNames w →
   ∀ id account,
     Wallet.accounts w !! id = Some account →
     Account.name account ≠ ""%string → id ≠ ""%string →
     ∃ w', setDefaultAccount w (Some (Account.name account)) = (w', Ok ())
           ∧ Wallet.accounts w' = Wallet.accounts w
           ∧ Wallet.defaultAccount w' = Some id
           ∧ hasDefaultAccount w' = true
           ∧ getDefaultAccount w' = Some account)
  ∧ (∀ name, name = None ∨ name = Some ""%string →
       ∃ w', setDefaultAccount w name = (w', Ok ())
             ∧ Wallet.accounts w' = Wallet.accounts w
             ∧ hasDefaultAccount w' = false
             ∧ getDefaultAccount w' = None)
  ∧ (∀ name, name ≠ ""%string → getAccountByName w name = None →
       ∃ message, setDefaultAccount w (Some name) = (w, Throw (Error message))).
Proof.
  split; [|split].
  - intros Hunique id account Hin Hname Hid. unfold setDefaultAccount, truthyString.
    rewrite (proj2 (String.eqb_neq _ _) Hname). simpl.
    rewrite (getAccountByName_unique w id account Hunique Hin). simpl.
    assert (Hget : ∀ w', Wallet.accounts w' = Wallet.accounts w →
              Wallet.defaultAccount w' = Some id →
              hasDefaultAccount w' = true ∧ getDefaultAccount w' = Some account).
    { intros w' Haccounts Hdefault. unfold hasDefaultAccount, getDefaultAccount.
      rewrite Hdefault. unfold truthyString.
      rewrite (proj2 (String.eqb_neq _ _) Hid). simpl.
      unfold getAccount. by rewrite Haccounts. }
    case_bool_decide as Hdefault.
    + exists w. split; [done|]. split; [done|]. split; [done|]. by apply Hget.
    + eexists. split; [done|]. split; [done|]. split; [done|]. by apply Hget.
  - intros name [-> | ->]; eexists; by repeat split.
  - intros name Hname Hnone. unfold setDefaultAccount, truthyString.
    rewrite (proj2 (String.eqb_neq _ _) Hname). simpl. rewrite Hnone. by eexists.
Qed.

Lemma isAccountUpToDate_stored w account upToDate :
  isAccountUpToDate w account = Ok upToDate →
  Account.headIsUndefined account = false.
Proof. unfold isAccountUpToDate. by destruct (Account.headIsUndefined account). Qed.

Lemma isAccountUpToDate_cursor w w' account :
  Wallet.chainProcessor w' = Wallet.chainProcessor w →
  isAccountUpToDate w' account = isAccountUpToDate w account.
Proof. intros Hcursor. unfold isAccountUpToDate. by rewrite Hcursor. Qed.

Lemma shouldRescanLoop_false w accounts :
  shouldRescanLoop w accounts = Ok false
  ↔ ∀ p, p ∈ accounts → isAccountUpToDate w p.2 = Ok true.
Proof.
  induction accounts as [|q rest IH]; simpl.
  - split; [intros _ p Hp; by apply elem_of_nil in Hp|done].
  - destruct (isAccountUpToDate w q.2) as [[]|e] eqn:Hq; simpl.
    + rewrite IH. split.
      * intros Hrest p Hp. apply elem_of_cons in Hp as [->|Hp]; [done|by apply Hrest].
      * intros Hall p Hp. apply Hall. by right.
    + split; [done|]. intros Hall. specialize (Hall q ltac:(left)). congruence.
    + split; [done|]. intros Hall. specialize (Hall q ltac:(left)). congruence.
Qed.

Lemma shouldRescanLoop_outcome w accounts :
  match shouldRescanLoop w accounts with
  | Ok rescan =>
      if rescan then ∃ p, p ∈ accounts ∧ isAccountUpToDate w p.2 = Ok false
      else ∀ p, p ∈ accounts → isAccountUpToDate w p.2 = Ok true
  | Throw e =>
      e = AssertionError
      ∧ ∃ p, p ∈ accounts ∧ Account.headIsUndefined p.2 = true
  end.
Proof.
  induction accounts as [|q rest IH]; simpl.
  - intros p Hp. by apply elem_of_nil in Hp.
  - destruct (isAccountUpToDate w q.2) as [[]|e] eqn:Hq; simpl.
    + destruct (shouldRescanLoop w rest) as [[]|e].
      * destruct IH as (p & Hp & Hfalse). exists p. split; [by right|done].
      * intros p Hp. apply elem_of_cons in Hp as [->|Hp]; [done|by apply IH].
      * destruct IH as (-> & p & Hp & Hundefined). split; [done|].
        exists p. split; [by right|done].
    + exists q. split; [left|done].
    + unfold isAccountUpToDate in Hq.
      destruct (Account.headIsUndefined q.2) eqn:Hundefined; [|done].
      injection Hq as <-. split; [done|]. exists q. split; [left|done].
Qed.

(** X7: A rescan after a new account: when no rescan is due and the cursor has a
    hash and a sequence, creating an account leaves none due; importing an
    account into an idle wallet whose cursor has a hash makes one due, unless
    [shouldRescan] then fails the assertion on an account of the wallet whose
    head has never been written. *)
Theorem shouldRescan_after_new_account
    (generateKeyFromPrivateKey : string → Key.t)
    (validateAccount : string → Account.t → bool) w :
  (shouldRescan w = Ok false →
   is_Some (ChainProcessor.hash (Wallet.chainProcessor w)) →
   is_Some (ChainProcessor.sequence (Wallet.chainProcessor w)) →
   ∀ name setDefault id key w' created,
     createAccount w name setDefault id key = (w', Ok created) →
     shouldRescan w' = Ok false)
  ∧ (Wallet.scan w = None →
     is_Some (ChainProcessor.hash (Wallet.chainProcessor w)) →
     ∀ toImport id w' imported,
       importAccount generateKeyFromPrivateKey validateAccount w toImport id
       = (w', Ok imported) →
       shouldRescan w' = Ok true
       ∨ (shouldRescan w' = Throw AssertionError
          ∧ ∃ id' account',
              Wallet.accounts w !! id' = Some account'
              ∧ Account.headIsUndefined account' = true)).
Proof.
  split.
  - intros Hidle [hash Hhash] [sequence Hsequence] name setDefault id key w' created Hrun.
    destruct (getAccountByName w name) as [found|] eqn:Hfree.
    { unfold createAccount in Hrun. by rewrite Hfree in Hrun. }
    rewrite createAccount_run in Hrun by done. injection Hrun as <- _.
    set (account := createdAccount w name key).
    set (w' := (if setDefault then _ else _) _).
    assert (Haccounts : Wallet.accounts w' = <[id := account]> (Wallet.accounts w))
      by (subst w'; by destruct setDefault).
    assert (Hcursor : Wallet.chainProcessor w' = Wallet.chainProcessor w)
      by (subst w'; by destruct setDefault).
    assert (Hscan : Wallet.scan w' = Wallet.scan w)
      by (subst w'; by destruct setDefault).
    unfold shouldRescan in *. rewrite Hscan.
    destruct (notNull (Wallet.scan w)); [done|].
    apply shouldRescanLoop_false. intros [id' a'] Hin. unfold listAccounts in Hin.
    apply elem_of_map_to_list in Hin. rewrite Haccounts in Hin. cbn [snd].
    rewrite (isAccountUpToDate_cursor w w' a' Hcursor).
    destruct (decide (id = id')) as [<-|Hne].
    + rewrite lookup_insert_eq in Hin. injection Hin as <-.
      unfold isAccountUpToDate, Account.headIsUndefined, Account.getHead.
      subst account. unfold createdAccount. rewrite skipRescan_stored, Hhash, Hsequence.
      simpl. by rewrite String.eqb_refl.
    + rewrite lookup_insert_ne in Hin by done.
      apply (proj1 (shouldRescanLoop_false _ _) Hidle (id', a')).
      by apply elem_of_map_to_list.
  - intros Hscan [hash Hhash] toImport id w' imported Hrun. unfold importAccount in Hrun.
    destruct (_ && _); [done|].
    destruct (notNull (find _ (listAccounts w))); [done|].
    destruct (validateAccount id _); [|done]. simpl in Hrun. injection Hrun as <- _.
    set (account := Account.updateHead None _).
    set (w' := Wallet.emitAccountImported id _).
    assert (Hin : (id, account) ∈ listAccounts w')
      by (apply elem_of_map_to_list; apply lookup_insert_eq).
    assert (Hbehind : isAccountUpToDate w' account = Ok false)
      by (unfold isAccountUpToDate; simpl; by rewrite Hhash).
    unfold shouldRescan. change (Wallet.scan w') with (Wallet.scan w). rewrite Hscan.
    cbn [notNull].
    pose proof (shouldRescanLoop_outcome w' (listAccounts w')) as Houtcome.
    destruct (shouldRescanLoop w' (listAccounts w')) as [[]|e].
    + by left.
    + specialize (Houtcome (id, account) Hin). simpl in Houtcome. congruence.
    + destruct Houtcome as (-> & [id' account'] & Hin' & Hundefined). right.
      split; [done|]. exists id', account'. split; [|done].
      apply elem_of_map_to_list in Hin'. simpl in Hin'.
      destruct (decide (id = id')) as [<-|Hne].
      * rewrite lookup_insert_eq in Hin'. injection Hin' as <-. done.
      * by rewrite lookup_insert_ne in Hin'.
Qed.

(** *** getLatestHeadHash *)

Lemma latestHeadLoop_max accounts :
  ∀ latestHead,
    match latestHeadLoop accounts latestHead with
    | None => latestHead = None ∧ ∀ p, p ∈ accounts → Account.getHead p.2 = None
    | Some hash =>
        ∃ head,
          hash = HeadValue.hash head
          ∧ (latestHead = Some head
             ∨ ∃ p, p ∈ accounts ∧ Account.getHead p.2 = Some head)
          ∧ (∀ l, latestHead = Some l → HeadValue.sequence l ≤ HeadValue.sequence head)
          ∧ (∀ p head', p ∈ accounts → Account.getHead p.2 = Some head' →
                        HeadValue.sequence head' ≤ HeadValue.sequence head)
    end.
Proof.
  induction accounts as [|q rest IH]; intros acc; simpl.
  - destruct acc as [l|]; simpl.
    + exists l. repeat split; [by left| |].
      * intros l' [= <-]. lia.
      * intros p head' Hin. by apply elem_of_nil in Hin.
    + split; [done|]. intros p Hin. by apply elem_of_nil in Hin.
  - destruct (Account.getHead q.2) as [head|] eqn:Hq.
    + set (acc' := match acc with
                   | Some l => if HeadValue.sequence l <? HeadValue.sequence head
                               then Some head else Some l
                   | None => Some head
                   end).
      specialize (IH acc').
      destruct (latestHeadLoop rest acc') as [hash|].
      2: { destruct IH as [Hacc' _]. subst acc'. destruct acc as [l|]; [|done].
           by destruct (HeadValue.sequence l <? HeadValue.sequence head). }
      destruct IH as (m & -> & Hfrom & Hacc & Hothers).
      assert (Hhead : HeadValue.sequence head ≤ HeadValue.sequence m
                      ∧ ∀ l, acc = Some l → HeadValue.sequence l ≤ HeadValue.sequence m).
      { subst acc'. destruct acc as [l|].
        - destruct (Z.ltb_spec (HeadValue.sequence l) (HeadValue.sequence head)).
          + specialize (Hacc head eq_refl). split; [done|]. intros l' [= <-]. lia.
          + specialize (Hacc l eq_refl). split; [lia|]. by intros l' [= <-].
        - split; [by apply Hacc|done]. }
      exists m. split; [done|]. split; [|split].
      * destruct Hfrom as [Hm|(p & Hp & Hpm)].
        -- subst acc'. destruct acc as [l|].
           ++ destruct (HeadValue.sequence l <? HeadValue.sequence head).
              ** right. exists q. split; [left|congruence].
              ** by left.
           ++ right. exists q. split; [left|congruence].
        -- right. exists p. split; [by right|done].
      * exact (proj2 Hhead).
      * intros p head' Hin Hp. apply elem_of_cons in Hin as [->|Hin].
        -- rewrite Hq in Hp. injection Hp as <-. exact (proj1 Hhead).
        -- by eapply Hothers.
    + specialize (IH acc). destruct (latestHeadLoop rest acc) as [hash|].
      * destruct IH as (m & -> & Hfrom & Hacc & Hothers).
        exists m. split; [done|]. split; [|split; [done|]].
        -- destruct Hfrom as [Hm|(p & Hp & Hpm)]; [by left|].
           right. exists p. split; [by right|done].
        -- intros p head' Hin Hp. apply elem_of_cons in Hin as [->|Hin]; [congruence|].
           by eapply Hothers.
      * destruct IH as [-> Hall]. split; [done|].
        intros p Hin. apply elem_of_cons in Hin as [->|Hin]; [done|by apply Hall].
Qed.

(** X8: [getLatestHeadHash] is [null] exactly when no account has a head (unlike
    [getEarliestHeadHash], it passes over accounts without one); otherwise it
    is the hash of the head of an account whose head has the greatest
    sequence. *)
Theorem getLatestHeadHash_spec w :
  match getLatestHeadHash w with
  | None =>
      ∀ id account, Wallet.accounts w !! id = Some account →
                    Account.getHead account = None
  | Some hash =>
      ∃ id account head,
        Wallet.accounts w !! id = Some account
        ∧ Account.getHead account = Some head
        ∧ hash = HeadValue.hash head
        ∧ ∀ id' account' head',
            Wallet.accounts w !! id' = Some account' →
            Account.getHead account' = Some head' →
            HeadValue.sequence head' ≤ HeadValue.sequence head
  end.
Proof.
  unfold getLatestHeadHash, listAccounts.
  pose proof (latestHeadLoop_max (map_to_list (Wallet.accounts w)) None) as Hloop.
  destruct (latestHeadLoop _ None) as [hash|].
  - destruct Hloop as (head & -> & [Hnone|([id account] & Hin & Hhead)] & _ & Hmax);
      [done|].
    exists id, account, head. apply elem_of_map_to_list in Hin.
    repeat split; [done..|].
    intros id' account' head' Hin' Hhead'.
    apply (Hmax (id', account')); [|done]. by apply elem_of_map_to_list.
  - destruct Hloop as [_ Hall]. intros id account Hin.
    apply (Hall (id, account)). by apply elem_of_map_to_list.
Qed.

(** *** The batches of decryptNotes *)

Lemma decryptNotesLoop_batches w account notes :
  ∀ currentNoteIndex payloads decryptedNotes submitted,
    (length payloads < batchSize)%nat →
    ∃ batches,
      decryptNotesLoop w account notes currentNoteIndex payloads decryptedNotes submitted
      = (decryptedNotes ++ concat (decryptNotesFromTransaction w <$> batches),
         submitted ++ batches)
      ∧ concat batches = payloads ++ payloadsFrom account notes currentNoteIndex
      ∧ (∀ k batch, batches !! k = Some batch →
           (0 < length batch ≤ batchSize)%nat
           ∧ (S k < length batches → length batch = batchSize)%nat).
Proof.
  induction notes as [|note rest IH]; intros cur payloads dn submitted Hlen.
  - cbn [decryptNotesLoop payloadsFrom]. destruct payloads as [|p ps].
    + exists []. simpl. rewrite !app_nil_r. split; [done|]. split; [done|].
      intros k batch Hk. by rewrite lookup_nil in Hk.
    + exists [p :: ps]. cbn [length Nat.eqb negb fmap list_fmap concat].
      rewrite !app_nil_r. split; [done|]. split; [done|].
      intros [|k] batch Hk; [|done]. injection Hk as <-.
      split; [simpl in *; lia|]. simpl. lia.
  - cbn [decryptNotesLoop payloadsFrom].
    fold (payloadOf account note cur). fold (nextNoteIndex cur).
    destruct (Nat.leb_spec batchSize (length (payloads ++ [payloadOf account note cur])))
      as [Hfull|Hroom].
    + destruct (IH (nextNoteIndex cur) []
                  (dn ++ decryptNotesFromTransaction w (payloads ++ [payloadOf account note cur]))
                  (submitted ++ [payloads ++ [payloadOf account note cur]]))
        as (batches & -> & Hconcat & Hsizes); [unfold batchSize; simpl; lia|].
      exists ((payloads ++ [payloadOf account note cur]) :: batches).
      simpl in Hconcat.
      split; [by rewrite fmap_cons; simpl; rewrite <- !app_assoc|].
      split; [by simpl; rewrite Hconcat, <- app_assoc|].
      intros [|k] batch Hk.
      * injection Hk as <-. rewrite length_app in *. simpl in *.
        split; lia.
      * destruct (Hsizes k batch Hk) as [Hsize Hlast]. split; [done|].
        simpl. intros Hk'. apply Hlast. lia.
    + destruct (IH (nextNoteIndex cur) (payloads ++ [payloadOf account note cur])
                  dn submitted Hroom) as (batches & -> & Hconcat & Hsizes).
      exists batches. split; [done|]. split; [|done].
      by rewrite Hconcat, <- app_assoc.
Qed.

(** X9: The notes of a transaction go to the worker pool in batches, one payload
    per note and in note order: every batch is non-empty, none is larger than
    20, and every batch but the last has exactly 20 payloads.  The decrypted
    notes are the results of the batches (the [null]s dropped), concatenated in
    that order. *)
Theorem decryptNotes_batches w transaction initialNoteIndex account :
  let batches := (decryptNotesForAccount w transaction initialNoteIndex account).2 in
  concat batches = payloadsFrom account (Transaction.notes transaction) initialNoteIndex
  ∧ length (concat batches) = length (Transaction.notes transaction)
  ∧ (∀ k batch, batches !! k = Some batch →
       (0 < length batch ≤ 20)%nat
       ∧ (S k < length batches → length batch = 20)%nat)
  ∧ (decryptNotesForAccount w transaction initialNoteIndex account).1
    = concat (decryptNotesFromTransaction w <$> batches).
Proof.
  unfold decryptNotesForAccount.
  destruct (decryptNotesLoop_batches w account (Transaction.notes transaction)
              initialNoteIndex [] [] []) as (batches & -> & Hconcat & Hsizes);
    [unfold batchSize; simpl; lia|].
  cbn [fst snd app]. simpl in Hconcat. split; [done|]. split; [|done].
  rewrite Hconcat. clear.
  generalize initialNoteIndex.
  induction (Transaction.notes transaction) as [|note rest IH]; intros i; [done|].
  simpl. by rewrite IH.
Qed.

Lemma filterUpToDate_outcome w accounts :
  match filterUpToDate w accounts with
  | Ok kept =>
      kept = List.filter (λ p, match isAccountUpToDate w p.2 with
                               | Ok upToDate => upToDate
                               | Throw _ => false
                               end) accounts
      ∧ ∀ p, p ∈ accounts → Account.headIsUndefined p.2 = false
  | Throw e =>
      e = AssertionError
      ∧ ∃ p, p ∈ accounts ∧ Account.headIsUndefined p.2 = true
  end.
Proof.
  induction accounts as [|q rest IH]; simpl.
  - split; [done|]. intros p Hp. by apply elem_of_nil in Hp.
  - destruct (isAccountUpToDate w q.2) as [upToDate|e] eqn:Hq.
    + destruct (filterUpToDate w rest) as [kept|e].
      * destruct IH as [-> Hstored]. split; [by destruct upToDate|].
        intros p Hp. apply elem_of_cons in Hp as [->|Hp]; [|by apply Hstored].
        by eapply isAccountUpToDate_stored.
      * destruct IH as (-> & p & Hp & Hundefined). split; [done|].
        exists p. split; [by right|done].
    + unfold isAccountUpToDate in Hq.
      destruct (Account.headIsUndefined q.2) eqn:Hundefined; [|done].
      injection Hq as <-. split; [done|]. exists q. split; [left|done].
Qed.

(** X11: [decryptNotes] without a list of accounts looks at the accounts of the
    wallet that are up to date with the chain processor, and only at them; no
    account is ever mapped to an empty list of notes.  It throws, on the
    assertion of [isAccountUpToDate], exactly when the head of some account
    of the wallet has never been written. *)
Theorem decryptNotes_up_to_date_accounts w transaction initialNoteIndex :
  match decryptNotes w transaction initialNoteIndex None with
  | Ok decryptedNotesByAccountId =>
      (∀ id account, Wallet.accounts w !! id = Some account →
                     Account.headIsUndefined account = false)
      ∧ ∀ id,
          decryptedNotesByAccountId !! id
          = match Wallet.accounts w !! id with
            | Some account =>
                match isAccountUpToDate w account with
                | Ok true =>
                    match (decryptNotesForAccount w transaction initialNoteIndex
                             account).1 with
                    | [] => None
                    | decryptedNotes => Some decryptedNotes
                    end
                | _ => None
                end
            | None => None
            end
  | Throw e =>
      e = AssertionError
      ∧ ∃ id account,
          Wallet.accounts w !! id = Some account
          ∧ Account.headIsUndefined account = true
  end.
Proof.
  unfold decryptNotes. cbn [accountsToCheck].
  pose proof (filterUpToDate_outcome w (listAccounts w)) as Hfilter.
  destruct (filterUpToDate w (listAccounts w)) as [kept|e].
  - destruct Hfilter as [-> Hstored]. split.
    { intros id account Hin. apply (Hstored (id, account)).
      by apply elem_of_map_to_list. }
    intros id.
    rewrite decryptNotes_lookup by apply NoDup_fst_filter, NoDup_fst_map_to_list.
    unfold listAccounts. rewrite list_to_map_filter_to_list.
    destruct (Wallet.accounts w !! id) as [account|]; [|done]. cbn [snd].
    destruct (isAccountUpToDate w account) as [[]|e]; [|done..]. cbn zeta.
    by destruct (decryptNotesForAccount w transaction initialNoteIndex account).1.
  - destruct Hfilter as (-> & [id account] & Hin & Hundefined). split; [done|].
    exists id, account. split; [by apply elem_of_map_to_list|done].
Qed.

(** *** connectBlock and disconnectBlock, one after the other *)

Lemma connectBlock_lookup w blockHeader scan :
  scanIsAborted scan = false →
  ∀ id,
    Wallet.accounts (connectBlock w blockHeader scan).1 !! id
    = (λ account,
         if connectBlockFilter blockHeader account
         then Account.updateHead
                (Some (HeadValue.mk (BlockHeader.hash blockHeader)
                                    (BlockHeader.sequence blockHeader)))
                (connectedTransactions w blockHeader account)
         else account) <$> Wallet.accounts w !! id.
Proof.
  intros Hscan id. unfold connectBlock.
  set (l := List.filter _ (listAccounts w)).
  set (step := λ (st : Wallet.t * option ScanState.t) (p : string * Account.t), _).
  pose (update := λ (_ : string) (_ : Account.t) (a : Account.t),
          Account.updateHead
            (Some (HeadValue.mk (BlockHeader.hash blockHeader)
                                (BlockHeader.sequence blockHeader)))
            (connectedTransactions w blockHeader a)).
  pose (inv := λ st : Wallet.t * option ScanState.t,
          Wallet.chain st.1 = Wallet.chain w
          ∧ Wallet.workerPool st.1 = Wallet.workerPool w
          ∧ scanIsAborted st.2 = false).
  destruct (foldl_registry (λ st, Wallet.accounts st.1) inv step update) with
    (l := l) (st := (w, scan)) as [_ Hlookup].
  { intros [w1 scan1] [k a] (Hchain & Hpool & Hscan1). subst step. cbn beta iota.
    unfold getAccount. cbn [fst snd].
    destruct (Wallet.accounts w1 !! k) as [account1|]; [|done].
    unfold connectBlockForAccount. simpl in *. rewrite Hchain.
    destruct (connectTransactions_not_aborted w1 w blockHeader k
                (Blockchain.getBlockTransactions (Wallet.chain w) blockHeader)
                Hpool scan1 account1 Hscan1) as (scan' & -> & Hscan').
    done. }
  { done. }
  { apply NoDup_fst_filter, NoDup_fst_map_to_list. }
  specialize (Hlookup id). cbn [fst] in Hlookup. rewrite Hlookup. subst l.
  unfold listAccounts. rewrite list_to_map_filter_to_list.
  destruct (Wallet.accounts w !! id) as [account|]; [|done]. simpl.
  by destruct (connectBlockFilter blockHeader account).
Qed.

Lemma connectBlock_chain w blockHeader scan :
  Wallet.chain (connectBlock w blockHeader scan).1 = Wallet.chain w.
Proof.
  unfold connectBlock.
  apply (foldl_invariant
           (λ st : Wallet.t * option ScanState.t, Wallet.chain st.1 = Wallet.chain w));
    [|done].
  intros [w1 scan1] [k a] Hchain. cbn [fst snd] in *. unfold getAccount.
  destruct (Wallet.accounts w1 !! k) as [account1|]; [|done].
  destruct (connectBlockForAccount w1 blockHeader k scan1 account1) as [[a' s'] cleared].
  by destruct cleared.
Qed.

Lemma disconnectBlock_lookup w header id :
  Wallet.accounts (disconnectBlock w header) !! id
  = (λ account,
       if disconnectBlockFilter header account
       then disconnectBlockForAccount w header account
       else account) <$> Wallet.accounts w !! id.
Proof.
  unfold disconnectBlock.
  set (l := List.filter _ (listAccounts w)).
  set (step := λ (w : Wallet.t) (p : string * Account.t), _).
  destruct (foldl_registry Wallet.accounts (λ w1, Wallet.chain w1 = Wallet.chain w) step
              (λ (_ : string) (_ : Account.t) (a : Account.t),
                 disconnectBlockForAccount w header a)) with
    (l := l) (st := w) as [_ Hlookup].
  { intros w1 [k a] Hchain. subst step. cbn beta iota.
    unfold getAccount. cbn [fst snd].
    destruct (Wallet.accounts w1 !! k) as [account1|]; [|done].
    split; [done|]. simpl. unfold disconnectBlockForAccount. by rewrite Hchain. }
  { done. }
  { apply NoDup_fst_filter, NoDup_fst_map_to_list. }
  rewrite (Hlookup id). subst l. unfold listAccounts.
  rewrite list_to_map_filter_to_list.
  destruct (Wallet.accounts w !! id) as [account|]; [|done]. simpl.
  by destruct (disconnectBlockFilter header account).
Qed.

Lemma filter_none {A} (f : A → bool) (l : list A) :
  (∀ x, x ∈ l → f x = false) → List.filter f l = [].
Proof.
  induction l as [|a l IH]; intros Hall; simpl; [done|].
  rewrite (Hall a) by left. apply IH. intros x Hx. apply Hall. by right.
Qed.

(** X13: A block is applied to an account once.  For a block that is not its own
    predecessor: after [connectBlock] with a live scan token, connecting the
    same block again changes nothing at all, whatever the token; and
    disconnecting a block that has just been disconnected changes nothing. *)
Theorem connectBlock_disconnectBlock_once w blockHeader :
  BlockHeader.hash blockHeader ≠ BlockHeader.previousBlockHash blockHeader →
  (∀ scan scan2,
     scanIsAborted scan = false →
     connectBlock (connectBlock w blockHeader scan).1 blockHeader scan2
     = ((connectBlock w blockHeader scan).1, scan2))
  ∧ disconnectBlock (disconnectBlock w blockHeader) blockHeader
    = disconnectBlock w blockHeader.
Proof.
  intros Hne. split.
  - intros scan scan2 Hscan.
    set (w' := (connectBlock w blockHeader scan).1).
    unfold connectBlock at 1. rewrite filter_none; [done|].
    intros [id account'] Hin. apply elem_of_map_to_list in Hin. subst w'.
    rewrite connectBlock_lookup in Hin by done. cbn [snd].
    destruct (Wallet.accounts w !! id) as [account|]; [|done].
    injection Hin as <-.
    destruct (connectBlockFilter blockHeader account) eqn:Hfilter; [|done].
    unfold connectBlockFilter, equalsNullable. simpl.
    by apply String.eqb_neq.
  - set (w' := disconnectBlock w blockHeader).
    unfold disconnectBlock at 1. rewrite filter_none; [done|].
    intros [id account'] Hin. apply elem_of_map_to_list in Hin. subst w'.
    rewrite disconnectBlock_lookup in Hin. cbn [snd].
    destruct (Wallet.accounts w !! id) as [account|]; [|done].
    injection Hin as <-.
    destruct (disconnectBlockFilter blockHeader account) eqn:Hfilter; [|done].
    unfold disconnectBlockFilter, equalsNullable. simpl.
    apply String.eqb_neq. congruence.
Qed.

(** X14: [connectBlock] with a live scan token followed by [disconnectBlock] of the
    same block: an account the block connected to is disconnected again and
    its head is the block's predecessor,
    [{hash: previousBlockHash, sequence: sequence - 1}], also when it had no
    head before (its head is then at sequence 0, not [null]); an account that
    neither accepts the block nor has it as its head is the account there
    was. *)
Theorem connectBlock_then_disconnectBlock w blockHeader scan :
  scanIsAborted scan = false →
  ∀ id account,
    Wallet.accounts w !! id = Some account →
    (headAccepts blockHeader account →
       ∃ account',
         Wallet.accounts
           (disconnectBlock (connectBlock w blockHeader scan).1 blockHeader) !! id
         = Some account'
         ∧ account'
           = disconnectBlockForAccount w blockHeader
               (Account.updateHead
                  (Some (HeadValue.mk (BlockHeader.hash blockHeader)
                                      (BlockHeader.sequence blockHeader)))
                  (connectedTransactions w blockHeader account))
         ∧ Account.getHead account'
           = Some (HeadValue.mk (BlockHeader.previousBlockHash blockHeader)
                                (BlockHeader.sequence blockHeader - 1)))
    ∧ (¬ headAccepts blockHeader account →
       HeadValue.hash <$> Account.getHead account ≠ Some (BlockHeader.hash blockHeader) →
       Wallet.accounts
         (disconnectBlock (connectBlock w blockHeader scan).1 blockHeader) !! id
       = Some account).
Proof.
  intros Hscan id account Hin.
  rewrite disconnectBlock_lookup, connectBlock_lookup, Hin by done.
  unfold disconnectBlockForAccount. rewrite connectBlock_chain.
  assert (Hfilter : connectBlockFilter blockHeader account = true
                    ↔ headAccepts blockHeader account).
  { unfold connectBlockFilter, headAccepts, equalsNullable.
    destruct (Account.getHead account) as [accountHead|].
    - apply String.eqb_eq.
    - apply Z.eqb_eq. }
  split.
  - intros Haccepts. cbn [fmap option_fmap option_map]. cbn beta.
    rewrite (proj2 Hfilter Haccepts).
    unfold disconnectBlockFilter, equalsNullable. simpl.
    rewrite String.eqb_refl. by eexists.
  - intros Hrejects Hhead. cbn [fmap option_fmap option_map]. cbn beta.
    destruct (connectBlockFilter blockHeader account) eqn:Haccepts;
      [by destruct Hrejects; apply Hfilter|].
    unfold disconnectBlockFilter, equalsNullable.
    destruct (Account.getHead account) as [h|]; simpl in *; [|done].
    destruct (String.eqb_spec (HeadValue.hash h) (BlockHeader.hash blockHeader)); [|done].
    congruence.
Qed.

(** *** The spend selector, in every outcome *)

Lemma onlyMarksSpent_refl sender : onlyMarksSpent sender sender.
Proof. unfold onlyMarksSpent. repeat split. intros noteHash. by left. Qed.

Lemma onlyMarksSpent_trans a b c :
  onlyMarksSpent a b → onlyMarksSpent b c → onlyMarksSpent a c.
Proof.
  intros (? & ? & ? & ? & ? & ? & ? & ? & Hab) (? & ? & ? & ? & ? & ? & ? & ? & Hbc).
  unfold onlyMarksSpent. repeat split; try congruence.
  intros noteHash. destruct (Hbc noteHash) as [-> | ->]; [done|].
  destruct (Hab noteHash) as [-> | ->]; [by right|].
  right. by destruct (Account.getDecryptedNote noteHash a).
Qed.

Lemma markNoteSpent_onlyMarksSpent noteHash sender :
  onlyMarksSpent sender (markNoteSpent noteHash sender).
Proof.
  unfold onlyMarksSpent.
  assert (Hfields : ∀ v, Account.getDecryptedNote noteHash sender = Some v →
            markNoteSpent noteHash sender
            = Account.saveDecryptedNote noteHash (DecryptedNoteValue.markSpent v) sender).
  { intros v Hv. unfold markNoteSpent. by rewrite Hv. }
  destruct (Account.getDecryptedNote noteHash sender) as [v|] eqn:Hv.
  - rewrite (Hfields v eq_refl). repeat split.
    intros noteHash'. rewrite <- (Hfields v) by done. rewrite markNoteSpent_lookup.
    case_decide as Heq; [subst; by right|by left].
  - unfold markNoteSpent. rewrite Hv. repeat split. intros noteHash'. by left.
Qed.

Lemma repaired_onlyMarksSpent w examined :
  ∀ sender, onlyMarksSpent sender (repaired w sender examined).
Proof.
  induction examined as [|u l IH]; intros sender; [apply onlyMarksSpent_refl|].
  unfold repaired. cbn [foldl]. fold (repaired w (repair w sender u) l).
  eapply onlyMarksSpent_trans; [|apply IH].
  unfold repair. destruct (_ && _); [apply markNoteSpent_onlyMarksSpent|].
  apply onlyMarksSpent_refl.
Qed.

(** The loop of [createSpendsForAsset] with nothing assumed of the
    candidates: it examines a prefix of them and either returns what
    [selection] keeps of the prefix, all of whose candidates of positive value
    are mined, or stops with an assertion error at the first candidate of
    positive value that is not mined. *)
Lemma createSpendsLoop_outcome w amountNeeded unspentNotes :
  ∀ sender amount notes,
    ∃ examined rest,
      unspentNotes = examined ++ rest
      ∧ (createSpendsLoop w amountNeeded unspentNotes sender amount notes).1
        = repaired w sender examined
      ∧ match (createSpendsLoop w amountNeeded unspentNotes sender amount notes).2 with
        | Ok (amount', notes') =>
            amount' = amount + amountOf (selection w examined)
            ∧ notes' = notes ++ selection w examined
            ∧ Forall (λ u, 0 < Note.value (UnspentNote.note u) → mined u) examined
        | Throw e =>
            e = AssertionError
            ∧ ∃ u rest', rest = u :: rest'
                         ∧ 0 < Note.value (UnspentNote.note u) ∧ ¬ mined u
        end.
Proof.
  induction unspentNotes as [|u l IH]; intros sender amount notes.
  { exists [], []. simpl. by rewrite Z.add_0_r, app_nil_r. }
  cbn [createSpendsLoop].
  assert (Hskip : ∀ sender',
            spendOf w u = None → repair w sender u = sender' →
            (0 < Note.value (UnspentNote.note u) → mined u) →
            ∃ examined rest,
              u :: l = examined ++ rest
              ∧ (createSpendsLoop w amountNeeded l sender' amount notes).1
                = repaired w sender examined
              ∧ match (createSpendsLoop w amountNeeded l sender' amount notes).2 with
                | Ok (amount', notes') =>
                    amount' = amount + amountOf (selection w examined)
                    ∧ notes' = notes ++ selection w examined
                    ∧ Forall (λ u, 0 < Note.value (UnspentNote.note u) → mined u) examined
                | Throw e =>
                    e = AssertionError
                    ∧ ∃ u rest', rest = u :: rest'
                                 ∧ 0 < Note.value (UnspentNote.note u) ∧ ¬ mined u
                end).
  { intros sender' Hnone Hrepair Hmined.
    destruct (IH sender' amount notes) as (examined & rest & -> & Hsender & Hresult).
    exists (u :: examined), rest.
    rewrite (selection_cons_skip _ _ _ Hnone). unfold repaired. cbn [foldl].
    rewrite Hrepair. fold (repaired w sender' examined).
    split; [done|]. split; [done|].
    destruct (createSpendsLoop w amountNeeded _ sender' amount notes).2 as [[a n]|e];
      [|done].
    destruct Hresult as (? & ? & ?). by repeat split; [..|apply Forall_cons]. }
  unfold spendOf, repair, nullifierOnChain in Hskip.
  destruct (Z.leb_spec (Note.value (UnspentNote.note u)) 0) as [Hle|Hpos].
  { apply Hskip; [done| |lia]. by rewrite (proj2 (Z.ltb_ge _ _) Hle). }
  rewrite (proj2 (Z.ltb_lt _ _) Hpos) in Hskip.
  unfold checkNoteOnChainAndRepair.
  destruct (UnspentNote.index u) as [index|] eqn:Eindex.
  2: { exists [], (u :: l). simpl. split; [done|]. split; [done|]. split; [done|].
       exists u, l. split; [done|]. split; [done|].
       unfold mined. intros [? ?]. congruence. }
  destruct (UnspentNote.nullifier u) as [nullifier|] eqn:Enullifier.
  2: { exists [], (u :: l). simpl. split; [done|]. split; [done|]. split; [done|].
       exists u, l. split; [done|]. split; [done|].
       unfold mined. intros [? ?]. congruence. }
  assert (Hmined : 0 < Note.value (UnspentNote.note u) → mined u).
  { intros _. unfold mined. by rewrite Eindex, Enullifier. }
  destruct (Blockchain.nullifiersContains (Wallet.chain w) nullifier) eqn:Hchain;
    simpl in *.
  { unfold markNoteSpent in Hskip.
    destruct (Account.getDecryptedNote (UnspentNote.hash u) sender); by apply Hskip. }
  destruct (Blockchain.notesWitness (Wallet.chain w) index) as [witness|] eqn:Hwitness;
    simpl in *; [|by apply Hskip].
  clear Hskip.
  assert (Hspend : spendOf w u = Some (UnspentNote.note u, witness)).
  { unfold spendOf, nullifierOnChain.
    rewrite (proj2 (Z.leb_gt _ _) Hpos), Enullifier, Hchain, Eindex, Hwitness. done. }
  assert (Hkeep : repair w sender u = sender).
  { unfold repair, nullifierOnChain. by rewrite Enullifier, Hchain, andb_false_r. }
  destruct (Z.geb_spec (amount + Note.value (UnspentNote.note u)) amountNeeded)
    as [Hreached|Hshort].
  - exists [u], l. rewrite (selection_cons_spend _ _ _ _ Hspend).
    unfold repaired. cbn [foldl]. rewrite Hkeep. simpl. rewrite Z.add_0_r.
    repeat split. by apply Forall_cons.
  - destruct (IH sender (amount + Note.value (UnspentNote.note u))
                (notes ++ [(UnspentNote.note u, witness)]))
      as (examined & rest & -> & Hsender & Hresult).
    exists (u :: examined), rest. rewrite (selection_cons_spend _ _ _ _ Hspend).
    unfold repaired. cbn [foldl]. rewrite Hkeep. fold (repaired w sender examined).
    split; [done|]. split; [done|].
    destruct (createSpendsLoop w amountNeeded _ sender _ _).2 as [[a n]|e]; [|done].
    destruct Hresult as (-> & -> & Hall).
    cbn [amountOf foldr fst]. fold (amountOf (selection w examined)).
    rewrite <- app_assoc. split; [lia|]. split; [done|]. by apply Forall_cons.
Qed.

Lemma createSpendsForAsset_onlyMarksSpent w sender assetId amountNeeded :
  onlyMarksSpent sender (createSpendsForAsset w sender assetId amountNeeded).1.
Proof.
  unfold createSpendsForAsset.
  destruct (createSpendsLoop_outcome w amountNeeded
              (getUnspentNotes w sender assetId None) sender 0 [])
    as (examined & rest & _ & -> & _).
  apply repaired_onlyMarksSpent.
Qed.

(** X16: What the spend selector never does.  When [createSpendsForAsset] returns,
    the amount is the sum of the values of the notes it returns, and each of
    them is the note of a candidate of positive value that is mined, whose
    nullifier is not on the chain, with the witness the chain gives for its
    index.  When it throws, it is the assertion error on a candidate that is
    not mined.  In both cases the sender's store differs from the one before
    by [spent] flags only. *)
Theorem createSpendsForAsset_sound w sender assetId amountNeeded :
  onlyMarksSpent sender (createSpendsForAsset w sender assetId amountNeeded).1
  ∧ match (createSpendsForAsset w sender assetId amountNeeded).2 with
    | Ok (amount, notes) =>
        amount = amountOf notes
        ∧ ∀ note witness,
            (note, witness) ∈ notes →
            0 < Note.value note
            ∧ ∃ unspentNote index nullifier,
                unspentNote ∈ getUnspentNotes w sender assetId None
                ∧ UnspentNote.note unspentNote = note
                ∧ UnspentNote.index unspentNote = Some index
                ∧ UnspentNote.nullifier unspentNote = Some nullifier
                ∧ Blockchain.nullifiersContains (Wallet.chain w) nullifier = false
                ∧ Blockchain.notesWitness (Wallet.chain w) index = Some witness
    | Throw e =>
        e = AssertionError
        ∧ ∃ unspentNote,
            unspentNote ∈ getUnspentNotes w sender assetId None
            ∧ 0 < Note.value (UnspentNote.note unspentNote)
            ∧ ¬ mined unspentNote
    end.
Proof.
  split; [apply createSpendsForAsset_onlyMarksSpent|].
  unfold createSpendsForAsset.
  destruct (createSpendsLoop_outcome w amountNeeded
              (getUnspentNotes w sender assetId None) sender 0 [])
    as (examined & rest & Hsplit & _ & Hresult).
  destruct (createSpendsLoop w amountNeeded _ sender 0 []).2 as [[amount notes]|e].
  - destruct Hresult as (-> & -> & Hmined). cbn [app]. split; [lia|].
    intros note witness Hin. unfold selection in Hin.
    apply list_elem_of_omap in Hin as (u & Hu & Hspend).
    rewrite Forall_forall in Hmined. specialize (Hmined u Hu).
    unfold spendOf, nullifierOnChain in Hspend.
    destruct (Z.leb_spec (Note.value (UnspentNote.note u)) 0) as [Hle|Hpos]; [done|].
    destruct (Hmined Hpos) as [Hindex Hnullifier].
    destruct (UnspentNote.nullifier u) as [nullifier|] eqn:Enullifier; [|done].
    destruct (Blockchain.nullifiersContains (Wallet.chain w) nullifier) eqn:Hchain;
      [done|].
    destruct (UnspentNote.index u) as [index|] eqn:Eindex; [|done].
    destruct (Blockchain.notesWitness (Wallet.chain w) index) as [witness'|] eqn:Hwitness;
      [|done].
    injection Hspend as <- <-. split; [done|].
    exists u, index, nullifier. rewrite Hsplit. repeat split; try done.
    apply elem_of_app. by left.
  - destruct Hresult as (-> & u & rest' & -> & Hpos & Hunmined). split; [done|].
    exists u. rewrite Hsplit. repeat split; try done.
    apply elem_of_app. right. left.
Qed.

Lemma createSpendsEntries_outcome w entries :
  ∀ sender notesToSpend,
    onlyMarksSpent sender (createSpendsEntries w entries sender notesToSpend).1
    ∧ match (createSpendsEntries w entries sender notesToSpend).2 with
      | Ok spends =>
          ∃ parts, spends = notesToSpend ++ concat parts ∧ Forall2 covers entries parts
      | Throw (NotEnoughFundsError assetId amount amountNeeded) =>
          (assetId, amountNeeded) ∈ entries ∧ amount < amountNeeded
      | Throw AssertionError => True
      | Throw (Error _) => False
      end.
Proof.
  induction entries as [|[assetId amountNeeded] rest IH]; intros sender notesToSpend.
  { simpl. split; [apply onlyMarksSpent_refl|]. exists []. by rewrite app_nil_r. }
  cbn [createSpendsEntries].
  pose proof (createSpendsForAsset_onlyMarksSpent w sender assetId amountNeeded) as Hstore.
  pose proof (createSpendsLoop_outcome w amountNeeded
                (getUnspentNotes w sender assetId None) sender 0 [])
    as (examined & rest' & _ & _ & Hresult).
  fold (createSpendsForAsset w sender assetId amountNeeded) in Hresult.
  destruct (createSpendsForAsset w sender assetId amountNeeded)
    as [sender1 [[amount notes]|e]]; cbn [fst snd] in *.
  - destruct Hresult as (-> & -> & _). cbn [app] in *.
    destruct (Z.ltb_spec (0 + amountOf (selection w examined)) amountNeeded)
      as [Hshort|Henough]; cbn [fst snd].
    + split; [done|]. split; [left|lia].
    + destruct (IH sender1 (notesToSpend ++ selection w examined)) as [Hstore' Hrest].
      split; [by eapply onlyMarksSpent_trans|].
      destruct (createSpendsEntries w rest sender1 _).2 as [spends|[a amt needed| |m]];
        try done.
      * destruct Hrest as (parts & -> & Hparts).
        exists (selection w examined :: parts). cbn [concat].
        rewrite <- app_assoc. split; [done|].
        apply Forall2_cons. split; [unfold covers; simpl; lia|done].
      * destruct Hrest as [Hin Hlt]. split; [by right|done].
  - destruct Hresult as [-> _]. by split.
Qed.

(** X17: [createSpends]: when it returns, the notes are, asset by asset in the
    order of the amounts needed, notes worth at least the amount needed of
    that asset.  When it throws [NotEnoughFundsError(assetId, amount,
    amountNeeded)], the asset and the amount needed are an entry of the
    amounts needed and the amount found is below it; the only other throw is
    the selector's assertion error.  The sender's store changes by [spent]
    flags only. *)
Theorem createSpends_covers w sender amountsNeeded :
  onlyMarksSpent sender (createSpends w sender amountsNeeded).1
  ∧ match (createSpends w sender amountsNeeded).2 with
    | Ok spends =>
        ∃ parts, spends = concat parts ∧ Forall2 covers amountsNeeded parts
    | Throw (NotEnoughFundsError assetId amount amountNeeded) =>
        (assetId, amountNeeded) ∈ amountsNeeded ∧ amount < amountNeeded
    | Throw AssertionError => True
    | Throw (Error _) => False
    end.
Proof. apply (createSpendsEntries_outcome w amountsNeeded sender []). Qed.

(** *** The amounts needed and the funding of a transaction *)

Lemma bufferMapGet_set key key' value m :
  bufferMapGet key' (bufferMapSet key value m)
  = if String.eqb key key' then Some value else bufferMapGet key' m.
Proof.
  unfold bufferMapGet. induction m as [|[k v] rest IH]; simpl.
  - by destruct (String.eqb key key').
  - destruct (String.eqb_spec k key) as [->|Hk]; simpl.
    + by destruct (String.eqb key key').
    + destruct (String.eqb_spec k key') as [->|Hk']; simpl; [|done].
      by rewrite (proj2 (String.eqb_neq key key')).
Qed.

Lemma bufferMapSet_keys key value m x :
  x ∈ (bufferMapSet key value m).*1 → x = key ∨ x ∈ m.*1.
Proof.
  induction m as [|[k v] rest IH]; simpl.
  - intros Hx. apply list_elem_of_singleton in Hx. by left.
  - destruct (String.eqb k key); simpl; [by right|].
    intros Hx. apply elem_of_cons in Hx as [->|Hx]; [right; left|].
    destruct (IH Hx) as [->|Hin]; [by left|right; by right].
Qed.

Lemma bufferMapSet_NoDup key value m :
  NoDup m.*1 → NoDup (bufferMapSet key value m).*1.
Proof.
  induction m as [|[k v] rest IH]; simpl; intros Hnd.
  - apply NoDup_singleton.
  - destruct (String.eqb_spec k key) as [->|Hk]; simpl; [done|].
    apply NoDup_cons in Hnd as [Hk' Hnd]. apply NoDup_cons. split; [|by apply IH].
    intros Hin. by destruct (bufferMapSet_keys _ _ _ _ Hin) as [->|Hin'].
Qed.

Lemma total_bufferMapSet key value m :
  total (bufferMapSet key value m) = total m - default 0 (bufferMapGet key m) + value.
Proof.
  unfold bufferMapGet. induction m as [|[k v] rest IH]; simpl; [lia|].
  destruct (String.eqb k key); simpl; [lia|]. rewrite IH. lia.
Qed.

Lemma demand_absent assetId amounts : assetId ∉ amounts.*1 → demand assetId amounts = 0.
Proof.
  induction amounts as [|[k v] rest IH]; simpl; [done|]. intros Hnot.
  apply not_elem_of_cons in Hnot as [Hne Hnot].
  rewrite (proj2 (String.eqb_neq k assetId)) by done. by apply IH.
Qed.

(** One step of the loops of [buildAmountsNeeded]. *)
Lemma buildAmountsNeeded_foldl nativeId raw fee :
  buildAmountsNeeded nativeId raw fee
  = foldl (λ (amountsNeeded : list (Buffer * Z)) (p : Buffer * Z),
             bufferMapSet p.1 (default 0 (bufferMapGet p.1 amountsNeeded) + p.2)
                          amountsNeeded)
          [] (outputs nativeId raw fee).
Proof.
  unfold buildAmountsNeeded, outputs. cbn [foldl]. by rewrite foldl_app, foldl_fmap.
Qed.

Lemma amountsNeeded_foldl amounts :
  ∀ m,
    let m' :=
      foldl (λ (amountsNeeded : list (Buffer * Z)) (p : Buffer * Z),
               bufferMapSet p.1 (default 0 (bufferMapGet p.1 amountsNeeded) + p.2)
                            amountsNeeded)
            m amounts in
    (NoDup m.*1 → NoDup m'.*1)
    ∧ (∀ assetId,
         bufferMapGet assetId m'
         = if bool_decide (assetId ∈ amounts.*1)
           then Some (default 0 (bufferMapGet assetId m) + demand assetId amounts)
           else bufferMapGet assetId m)
    ∧ total m' = total m + total amounts
    ∧ (∀ p rest, m = p :: rest → ∃ value rest', m' = (p.1, value) :: rest').
Proof.
  induction amounts as [|[k v] rest IH]; intros m; cbn zeta.
  { simpl. split; [done|]. split; [done|]. split; [lia|].
    intros [k v] rest ->. by eexists _, _. }
  cbn [foldl fst snd].
  destruct (IH (bufferMapSet k (default 0 (bufferMapGet k m) + v) m))
    as (Hnd & Hget & Htotal & Hhead).
  split; [|split; [|split]].
  - intros Hm. by apply Hnd, bufferMapSet_NoDup.
  - intros assetId. rewrite Hget, bufferMapGet_set. cbn [fmap list_fmap fst demand foldr].
    fold (demand assetId rest).
    destruct (String.eqb_spec k assetId) as [->|Hne].
    + rewrite (bool_decide_eq_true_2 (assetId ∈ assetId :: rest.*1)) by left.
      case_bool_decide as Hin; simpl; [f_equal; lia|].
      rewrite (demand_absent _ _ Hin). f_equal. lia.
    + case_bool_decide as Hin.
      * rewrite bool_decide_eq_true_2 by by right. done.
      * rewrite bool_decide_eq_false_2; [done|].
        intros Hin'. apply elem_of_cons in Hin' as [->|Hin']; done.
  - rewrite Htotal, total_bufferMapSet. simpl. lia.
  - intros [k0 v0] rest0 ->. cbn [bufferMapSet] in Hhead |- *.
    destruct (String.eqb k0 k);
      destruct (Hhead _ _ eq_refl) as (value & rest' & ->); by eexists _, _.
Qed.

(** X18: [buildAmountsNeeded]: every asset has one entry, the native asset comes
    first, and the amount needed of an asset is the fee, for the native
    asset, plus the values of the notes created in the asset plus the values
    burned of it; an asset the transaction does not pay out has no entry. *)
Theorem buildAmountsNeeded_spec nativeId raw fee :
  NoDup (buildAmountsNeeded nativeId raw fee).*1
  ∧ (∃ value rest, buildAmountsNeeded nativeId raw fee = (nativeId, value) :: rest)
  ∧ ∀ assetId,
      bufferMapGet assetId (buildAmountsNeeded nativeId raw fee)
      = if bool_decide (assetId ∈ (outputs nativeId raw fee).*1)
        then Some (demand assetId (outputs nativeId raw fee))
        else None.
Proof.
  rewrite buildAmountsNeeded_foldl. unfold outputs. cbn [foldl fst snd].
  set (amounts := _ ++ RawTransaction.burns raw).
  destruct (amountsNeeded_foldl amounts
              (bufferMapSet nativeId (default 0 (bufferMapGet nativeId []) + fee) []))
    as (Hnd & Hget & _ & Hhead).
  split; [apply Hnd, NoDup_singleton|]. split; [by eapply (Hhead (nativeId, _))|].
  intros assetId. rewrite Hget. cbn [fmap list_fmap fst demand foldr].
  fold (demand assetId amounts). unfold bufferMapGet. simpl.
  destruct (String.eqb_spec nativeId assetId) as [->|Hne]; simpl.
  - rewrite (bool_decide_eq_true_2 (assetId ∈ assetId :: amounts.*1)) by left.
    case_bool_decide as Hin; [done|]. by rewrite (demand_absent _ _ Hin), Z.add_0_r.
  - case_bool_decide as Hin.
    + rewrite bool_decide_eq_true_2 by by right. done.
    + rewrite bool_decide_eq_false_2; [done|].
      intros Hin'. apply elem_of_cons in Hin' as [->|Hin']; done.
Qed.

Lemma buildAmountsNeeded_total nativeId raw fee :
  total (buildAmountsNeeded nativeId raw fee) = total (outputs nativeId raw fee).
Proof.
  rewrite buildAmountsNeeded_foldl.
  destruct (amountsNeeded_foldl (outputs nativeId raw fee) []) as (_ & _ & -> & _).
  simpl. lia.
Qed.

Lemma amountOf_app (spends1 spends2 : list Spend) :
  amountOf (spends1 ++ spends2) = amountOf spends1 + amountOf spends2.
Proof.
  induction spends1 as [|spend rest IH]; simpl; [done|]. rewrite IH. lia.
Qed.

Lemma covers_total entries parts :
  Forall2 covers entries parts → total entries ≤ amountOf (concat parts).
Proof.
  induction 1 as [|entry part entries parts Hcovers _ IH]; simpl; [done|].
  rewrite amountOf_app. unfold covers in Hcovers. lia.
Qed.

Lemma pushSpends_spends raw spends :
  RawTransaction.spends (pushSpends raw spends) = RawTransaction.spends raw ++ spends.
Proof.
  unfold pushSpends. simpl. f_equal.
  induction spends as [|[note [treeSize rootHash authenticationPath]] rest IH]; simpl;
    [done|]. f_equal. exact IH.
Qed.

(** X19: [createTransaction]: when it returns a raw transaction, the expiration
    chosen is not expired at the chain's head, the sender is registered and
    up to date with the chain processor, the transaction carries the
    sender's spending key, the fee, the mints, the burns and one note per
    receive, and its spends are, asset by asset, worth the amount needed at
    least: together they are worth at least the fee plus the values received
    plus the values burned.  The sender's store changes by [spent] flags
    only. *)
Theorem createTransaction_funded nativeId w sender receives mints burns fee
    expirationDelta expiration sender' raw mints' :
  createTransaction nativeId w sender receives mints burns fee expirationDelta expiration
  = (sender', Ok (raw, mints')) →
  isExpiredSequence (RawTransaction.expiration raw)
                    (BlockHeader.sequence (Blockchain.head (Wallet.chain w))) = false
  ∧ RawTransaction.expiration raw
    = default (BlockHeader.sequence (Blockchain.head (Wallet.chain w)) + expirationDelta)
              expiration
  ∧ accountExists w (Account.name sender) = true
  ∧ isAccountUpToDate w sender = Ok true
  ∧ mints' = mints
  ∧ RawTransaction.spendingKey raw = Account.spendingKey sender
  ∧ RawTransaction.fee raw = fee
  ∧ RawTransaction.burns raw = burns
  ∧ RawTransaction.receives raw
    = (λ receive, Note.mk (Receive.amount receive) (Receive.assetId receive)
                    (Receive.memo receive)) <$> receives
  ∧ (∃ parts,
       RawTransaction.spends raw = concat parts
       ∧ Forall2 covers (buildAmountsNeeded nativeId raw fee) parts)
  ∧ total (outputs nativeId raw fee) ≤ amountOf (RawTransaction.spends raw)
  ∧ onlyMarksSpent sender sender'.
Proof.
  unfold createTransaction, assertHasAccount. intros Hrun.
  destruct (isExpiredSequence _ _) eqn:Hexpired; [done|].
  destruct (accountExists w (Account.name sender)) eqn:Hexists; [|done].
  destruct (isAccountUpToDate w sender) as [[]|e] eqn:Hhead; [|done..].
  cbn [negb] in Hrun. unfold fund in Hrun.
  set (raw0 := RawTransaction.mk _ _ _ _ _ _) in Hrun.
  destruct (createSpendsEntries_outcome w (buildAmountsNeeded nativeId raw0 fee) sender [])
    as [Hstore Hresult].
  fold (createSpends w sender (buildAmountsNeeded nativeId raw0 fee)) in Hstore, Hresult.
  destruct (createSpends w sender (buildAmountsNeeded nativeId raw0 fee))
    as [sender1 [spends|e]]; [|done].
  injection Hrun as <- <- <-. cbn [fst snd] in *.
  destruct Hresult as (parts & -> & Hparts). cbn [app] in *.
  assert (Hneeded : buildAmountsNeeded nativeId (pushSpends raw0 (concat parts)) fee
                    = buildAmountsNeeded nativeId raw0 fee) by done.
  assert (Houtputs : outputs nativeId (pushSpends raw0 (concat parts)) fee
                     = outputs nativeId raw0 fee) by done.
  rewrite Hneeded, Houtputs, pushSpends_spends. cbn [RawTransaction.spends raw0 app].
  do 9 (split; [done|]). split; [by exists parts|]. split; [|done].
  rewrite <- buildAmountsNeeded_total. by apply covers_total.
Qed.

Lemma bufferMapGet_elem_of key value m :
  NoDup m.*1 → (key, value) ∈ m → bufferMapGet key m = Some value.
Proof.
  unfold bufferMapGet. induction m as [|[k v] rest IH]; intros Hnd Hin.
  - by apply elem_of_nil in Hin.
  - apply NoDup_cons in Hnd as [Hk Hnd]. simpl.
    apply elem_of_cons in Hin as [[= -> ->]|Hin].
    + by rewrite String.eqb_refl.
    + destruct (String.eqb_spec k key) as [->|Hne]; [|by apply IH].
      destruct Hk. apply list_elem_of_fmap. by exists (key, value).
Qed.

(** X20: [createTransaction], when it throws.  An [Error] comes from one of the
    three checks made before anything is read from the sender's store, which
    is then untouched.  A [NotEnoughFundsError(assetId, amount,
    amountNeeded)] names an asset the transaction pays out, the amount needed
    is the fee, for the native asset, plus what is to be received and burned
    of the asset, and the amount found is below it.  The sender's store
    changes by [spent] flags only. *)
Theorem createTransaction_failure nativeId w sender receives mints burns fee
    expirationDelta expiration sender' e :
  createTransaction nativeId w sender receives mints burns fee expirationDelta expiration
  = (sender', Throw e) →
  onlyMarksSpent sender sender'
  ∧ match e with
    | Error _ =>
        sender' = sender
        ∧ (isExpiredSequence
             (default (BlockHeader.sequence (Blockchain.head (Wallet.chain w))
                       + expirationDelta) expiration)
             (BlockHeader.sequence (Blockchain.head (Wallet.chain w))) = true
           ∨ accountExists w (Account.name sender) = false
           ∨ isAccountUpToDate w sender = Ok false)
    | NotEnoughFundsError assetId amount amountNeeded =>
        assetId ∈ (requested nativeId receives burns fee).*1
        ∧ amountNeeded = demand assetId (requested nativeId receives burns fee)
        ∧ amount < amountNeeded
    | AssertionError => True
    end.
Proof.
  unfold createTransaction, assertHasAccount. intros Hrun.
  destruct (isExpiredSequence _ _) eqn:Hexpired.
  { injection Hrun as <- <-. split; [apply onlyMarksSpent_refl|]. split; [done|by left]. }
  destruct (accountExists w (Account.name sender)) eqn:Hexists.
  2: { injection Hrun as <- <-. split; [apply onlyMarksSpent_refl|].
       split; [done|]. right. by left. }
  destruct (isAccountUpToDate w sender) as [[]|e1] eqn:Hhead.
  2: { injection Hrun as <- <-. split; [apply onlyMarksSpent_refl|].
       split; [done|]. right. by right. }
  2: { injection Hrun as <- <-. split; [apply onlyMarksSpent_refl|].
       unfold isAccountUpToDate in Hhead.
       destruct (Account.headIsUndefined sender); [|done]. by injection Hhead as <-. }
  cbn [negb] in Hrun. unfold fund in Hrun.
  set (raw0 := RawTransaction.mk _ _ _ _ _ _) in Hrun.
  assert (Houtputs : outputs nativeId raw0 fee = requested nativeId receives burns fee).
  { unfold outputs, requested. subst raw0. simpl. by rewrite <- list_fmap_compose. }
  destruct (createSpendsEntries_outcome w (buildAmountsNeeded nativeId raw0 fee) sender [])
    as [Hstore Hresult].
  fold (createSpends w sender (buildAmountsNeeded nativeId raw0 fee)) in Hstore, Hresult.
  destruct (createSpends w sender (buildAmountsNeeded nativeId raw0 fee))
    as [sender1 [spends|e1]]; [done|].
  injection Hrun as <- <-. cbn [fst snd] in *. split; [done|].
  destruct e1 as [assetId amount amountNeeded| |message]; [|done..].
  destruct Hresult as [Hin Hlt].
  rewrite buildAmountsNeeded_foldl, Houtputs in Hin.
  destruct (amountsNeeded_foldl (requested nativeId receives burns fee) [])
    as (Hnd & Hget & _). cbn zeta in *.
  specialize (Hnd (NoDup_nil_2 (A:=Buffer))). specialize (Hget assetId).
  rewrite (bufferMapGet_elem_of _ _ _ Hnd Hin) in Hget.
  case_bool_decide as Hasset; [|done]. injection Hget as ->.
  simpl. by rewrite Z.add_0_l in *.
Qed.

(** *** A pass of rebroadcastTransactions *)

Lemma rebroadcasts_refl w : rebroadcasts w w [].
Proof. unfold rebroadcasts. by rewrite app_nil_r. Qed.

Lemma rebroadcasts_trans w1 w2 w3 sent1 sent2 :
  rebroadcasts w1 w2 sent1 → rebroadcasts w2 w3 sent2 →
  rebroadcasts w1 w3 (sent1 ++ sent2).
Proof.
  intros (Hlog1 & ? & ? & ? & ? & ? & ? & ? & Hacc1)
         (Hlog2 & ? & ? & ? & ? & ? & ? & ? & Hacc2).
  unfold rebroadcasts. rewrite Hlog2, Hlog1, app_assoc.
  repeat split; congruence.
Qed.

Lemma rebroadcastsValid_refl w : rebroadcastsValid w w.
Proof. exists []. split; [apply rebroadcasts_refl|done]. Qed.

Lemma rebroadcastsValid_trans w1 w2 w3 :
  rebroadcastsValid w1 w2 → rebroadcastsValid w2 w3 → rebroadcastsValid w1 w3.
Proof.
  intros (sent1 & Hfirst & Hvalid1) (sent2 & Hsecond & Hvalid2).
  exists (sent1 ++ sent2). split; [by eapply rebroadcasts_trans|].
  apply Forall_app. split; [done|].
  destruct Hfirst as (_ & <- & _). done.
Qed.

Lemma rebroadcastTransaction_rebroadcastsValid w head id transactionInfo :
  rebroadcastsValid w (rebroadcastTransaction w head id transactionInfo).
Proof.
  unfold rebroadcastTransaction.
  destruct (TransactionValue.blockHash transactionInfo) as [blockHash|] eqn:Hblock;
    [apply rebroadcastsValid_refl|].
  cbn [notNull].
  destruct (Z.ltb_spec (BlockHeader.sequence head
                        - TransactionValue.submittedSequence transactionInfo)
                       (Wallet.rebroadcastAfter w)) as [Hrecent|Hdue];
    [apply rebroadcastsValid_refl|].
  assert (Hsaved : ∀ id',
            withoutTransactions
              <$> alter (Account.saveTransaction
                           (Transaction.hash (TransactionValue.transaction transactionInfo))
                           (TransactionValue.withSubmittedSequence
                              (BlockHeader.sequence head) transactionInfo)) id
                        (Wallet.accounts w) !! id'
            = withoutTransactions <$> Wallet.accounts w !! id').
  { intros id'. destruct (decide (id = id')) as [<-|Hne].
    - rewrite lookup_alter_eq. by destruct (Wallet.accounts w !! id).
    - by rewrite lookup_alter_ne. }
  destruct (VerificationResult.valid _) eqn:Hvalid; cbn [negb].
  - exists [TransactionValue.transaction transactionInfo]. split.
    + unfold rebroadcasts. by repeat split.
    + by apply Forall_singleton.
  - exists []. split; [|done]. unfold rebroadcasts. simpl. rewrite app_nil_r.
    by repeat split.
Qed.

Lemma rebroadcastAccount_rebroadcastsValid w w1 head id account :
  rebroadcastsValid w w1 →
  rebroadcastsValid w (rebroadcastAccount w1 head id account).
Proof.
  intros Hinv. unfold rebroadcastAccount.
  apply (foldl_invariant (rebroadcastsValid w)); [|done].
  intros w2 txHash Hinv2.
  destruct (Wallet.eventLoopAborted w2); [done|].
  destruct (pendingTransactionAt w2 id txHash) as [transactionInfo|]; [|done].
  eapply rebroadcastsValid_trans; [done|].
  apply rebroadcastTransaction_rebroadcastsValid.
Qed.

(** X21: A pass of [rebroadcastTransactions] broadcasts only transactions that
    [verifyTransactionAdd] reports valid, and beside the broadcasts it changes
    nothing but transaction records of the registered accounts: no account is
    added or removed, and heads, notes, balances, the cursor and the other
    events stay as they are.  The pass does nothing at all on a wallet that is
    not started, whose chain is not synced, whose cursor has no hash or whose
    event loop has been aborted. *)
Theorem rebroadcastTransactions_broadcasts w :
  rebroadcastsValid w (rebroadcastTransactions w)
  ∧ (Wallet.isStarted w = false
     ∨ Blockchain.synced (Wallet.chain w) = false
     ∨ ChainProcessor.hash (Wallet.chainProcessor w) = None
     ∨ Wallet.eventLoopAborted w = true →
     rebroadcastTransactions w = w).
Proof.
  pose proof (rebroadcastsValid_refl w) as Hnone.
  unfold rebroadcastTransactions. split.
  - destruct (Wallet.isStarted w); [|done].
    destruct (Blockchain.synced (Wallet.chain w)); [|done]. cbn [negb].
    destruct (ChainProcessor.hash (Wallet.chainProcessor w)) as [hash|]; [|done].
    destruct (Blockchain.getHeader (Wallet.chain w) hash) as [head|]; [|done].
    apply (foldl_invariant (rebroadcastsValid w)); [|done].
    intros w1 [id account] Hinv. cbn [fst].
    destruct (Wallet.eventLoopAborted w1); [done|].
    destruct (getAccount w1 id) as [account1|]; [|done].
    by apply rebroadcastAccount_rebroadcastsValid.
  - intros [Hstarted|[Hsynced|[Hhash|Haborted]]].
    + by rewrite Hstarted.
    + rewrite Hsynced. by destruct (Wallet.isStarted w).
    + rewrite Hhash. by destruct (Wallet.isStarted w), (Blockchain.synced (Wallet.chain w)).
    + destruct (Wallet.isStarted w); [|done].
      destruct (Blockchain.synced (Wallet.chain w)); [|done]. cbn [negb].
      destruct (ChainProcessor.hash (Wallet.chainProcessor w)) as [hash|]; [|done].
      destruct (Blockchain.getHeader (Wallet.chain w) hash) as [head|]; [|done].
      apply (foldl_invariant (λ w1, w1 = w)); [|done].
      intros w1 p ->. by rewrite Haborted.
Qed.

(** *** addPendingTransaction *)

(** X22: [addPendingTransaction] leaves alone an account that already has the
    transaction, and when every registered account has it the wallet is not
    touched at all.  An account that does not have it gets it as a pending
    transaction, submitted at the sequence of the chain's head, exactly when
    some of its notes decrypt for the account. *)
Theorem addPendingTransaction_known w transaction :
  (∀ id account,
     Wallet.accounts w !! id = Some account →
     Wallet.accounts (addPendingTransaction w transaction) !! id
     = Some
         (if Account.hasTransaction (Transaction.hash transaction) account then account
          else
            match (decryptNotesForAccount w transaction None account).1 with
            | [] => account
            | decryptedNotes =>
                Account.withDb
                  (addPendingTransactionToAccount transaction decryptedNotes
                     (BlockHeader.sequence (Blockchain.head (Wallet.chain w))))
                  account
            end))
  ∧ ((∀ id account,
        Wallet.accounts w !! id = Some account →
        Account.hasTransaction (Transaction.hash transaction) account = true) →
     addPendingTransaction w transaction = w).
Proof.
  split.
  - intros id account Hin.
    destruct (addPendingTransaction_accounts w transaction) as (_ & _ & Hlookup).
    rewrite (Hlookup id account Hin). f_equal. cbn zeta.
    destruct (Account.hasTransaction (Transaction.hash transaction) account); [done|].
    cbn [orb]. by destruct (decryptNotesForAccount w transaction None account).1.
  - intros Hall. unfold addPendingTransaction. rewrite filter_none; [done|].
    intros [id account] Hin. apply elem_of_map_to_list in Hin. cbn [snd].
    by rewrite (Hall id account Hin).
Qed.

(** *** scanTransactions *)

Lemma connectTransactions_token w blockHeader id transactions :
  ∀ scan account,
    is_Some scan →
    match connectTransactions w blockHeader id transactions scan account with
    | Finished _ scan' => is_Some scan'
    | ScanAborted _ scan' => is_Some scan'
    end.
Proof.
  induction transactions as [|[transaction initialNoteIndex] rest IH];
    intros scan account Hscan; [done|].
  cbn [connectTransactions].
  destruct (scanIsAborted scan); [cbn iota; by apply fmap_is_Some|].
  destruct (_ !! id); apply IH; [by apply fmap_is_Some|done].
Qed.

Lemma connectBlock_live w blockHeader scan :
  scanIsAborted scan = false →
  scanIsAborted (connectBlock w blockHeader scan).2 = false
  ∧ Wallet.chain (connectBlock w blockHeader scan).1 = Wallet.chain w
  ∧ Wallet.chainProcessor (connectBlock w blockHeader scan).1 = Wallet.chainProcessor w
  ∧ Wallet.isOpen (connectBlock w blockHeader scan).1 = Wallet.isOpen w
  ∧ Wallet.scan (connectBlock w blockHeader scan).1 = Wallet.scan w
  ∧ (is_Some scan → is_Some (connectBlock w blockHeader scan).2).
Proof.
  intros Hscan. unfold connectBlock.
  apply (foldl_invariant
           (λ st : Wallet.t * option ScanState.t,
              scanIsAborted st.2 = false
              ∧ Wallet.chain st.1 = Wallet.chain w
              ∧ Wallet.chainProcessor st.1 = Wallet.chainProcessor w
              ∧ Wallet.isOpen st.1 = Wallet.isOpen w
              ∧ Wallet.scan st.1 = Wallet.scan w
              ∧ (is_Some scan → is_Some st.2))); [|done].
  intros [w1 scan1] [k a] (Hscan1 & Hchain & Hcursor & Hopen & Hlock & Htoken).
  cbn [fst snd] in *. unfold getAccount.
  destruct (Wallet.accounts w1 !! k) as [account1|]; [|done].
  unfold connectBlockForAccount.
  pose proof (connectTransactions_token w1 blockHeader k
                (Blockchain.getBlockTransactions (Wallet.chain w1) blockHeader)
                scan1 account1) as Htoken1.
  destruct (connectTransactions_not_aborted w1 w1 blockHeader k
              (Blockchain.getBlockTransactions (Wallet.chain w1) blockHeader)
              eq_refl scan1 account1 Hscan1) as (scan' & Hrun & Hscan').
  rewrite Hrun in Htoken1 |- *. cbn [fst snd].
  do 5 (split; [done|]). intros Hsome. by apply Htoken1, Htoken.
Qed.

Lemma connectBlock_heads w blockHeader scan :
  scanIsAborted scan = false →
  ∀ id,
    Account.getHead <$> Wallet.accounts (connectBlock w blockHeader scan).1 !! id
    = (λ account, followHeaders (Account.getHead account) [blockHeader])
        <$> Wallet.accounts w !! id.
Proof.
  intros Hscan id. rewrite connectBlock_lookup by done.
  destruct (Wallet.accounts w !! id) as [account|]; [|done]. simpl. f_equal.
  unfold connectBlockFilter, accepts, equalsNullable.
  destruct (Account.getHead account) as [accountHead|] eqn:Hhead.
  - destruct (String.eqb _ _); [done|]. by rewrite Hhead.
  - destruct (_ =? 1); [done|]. by rewrite Hhead.
Qed.

Lemma scanBlocks_heads blockHeaders :
  ∀ w scan,
    scanIsAborted scan = false →
    scanIsAborted (scanBlocks w scan blockHeaders).2 = false
    ∧ Wallet.chain (scanBlocks w scan blockHeaders).1 = Wallet.chain w
    ∧ Wallet.chainProcessor (scanBlocks w scan blockHeaders).1 = Wallet.chainProcessor w
    ∧ Wallet.isOpen (scanBlocks w scan blockHeaders).1 = Wallet.isOpen w
    ∧ Wallet.scan (scanBlocks w scan blockHeaders).1 = Wallet.scan w
    ∧ (is_Some scan → is_Some (scanBlocks w scan blockHeaders).2)
    ∧ ∀ id,
        Account.getHead <$> Wallet.accounts (scanBlocks w scan blockHeaders).1 !! id
        = (λ account, followHeaders (Account.getHead account) blockHeaders)
            <$> Wallet.accounts w !! id.
Proof.
  induction blockHeaders as [|blockHeader rest IH]; intros w scan Hscan.
  { do 6 (split; [done|]). intros id. simpl.
    by destruct (Wallet.accounts w !! id). }
  unfold scanBlocks. cbn [foldl fst snd].
  destruct (connectBlock_live w blockHeader scan Hscan)
    as (Hscan1 & Hchain & Hcursor & Hopen & Hlock & Htoken).
  pose proof (connectBlock_heads w blockHeader scan Hscan) as Hheads.
  destruct (connectBlock w blockHeader scan) as [w1 scan1]. cbn [fst snd] in *.
  fold (scanBlocks w1 scan1 rest).
  destruct (IH w1 scan1 Hscan1)
    as (Hscan2 & Hchain2 & Hcursor2 & Hopen2 & Hlock2 & Htoken2 & Hheads2).
  do 5 (split; [congruence|]). split; [by intros Hsome; apply Htoken2, Htoken|].
  intros id. rewrite Hheads2. specialize (Hheads id).
  destruct (Wallet.accounts w1 !! id) as [account1|],
           (Wallet.accounts w !! id) as [account|]; try done.
  simpl in *. injection Hheads as ->. done.
Qed.

Lemma last_cons {A} (x d : A) (l : list A) : List.last (x :: l) d = List.last l x.
Proof.
  revert x d. induction l as [|y l IH]; intros x d; [done|].
  change (List.last (x :: y :: l) d) with (List.last (y :: l) d).
  by rewrite !IH.
Qed.

Lemma followHeaders_cons head blockHeader blockHeaders :
  followHeaders head (blockHeader :: blockHeaders)
  = followHeaders
      (if accepts head blockHeader
       then Some (HeadValue.mk (BlockHeader.hash blockHeader)
                               (BlockHeader.sequence blockHeader))
       else head)
      blockHeaders.
Proof. done. Qed.

Lemma followHeaders_linked blockHeaders :
  ∀ blockHeader head,
    accepts head blockHeader = true →
    linked blockHeader blockHeaders →
    followHeaders head (blockHeader :: blockHeaders)
    = Some (HeadValue.mk (BlockHeader.hash (List.last blockHeaders blockHeader))
                         (BlockHeader.sequence (List.last blockHeaders blockHeader))).
Proof.
  induction blockHeaders as [|next rest IH]; intros blockHeader head Haccepts Hlinked.
  { rewrite followHeaders_cons, Haccepts. done. }
  destruct Hlinked as [Hprevious Hlinked].
  rewrite followHeaders_cons, Haccepts.
  rewrite IH; [by rewrite last_cons| |done].
  simpl. rewrite Hprevious. apply String.eqb_refl.
Qed.

(** X23: The loop of a scan with a live token: an account that accepts the first
    of a run of linked block headers has the last of them as its head after
    the loop. *)
Theorem scanBlocks_reaches_last w scan id account blockHeader blockHeaders :
  scanIsAborted scan = false →
  Wallet.accounts w !! id = Some account →
  headAccepts blockHeader account →
  linked blockHeader blockHeaders →
  Account.getHead
    <$> Wallet.accounts (scanBlocks w scan (blockHeader :: blockHeaders)).1 !! id
  = Some (Some (HeadValue.mk
                  (BlockHeader.hash (List.last blockHeaders blockHeader))
                  (BlockHeader.sequence (List.last blockHeaders blockHeader)))).
Proof.
  intros Hscan Hin Haccepts Hlinked.
  destruct (scanBlocks_heads (blockHeader :: blockHeaders) w scan Hscan)
    as (_ & _ & _ & _ & _ & _ & Hheads).
  rewrite Hheads, Hin. simpl. f_equal. apply followHeaders_linked; [|done].
  unfold headAccepts in Haccepts. unfold accepts.
  destruct (Account.getHead account) as [accountHead|].
  - by apply String.eqb_eq.
  - by apply Z.eqb_eq.
Qed.

Lemma connectTransactionsStoppable_never w blockHeader id transactions :
  ∀ scan account,
    connectTransactionsStoppable w blockHeader id transactions None scan account
    = (connectTransactions w blockHeader id transactions scan account, None).
Proof.
  induction transactions as [|[transaction initialNoteIndex] rest IH];
    intros scan account; [done|].
  cbn [connectTransactionsStoppable connectTransactions nextRead].
  destruct (scanIsAborted scan); [done|].
  destruct (_ !! id); apply IH.
Qed.

Lemma connectBlockStoppable_never w blockHeader scan :
  connectBlockStoppable w blockHeader None scan = (connectBlock w blockHeader scan, None).
Proof.
  unfold connectBlockStoppable, connectBlock.
  generalize (List.filter (λ p, connectBlockFilter blockHeader p.2) (listAccounts w)).
  intros accounts. revert w scan.
  induction accounts as [|[k a] rest IH]; intros w scan; [done|].
  cbn [foldl fst snd]. unfold getAccount.
  destruct (Wallet.accounts w !! k) as [account|]; [|apply IH].
  unfold connectBlockForAccountStoppable, connectBlockForAccount.
  rewrite connectTransactionsStoppable_never.
  destruct (connectTransactions w blockHeader k _ scan account); apply IH.
Qed.

Lemma scanBlocksStoppable_never blockHeaders :
  ∀ w scan,
    scanBlocksStoppable w None scan blockHeaders = (scanBlocks w scan blockHeaders, None).
Proof.
  unfold scanBlocksStoppable, scanBlocks.
  induction blockHeaders as [|blockHeader rest IH]; intros w scan; [done|].
  cbn [foldl fst snd]. rewrite connectBlockStoppable_never.
  destruct (connectBlock w blockHeader scan) as [w1 scan1]. apply IH.
Qed.

Lemma nextRead_token stop scan : is_Some scan → is_Some (nextRead stop scan).2.
Proof. intros Hscan. destruct stop as [[|n]|]; [by apply fmap_is_Some|done..]. Qed.

Lemma connectTransactionsStoppable_token w blockHeader id transactions :
  ∀ stop scan account,
    is_Some scan →
    match (connectTransactionsStoppable w blockHeader id transactions stop scan account).1
    with
    | Finished _ scan' => is_Some scan'
    | ScanAborted _ scan' => is_Some scan'
    end.
Proof.
  induction transactions as [|[transaction initialNoteIndex] rest IH];
    intros stop scan account Hscan; [done|].
  cbn [connectTransactionsStoppable].
  pose proof (nextRead_token stop scan Hscan) as Hread.
  destruct (nextRead stop scan) as [stop1 scan1]. cbn [snd] in Hread.
  destruct (scanIsAborted scan1); [cbn [fst]; by apply fmap_is_Some|].
  destruct (_ !! id); apply IH; [by apply fmap_is_Some|done].
Qed.

Lemma connectBlockStoppable_keeps w scan w1 blockHeader stop1 scan1 :
  scanKeeps w scan (w1, scan1, stop1) →
  scanKeeps w scan (connectBlockStoppable w1 blockHeader stop1 scan1).
Proof.
  intros Hkeeps. unfold connectBlockStoppable.
  apply (foldl_invariant (scanKeeps w scan)); [|done].
  intros [[w2 scan2] stop2] [k a] (Hopen & Hlock & Htoken).
  cbn [fst snd] in *. unfold getAccount.
  destruct (Wallet.accounts w2 !! k) as [account2|]; [|done].
  unfold connectBlockForAccountStoppable.
  pose proof (connectTransactionsStoppable_token w2 blockHeader k
                (Blockchain.getBlockTransactions (Wallet.chain w2) blockHeader)
                stop2 scan2 account2) as Htoken2.
  destruct (connectTransactionsStoppable w2 blockHeader k _ stop2 scan2 account2)
    as [[account3 scan3|account3 scan3] stop3]; cbn [fst snd] in *.
  - split; [done|]. split; [done|]. intros Hsome. by apply Htoken2, Htoken.
  - split; [done|]. split; [by right|]. intros Hsome. by apply Htoken2, Htoken.
Qed.

Lemma scanBlocksStoppable_keeps w stop scan blockHeaders :
  scanKeeps w scan (scanBlocksStoppable w stop scan blockHeaders).
Proof.
  unfold scanBlocksStoppable.
  apply (foldl_invariant (scanKeeps w scan)); [|by split; [|split; [left|]]].
  intros [[w1 scan1] stop1] blockHeader Hkeeps. cbn [fst snd].
  by apply connectBlockStoppable_keeps.
Qed.

Lemma scanTransactions_locked
    (iterateBlockHeaders : Buffer → Buffer → list BlockHeader.t) stop w fromHash :
  Wallet.isOpen w = true → Wallet.scan w ≠ None →
  scanTransactions iterateBlockHeaders stop w fromHash = (w, Ok ())
  ∧ shouldRescan w = Ok false.
Proof.
  intros Hopen Hlock. unfold scanTransactions, shouldRescan. rewrite Hopen.
  by destruct (Wallet.scan w).
Qed.

Lemma scanTransactions_run
    (iterateBlockHeaders : Buffer → Buffer → list BlockHeader.t) stop w fromHash :
  Wallet.isOpen w = true → Wallet.scan w = None →
  match (scanTransactions iterateBlockHeaders stop w fromHash).2 with
  | Ok _ =>
      Wallet.scan (scanTransactions iterateBlockHeaders stop w fromHash).1 = None
  | Throw e =>
      e = AssertionError
      ∧ Wallet.isOpen (scanTransactions iterateBlockHeaders stop w fromHash).1 = true
      ∧ (stop = None →
         Wallet.scan (scanTransactions iterateBlockHeaders stop w fromHash).1 ≠ None)
  end.
Proof.
  intros Hopen Hidle.
  unfold scanTransactions. rewrite Hopen, Hidle. cbn [negb notNull].
  cbn [Wallet.chain Wallet.withScan Wallet.chainProcessor].
  destruct (Blockchain.getHeader (Wallet.chain w) _) as [beginHeader|]; [|done].
  destruct (Blockchain.getHeader (Wallet.chain w) (default _ _)) as [endHeader|]; [|done].
  set (token := setScanRange _ _ newScanState).
  destruct (nextRead stop (Some token)) as [stop1 scan1] eqn:Hread.
  destruct (scanIsAborted scan1 || String.eqb _ _); [done|].
  set (w0 := Wallet.withScan scan1 (Wallet.withScan _ w)).
  set (blockHeaders := iterateBlockHeaders _ _).
  destruct (scanBlocksStoppable_keeps w0 stop1 scan1 blockHeaders) as (Hopen1 & _ & _).
  destruct (scanBlocksStoppable w0 stop1 scan1 blockHeaders) as [[w1 scan2] stop2] eqn:Hloop.
  cbn [fst snd] in *.
  destruct (ChainProcessor.hash (Wallet.chainProcessor w1)); [done|].
  destruct (getLatestHeadHash w1); [done|]. cbn [fst snd].
  change (Wallet.isOpen w0) with (Wallet.isOpen w) in Hopen1.
  split; [done|]. split; [destruct (notNull (Wallet.scan w1)); simpl; congruence|].
  intros ->. injection Hread as <- <-.
  rewrite scanBlocksStoppable_never in Hloop. injection Hloop as Hloop _.
  destruct (scanBlocks_heads blockHeaders w0 (Some token) eq_refl)
    as (_ & _ & _ & _ & Hlock1 & Htoken & _).
  rewrite Hloop in Hlock1, Htoken. cbn [fst snd] in Hlock1, Htoken.
  rewrite Hlock1. change (Wallet.scan w0) with (Some token).
  cbn [notNull Wallet.scan Wallet.withScan].
  destruct (Htoken (mk_is_Some _ _ eq_refl)) as [token1 ->]. done.
Qed.

(** X24: The lock of [scanTransactions], [this.scan], with [stop()] aborting
    the scan at any point or not at all.  A scan of an open, idle wallet that
    returns has released the lock.  A scan that throws has failed one of its
    assertions; when [stop()] did not abort it, the lock stays taken; and
    whenever the lock stays taken, [shouldRescan] answers [false] from then
    on and every later [scanTransactions] returns at once and scans nothing.
    (A scan that [stop()] aborts in the block loop can fail the last
    assertion after [connectBlock] has cleared the lock.) *)
Theorem scanTransactions_lock
    (iterateBlockHeaders : Buffer → Buffer → list BlockHeader.t) stop w fromHash :
  Wallet.isOpen w = true → Wallet.scan w = None →
  match (scanTransactions iterateBlockHeaders stop w fromHash).2 with
  | Ok _ =>
      Wallet.scan (scanTransactions iterateBlockHeaders stop w fromHash).1 = None
  | Throw e =>
      e = AssertionError
      ∧ (stop = None →
         Wallet.scan (scanTransactions iterateBlockHeaders stop w fromHash).1 ≠ None)
      ∧ (Wallet.scan (scanTransactions iterateBlockHeaders stop w fromHash).1 ≠ None →
         shouldRescan (scanTransactions iterateBlockHeaders stop w fromHash).1 = Ok false
         ∧ ∀ (iterateBlockHeaders2 : Buffer → Buffer → list BlockHeader.t)
             stop2 fromHash2,
             scanTransactions iterateBlockHeaders2 stop2
               (scanTransactions iterateBlockHeaders stop w fromHash).1 fromHash2
             = ((scanTransactions iterateBlockHeaders stop w fromHash).1, Ok ()))
  end.
Proof.
  intros Hopen Hidle.
  pose proof (scanTransactions_run iterateBlockHeaders stop w fromHash Hopen Hidle) as Hrun.
  destruct (scanTransactions iterateBlockHeaders stop w fromHash)
    as [w' [[]|e]]; cbn [fst snd] in *; [done|].
  destruct Hrun as (-> & Hopen' & Hlock'). split; [done|]. split; [done|].
  intros Hlocked.
  split; [|intros it2 stop2 from2]; by apply scanTransactions_locked.
Qed.

(** X25: The heads after a scan of an open, idle wallet whose begin and end
    headers are on the chain, when [stop()] does not abort the scan in the
    block loop: when the token is aborted before the scan looks at it, or the
    scan begins where it ends, no head moves; when the token is not aborted
    and the scan does not begin where it ends, the head of every account has
    followed the block headers from the begin hash to the end hash, moving to
    each header it accepts.  No account is added or removed. *)
Theorem scanTransactions_heads
    (iterateBlockHeaders : Buffer → Buffer → list BlockHeader.t) stop w fromHash :
  let beginHash := scanTransactionsBeginHash w fromHash in
  let endHash :=
    default (BlockHeader.hash (Blockchain.head (Wallet.chain w)))
            (ChainProcessor.hash (Wallet.chainProcessor w)) in
  Wallet.isOpen w = true → Wallet.scan w = None →
  is_Some (Blockchain.getHeader (Wallet.chain w) beginHash) →
  is_Some (Blockchain.getHeader (Wallet.chain w) endHash) →
  stop = None ∨ stop = Some 0%nat →
  ∀ id,
    Account.getHead
      <$> Wallet.accounts (scanTransactions iterateBlockHeaders stop w fromHash).1 !! id
    = (λ account,
         if notNull stop || String.eqb beginHash endHash
         then Account.getHead account
         else followHeaders (Account.getHead account)
                            (iterateBlockHeaders beginHash endHash))
        <$> Wallet.accounts w !! id.
Proof.
  intros beginHash endHash Hopen Hidle [beginHeader Hbegin] [endHeader Hend] Hstop id.
  unfold scanTransactions. rewrite Hopen, Hidle. cbn [negb notNull].
  cbn [Wallet.chain Wallet.withScan Wallet.chainProcessor].
  change (scanTransactionsBeginHash (Wallet.withScan (Some newScanState) w) fromHash)
    with beginHash.
  fold endHash. rewrite Hbegin, Hend.
  destruct Hstop as [-> | ->]; [|simpl; by destruct (Wallet.accounts w !! id)].
  cbn [nextRead scanIsAborted ScanState.isAborted setScanRange newScanState orb notNull].
  destruct (String.eqb beginHash endHash); [simpl; by destruct (Wallet.accounts w !! id)|].
  rewrite scanBlocksStoppable_never.
  set (w0 := Wallet.withScan _ (Wallet.withScan _ w)).
  set (token := setScanRange _ _ newScanState).
  destruct (scanBlocks_heads (iterateBlockHeaders beginHash endHash) w0 (Some token) eq_refl)
    as (_ & _ & _ & _ & _ & _ & Hheads).
  specialize (Hheads id). change (Wallet.accounts w0) with (Wallet.accounts w) in Hheads.
  rewrite <- Hheads.
  destruct (scanBlocks w0 (Some token) _) as [w1 scan1]. cbn [fst snd].
  destruct (ChainProcessor.hash (Wallet.chainProcessor w1)); [done|].
  destruct (getLatestHeadHash w1); [done|]. cbn [fst].
  by destruct (notNull (Wallet.scan w1)).
Qed.

(** *** close *)

(** X26: A closed wallet: [close] leaves no account and no default account, no
    rescan is due, [scanTransactions] refuses to scan, a pass of
    [rebroadcastTransactions] does nothing, and closing again changes
    nothing. *)
Theorem close_wallet
    (iterateBlockHeaders : Buffer → Buffer → list BlockHeader.t) stop w fromHash :
  Wallet.isOpen w = true →
  listAccounts (close w) = []
  ∧ getDefaultAccount (close w) = None
  ∧ (∀ name, getAccountByName (close w) name = None)
  ∧ shouldRescan (close w) = Ok false
  ∧ (∃ message,
       scanTransactions iterateBlockHeaders stop (close w) fromHash
       = (close w, Throw (Error message)))
  ∧ rebroadcastTransactions (close w) = close w
  ∧ close (close w) = close w.
Proof.
  intros Hopen. unfold close. rewrite Hopen. cbn [negb].
  set (w' := unload _).
  assert (Haccounts : listAccounts w' = []) by (unfold listAccounts; simpl; apply map_to_list_empty).
  split; [done|]. split; [done|].
  split; [intros name; unfold getAccountByName; by rewrite Haccounts|].
  split; [unfold shouldRescan; rewrite Haccounts; by destruct (notNull _)|].
  split; [by eexists|]. split; [|done].
  unfold rebroadcastTransactions. simpl.
  by destruct (Wallet.isStarted w), (Blockchain.synced (Wallet.chain w)).
Qed.

(** *** A scan when no rescan is due *)

(** X27: When [shouldRescan] is [false] for an open, idle wallet that has accounts
    and whose cursor is at a hash on the chain, every account is at the
    cursor, the scan would begin where it ends, and [scanTransactions]
    returns at once: the wallet is the one there was. *)
Theorem scanTransactions_up_to_date
    (iterateBlockHeaders : Buffer → Buffer → list BlockHeader.t) stop w hash :
  Wallet.isOpen w = true → Wallet.scan w = None →
  shouldRescan w = Ok false →
  listAccounts w ≠ [] →
  ChainProcessor.hash (Wallet.chainProcessor w) = Some hash →
  is_Some (Blockchain.getHeader (Wallet.chain w) hash) →
  getEarliestHeadHash w = Some hash
  ∧ scanTransactionsBeginHash w None = hash
  ∧ scanTransactions iterateBlockHeaders stop w None = (w, Ok ()).
Proof.
  intros Hopen Hidle Hrescan Haccounts Hcursor [header Hheader].
  unfold shouldRescan in Hrescan. rewrite Hidle in Hrescan. cbn [notNull] in Hrescan.
  assert (Hheads : ∀ p, p ∈ listAccounts w →
            ∃ head, Account.getHead p.2 = Some head ∧ HeadValue.hash head = hash).
  { intros p Hp. pose proof (proj1 (shouldRescanLoop_false _ _) Hrescan p Hp) as Hup.
    unfold isAccountUpToDate, equalsNullable in Hup.
    destruct (Account.headIsUndefined p.2); [done|].
    rewrite Hcursor in Hup.
    destruct (Account.getHead p.2) as [head|]; [|done].
    exists head. split; [done|]. apply String.eqb_eq. simpl in Hup. congruence. }
  assert (Hearliest : getEarliestHeadHash w = Some hash).
  { unfold getEarliestHeadHash.
    pose proof (earliestHeadLoop_min (listAccounts w) None) as Hmin.
    destruct (earliestHeadLoop (listAccounts w) None) as [found|].
    - destruct Hmin as (head & -> & [Hnone|(p & Hp & Hhead)] & _); [|done|].
      + intros p Hp. by destruct (Hheads p Hp) as (head & -> & _).
      + destruct (Hheads p Hp) as (head' & Hhead' & <-). congruence.
    - destruct Hmin as [_ Hnil]; [|done].
      intros p Hp. by destruct (Hheads p Hp) as (head & -> & _). }
  assert (Hbegin : scanTransactionsBeginHash w None = hash)
    by (unfold scanTransactionsBeginHash; by rewrite Hearliest).
  split; [done|]. split; [done|].
  unfold scanTransactions. rewrite Hopen, Hidle. cbn [negb notNull].
  cbn [Wallet.chain Wallet.withScan Wallet.chainProcessor].
  change (scanTransactionsBeginHash (Wallet.withScan (Some newScanState) w) None)
    with (scanTransactionsBeginHash w None).
  rewrite Hbegin, Hcursor.
  change (default (BlockHeader.hash (Blockchain.head (Wallet.chain w))) (Some hash))
    with hash.
  rewrite Hheader, String.eqb_refl.
  destruct (nextRead stop _) as [stop1 scan1]. rewrite orb_true_r.
  f_equal. destruct w. simpl in Hidle. by subst.
Qed.

(** *** Batches and the worker pool *)

Lemma omap_concat {A B} (f : A → option B) (ls : list (list A)) :
  concat ((λ l : list A, omap f l) <$> ls) = omap f (concat ls).
Proof.
  induction ls as [|l ls IH]; [done|].
  rewrite fmap_cons. simpl. by rewrite IH, omap_app.
Qed.

(** X28: The batches do not show in the result when the worker pool decrypts
    payload by payload: the decrypted notes of an account are then the notes
    that decrypt among the payloads of the transaction, one payload per note,
    in note order. *)
Theorem decryptNotes_batching_transparent
    (decrypt : DecryptNoteOptions.t → option DecryptedNote.t)
    w transaction initialNoteIndex account :
  (∀ payloads, WorkerPool.decryptNotes (Wallet.workerPool w) payloads
               = decrypt <$> payloads) →
  (decryptNotesForAccount w transaction initialNoteIndex account).1
  = omap decrypt
      (payloadsFrom account (Transaction.notes transaction) initialNoteIndex).
Proof.
  intros Hpool. unfold decryptNotesForAccount.
  destruct (decryptNotesLoop_batches w account (Transaction.notes transaction)
              initialNoteIndex [] [] []) as (batches & -> & Hconcat & _);
    [unfold batchSize; simpl; lia|].
  cbn [fst app]. simpl in Hconcat. rewrite <- Hconcat, <- omap_concat. f_equal.
  apply list_fmap_ext. intros _ batch _. unfold decryptNotesFromTransaction.
  rewrite Hpool. clear. induction batch as [|payload batch IH]; [done|].
  simpl. destruct (decrypt payload); simpl; [f_equal|]; exact IH.
Qed.

End MoreProperties.

(** ** The wallet on concrete data *)

#[export] Existing Instance sampleAccountMethods.

Lemma createSpends_selection_witness :
  Forall (λ u, 0 < Note.value (UnspentNote.note u) → mined u)
         (getUnspentNotes sampleWallet1 spender "native" None)
  ∧ ∃ examined rest,
      getUnspentNotes sampleWallet1 spender "native" None = examined ++ rest
      ∧ createSpendsForAsset sampleWallet1 spender "native" 12
        = (repaired sampleWallet1 spender examined,
           Ok (amountOf (selection sampleWallet1 examined),
               selection sampleWallet1 examined)).
Proof.
  assert (Hmined : Forall (λ u, 0 < Note.value (UnspentNote.note u) → mined u)
                          (getUnspentNotes sampleWallet1 spender "native" None)).
  { vm_compute. repeat (constructor; [intros _; split; discriminate|]). constructor. }
  split; [exact Hmined|].
  destruct (createSpends_selection sampleWallet1 spender "native" 12 Hmined)
    as (examined & rest & Hsplit & Hrun & _).
  exists examined, rest. split; [exact Hsplit|exact Hrun].
Defined.

(** The run behind the witness: the note without a witness, the note of value
    0 and the note whose nullifier is on the chain are passed over, the two
    others are kept, and the selection stops at 15 >= 12. *)
Example createSpendsForAsset_sample :
  (createSpendsForAsset sampleWallet1 spender "native" 12).2
  = Ok (15, [(sampleNote 10, NoteWitness.mk 8 "root" ["sibling"%string]);
             (sampleNote 5, NoteWitness.mk 8 "root" ["sibling"%string])])
  ∧ DecryptedNoteValue.spent
      <$> Account.getDecryptedNote "n-b"
            (createSpendsForAsset sampleWallet1 spender "native" 12).1
    = Some true
  ∧ (createSpends sampleWallet1 spender [("native"%string, 100)]).2
    = Throw (NotEnoughFundsError "native" 15 100).
Proof. repeat split; vm_compute; reflexivity. Qed.

Lemma createSpendsLoop_unmined_witness :
  (UnspentNote.index unminedCandidate = None
   ∨ UnspentNote.nullifier unminedCandidate = None)
  ∧ createSpendsLoop sampleWallet1 12 [unminedCandidate] unminedSpender 0 []
    = (unminedSpender, Throw AssertionError).
Proof.
  split; [left; reflexivity|].
  exact (createSpendsLoop_unmined sampleWallet1 12 unminedCandidate [] unminedSpender 0 []
           (or_introl eq_refl)).
Defined.

(** The selector meets a candidate of value 5 whose index and nullifier are
    [null]: it does not skip it, the run ends with an assertion error. *)
Lemma createSpendsForAsset_unmined_throws :
  getUnspentNotes sampleWallet1 unminedSpender "native" None = [unminedCandidate]
  ∧ UnspentNote.index unminedCandidate = None
  ∧ createSpendsForAsset sampleWallet1 unminedSpender "native" 12
    = (unminedSpender, Throw AssertionError).
Proof. repeat split; vm_compute; reflexivity. Qed.



Lemma disconnectBlock_accounts_witness :
  Wallet.accounts sampleWallet1 !! "id-alice"%string = Some spender
  ∧ Account.getHead spender = Some (HeadValue.mk "h2" 2)
  ∧ ∃ account',
      Wallet.accounts (disconnectBlock sampleWallet1 sampleBlock2) !! "id-alice"%string
      = Some account'
      ∧ Account.getHead account' = Some (HeadValue.mk "h1" 1).
Proof.
  assert (Hacc : Wallet.accounts sampleWallet1 !! "id-alice"%string = Some spender)
    by (vm_compute; reflexivity).
  split; [exact Hacc|]. split; [reflexivity|].
  destruct (disconnectBlock_accounts sampleWallet1 sampleBlock2 "id-alice"%string spender
              (HeadValue.mk "h2" 2) Hacc eq_refl eq_refl)
    as (account' & Hlookup & _ & Hnew).
  exists account'. split; [exact Hlookup|exact Hnew].
Defined.

(** The payment is disconnected and kept as pending, the miner's fee is
    disconnected and then deleted. *)
Example disconnectBlock_sample :
  (λ account, (TransactionValue.blockHash
                 <$> Account.getTransaction "tx-pay" account,
               Account.getTransaction "tx-reward" account))
    <$> (Wallet.accounts (disconnectBlock sampleWallet1 sampleBlock2) !! "id-alice"%string)
  = Some (Some None, None).
Proof. vm_compute. reflexivity. Qed.

(** A payment pending in two accounts of one wallet is broadcast twice in a
    single pass, at the same head sequence, with [rebroadcastAfter = 10]. *)
Lemma rebroadcastTransactions_twice_in_one_pass :
  Wallet.rebroadcastAfter rebroadcastWallet = 10
  ∧ Wallet.onBroadcastTransaction rebroadcastWallet = []
  ∧ Wallet.onBroadcastTransaction (rebroadcastTransactions rebroadcastWallet)
    = [samplePayment; samplePayment].
Proof. repeat split; vm_compute; reflexivity. Qed.

Lemma rebroadcastTransaction_record_witness :
  TransactionValue.blockHash pendingPayment = None
  ∧ Wallet.rebroadcastAfter rebroadcastWallet ≤ 120 - 100
  ∧ Wallet.onBroadcastTransaction
      (rebroadcastTransaction rebroadcastWallet sampleBlock120 "id-alice" pendingPayment)
    = [samplePayment]
  ∧ rebroadcastTransaction
      (rebroadcastTransaction rebroadcastWallet sampleBlock120 "id-alice" pendingPayment)
      (BlockHeader.mk "h129" "h128" 129) "id-alice"
      (TransactionValue.withSubmittedSequence 120 pendingPayment)
    = rebroadcastTransaction rebroadcastWallet sampleBlock120 "id-alice" pendingPayment.
Proof.
  assert (Hdue : Wallet.rebroadcastAfter rebroadcastWallet ≤ 120 - 100)
    by (vm_compute; discriminate).
  split; [reflexivity|]. split; [exact Hdue|].
  destruct (rebroadcastTransaction_record rebroadcastWallet sampleBlock120
              "id-alice" pendingPayment) as (_ & _ & Hrecord & _).
  destruct (Hrecord eq_refl Hdue) as (_ & Hbroadcast & _ & Hwindow).
  split; [exact Hbroadcast|].
  apply (Hwindow (BlockHeader.mk "h129" "h128" 129)). vm_compute. reflexivity.
Defined.

Lemma getTransactionStatus_cases_witness :
  Wallet.confirmations sampleWallet2 = 2
  ∧ TransactionValue.sequence minedPayment = Some 100
  ∧ getTransactionStatus sampleWallet2 alice minedPayment
      (Some (StatusOptions.mk (Some 104) (Some 5)))
    = UNCONFIRMED
  ∧ getTransactionStatus sampleWallet2 alice minedPayment
      (Some (StatusOptions.mk (Some 104) None))
    = CONFIRMED
  ∧ getTransactionStatus sampleWallet2 alice pendingPayment
      (Some (StatusOptions.mk (Some 200) None))
    = EXPIRED.
Proof.
  split; [reflexivity|]. split; [reflexivity|].
  destruct (getTransactionStatus_cases sampleWallet2 alice minedPayment
              (Some (StatusOptions.mk (Some 104) (Some 5)))) as [_ Hgiven].
  destruct (Hgiven 104 eq_refl ltac:(discriminate)) as [Hmined _].
  destruct (Hmined 100 eq_refl ltac:(discriminate)) as [_ Hshallow].
  split; [exact (Hshallow eq_refl)|].
  destruct (getTransactionStatus_cases sampleWallet2 alice minedPayment
              (Some (StatusOptions.mk (Some 104) None))) as [_ Hconfigured].
  destruct (Hconfigured 104 eq_refl ltac:(discriminate)) as [Hmined' _].
  destruct (Hmined' 100 eq_refl ltac:(discriminate)) as [Hdeep _].
  split; [exact (Hdeep ltac:(discriminate))|].
  destruct (getTransactionStatus_cases sampleWallet2 alice pendingPayment
              (Some (StatusOptions.mk (Some 200) None))) as [_ Hhead].
  destruct (Hhead 200 eq_refl ltac:(discriminate)) as [_ Hunmined].
  destruct (Hunmined eq_refl) as (_ & _ & Hboundary & _).
  exact (Hboundary eq_refl).
Defined.


(** A rejected transaction: the call throws, the wallet and the memory pool
    are the ones given. *)
Example postTransaction_invalid_sample :
  ∃ message,
    postTransaction (sampleWallet false [("id-alice"%string, alice)]) sampleRaw []
    = (sampleWallet false [("id-alice"%string, alice)], [], Throw (Error message)).
Proof. by eexists. Qed.

Lemma getEarliestHeadHash_spec_witness :
  Wallet.accounts sampleWallet2 !! "id-bob"%string = Some bob
  ∧ Account.getHead bob = None
  ∧ Account.getHead alice = Some (HeadValue.mk "h1" 1)
  ∧ getEarliestHeadHash sampleWallet2 = None
  ∧ scanTransactionsBeginHash sampleWallet2 None = "h1"%string.
Proof.
  assert (Hbob : Wallet.accounts sampleWallet2 !! "id-bob"%string = Some bob)
    by (vm_compute; reflexivity).
  split; [exact Hbob|]. split; [reflexivity|]. split; [reflexivity|].
  destruct (getEarliestHeadHash_spec sampleWallet2) as [Hnull _].
  exact (Hnull (ex_intro _ "id-bob"%string (ex_intro _ bob (conj Hbob eq_refl)))).
Defined.

Lemma createAccount_importAccount_head_witness :
  getAccountByName sampleWallet2 "carol" = None
  ∧ (∃ w' account,
       createAccount sampleWallet2 "carol" true "id-carol" sampleKey
       = (w', Ok ("id-carol"%string, account))
       ∧ Wallet.accounts w' !! "id-carol"%string = Some account
       ∧ AccountDb.head (Account.db account) = Some (Some (HeadValue.mk "h2" 2))
       ∧ isAccountUpToDate w' account = Ok true)
  ∧ (∃ w' account,
       importAccount (λ _, sampleKey) (λ _ _, true) sampleWallet2
         (AccountImport.mk "carol" "carol-sk") "id-carol"
       = (w', Ok ("id-carol"%string, account))
       ∧ AccountDb.head (Account.db account) = Some None
       ∧ isAccountUpToDate w' account = Ok false
       ∧ scanTransactionsBeginHash w' None = "h1"%string).
Proof.
  assert (Hfree : getAccountByName sampleWallet2 "carol" = None)
    by (vm_compute; reflexivity).
  split; [exact Hfree|].
  destruct (createAccount_importAccount_head (λ _, sampleKey) (λ _ _, true) sampleWallet2)
    as (Hcreate & Himport & _).
  split.
  - destruct (Hcreate "carol"%string true "id-carol"%string sampleKey Hfree)
      as (w' & account & Hrun & Hin & Hhead & Hup & _).
    exists w', account. split; [exact Hrun|]. split; [exact Hin|]. split; [exact Hhead|].
    exact (Hup (mk_is_Some _ _ eq_refl) (mk_is_Some _ _ eq_refl)).
  - destruct (Himport (AccountImport.mk "carol" "carol-sk") "id-carol"%string
                (importAccount (λ _, sampleKey) (λ _ _, true) sampleWallet2
                   (AccountImport.mk "carol" "carol-sk") "id-carol").1
                ("id-carol"%string,
                 Account.updateHead None
                   (Account.mk "carol" "carol-sk" "carol" "carol-ovk" "carol-addr"
                      emptyAccountDb))
                ltac:(vm_compute; reflexivity))
      as (account & Himported & _ & Hhead & Hup & _ & Hbegin).
    exists (importAccount (λ _, sampleKey) (λ _ _, true) sampleWallet2
              (AccountImport.mk "carol" "carol-sk") "id-carol").1, account.
    split; [rewrite <- Himported; vm_compute; reflexivity|]. split; [exact Hhead|].
    split; [exact (Hup (mk_is_Some _ _ eq_refl))|exact Hbegin].
Defined.

(** After [load()] the cursor has a hash and no sequence.  [createAccount]
    then writes the head [null], not the cursor: the new account is not up to
    date, a rescan is due where none was, and the scan starts at the genesis
    block. *)
Lemma createAccount_cursor_without_sequence :
  ChainProcessor.hash (Wallet.chainProcessor loadedWallet) = Some "h2"%string
  ∧ ChainProcessor.sequence (Wallet.chainProcessor loadedWallet) = None
  ∧ shouldRescan loadedWallet = Ok false
  ∧ (createAccount loadedWallet "carol" false "id-carol" sampleKey).2
    = Ok ("id-carol"%string,
          Account.updateHead None
            (Account.mk "carol" "carol-sk" "carol" "carol-ovk" "carol-addr"
               emptyAccountDb))
  ∧ shouldRescan (createAccount loadedWallet "carol" false "id-carol" sampleKey).1
    = Ok true
  ∧ scanTransactionsBeginHash
      (createAccount loadedWallet "carol" false "id-carol" sampleKey).1 None
    = "h1"%string.
Proof. repeat split; vm_compute; reflexivity. Qed.

(** An imported account starts with the head [null], whatever the cursor
    is. *)
Example importAccount_sample :
  (importAccount (λ _, sampleKey) (λ _ _, true) sampleWallet2
     (AccountImport.mk "carol" "carol-sk") "id-carol").2
  = Ok ("id-carol"%string,
        Account.updateHead None
          (Account.mk "carol" "carol-sk" "carol" "carol-ovk" "carol-addr" emptyAccountDb)).
Proof. vm_compute. reflexivity. Qed.

(** The first transaction of the first block has [initialNoteIndex = 0]; its
    two notes are both submitted with [currentNoteIndex = 0]. *)
Example decryptNotes_zero_index_sample :
  DecryptNoteOptions.currentNoteIndex
    <$> decryptNotesPayloadsOf sampleWallet2 samplePayment (Some 0) alice
  = [Some 0; Some 0]
  ∧ DecryptNoteOptions.currentNoteIndex
      <$> decryptNotesPayloadsOf sampleWallet2 samplePayment (Some 1) alice
    = [Some 1; Some 2].
Proof. split; vm_compute; reflexivity. Qed.

(** *** The registry *)

Lemma createAccount_registers_witness :
  getAccountByName sampleWallet2 "carol" = None
  ∧ ∃ w' account,
      createAccount sampleWallet2 "carol" true "id-carol" sampleKey
      = (w', Ok ("id-carol"%string, account))
      ∧ getAccountByName w' "carol" = Some ("id-carol"%string, account)
      ∧ ∃ message,
          createAccount w' "carol" false "id-other" sampleKey
          = (w', Throw (Error message)).
Proof.
  assert (Hfree : getAccountByName sampleWallet2 "carol" = None)
    by (vm_compute; reflexivity).
  split; [exact Hfree|].
  destruct (createAccount_registers sampleWallet2 "carol" true "id-carol" sampleKey Hfree)
    as (w' & account & Hrun & _ & _ & Hfind & _ & _ & Htaken).
  exists w', account. split; [exact Hrun|]. split; [exact Hfind|].
  exact (Htaken false "id-other"%string sampleKey).
Defined.

Lemma uniqueNames_sampleWallet1 : uniqueNames sampleWallet1.
Proof.
  intros id1 id2 account1 account2 Hin1 Hin2 _.
  unfold sampleWallet1, sampleWallet in Hin1, Hin2. simpl in Hin1, Hin2.
  apply lookup_insert_Some in Hin1 as [[<- _]|[_ Hin1]]; [|by rewrite lookup_empty in Hin1].
  apply lookup_insert_Some in Hin2 as [[<- _]|[_ Hin2]]; [|by rewrite lookup_empty in Hin2].
  reflexivity.
Qed.

Lemma account_names_stay_unique_witness :
  uniqueNames sampleWallet1
  ∧ uniqueNames (createAccount sampleWallet1 "carol" true "id-carol" sampleKey).1.
Proof.
  split; [exact uniqueNames_sampleWallet1|].
  destruct (account_names_stay_unique (λ _, sampleKey) (λ _ _, true) sampleWallet1
              uniqueNames_sampleWallet1) as [Hcreate _].
  apply (Hcreate "carol"%string true "id-carol"%string sampleKey
           (createAccount sampleWallet1 "carol" true "id-carol" sampleKey).1
           ("id-carol"%string, createdAccount sampleWallet1 "carol" sampleKey)).
  vm_compute. reflexivity.
Defined.

Lemma importAccount_twice_witness :
  (importAccount (λ _, sampleKey) (λ _ _, true) sampleWallet2
     (AccountImport.mk "carol" "carol-sk") "id-carol").2
  = Ok ("id-carol"%string,
        Account.updateHead None
          (Account.mk "carol" "carol-sk" "carol" "carol-ovk" "carol-addr" emptyAccountDb))
  ∧ ∃ message,
      importAccount (λ _, sampleKey) (λ _ _, true)
        (importAccount (λ _, sampleKey) (λ _ _, true) sampleWallet2
           (AccountImport.mk "carol" "carol-sk") "id-carol").1
        (AccountImport.mk "dave" "carol-sk") "id-dave"
      = ((importAccount (λ _, sampleKey) (λ _ _, true) sampleWallet2
            (AccountImport.mk "carol" "carol-sk") "id-carol").1,
         Throw (Error message)).
Proof.
  split; [vm_compute; reflexivity|].
  apply (importAccount_twice (λ _, sampleKey) (λ _ _, true) sampleWallet2
           (AccountImport.mk "carol" "carol-sk") "id-carol"
           (importAccount (λ _, sampleKey) (λ _ _, true) sampleWallet2
              (AccountImport.mk "carol" "carol-sk") "id-carol").1
           ("id-carol"%string,
            Account.updateHead None
              (Account.mk "carol" "carol-sk" "carol" "carol-ovk" "carol-addr"
                 emptyAccountDb))
           ltac:(vm_compute; reflexivity) "dave"%string "id-dave"%string).
Defined.

Lemma removeAccount_createAccount_witness :
  getAccountByName sampleWallet2 "carol" = None
  ∧ Wallet.accounts sampleWallet2 !! "id-carol"%string = None
  ∧ Wallet.accounts
      (removeAccount (createAccount sampleWallet2 "carol" true "id-carol" sampleKey).1
                     "carol")
    = Wallet.accounts sampleWallet2.
Proof.
  assert (Hfree : getAccountByName sampleWallet2 "carol" = None)
    by (vm_compute; reflexivity).
  assert (Hfresh : Wallet.accounts sampleWallet2 !! "id-carol"%string = None)
    by (vm_compute; reflexivity).
  split; [exact Hfree|]. split; [exact Hfresh|].
  exact (proj2 (removeAccount_createAccount sampleWallet2 "carol" true "id-carol" sampleKey
                  Hfree Hfresh)).
Defined.

(** *** Blocks *)

Lemma connectBlock_disconnectBlock_once_witness :
  BlockHeader.hash sampleBlock2 ≠ BlockHeader.previousBlockHash sampleBlock2
  ∧ connectBlock (connectBlock sampleWallet2 sampleBlock2 None).1 sampleBlock2 None
    = ((connectBlock sampleWallet2 sampleBlock2 None).1, None).
Proof.
  assert (Hne : BlockHeader.hash sampleBlock2 ≠ BlockHeader.previousBlockHash sampleBlock2)
    by (simpl; discriminate).
  split; [exact Hne|].
  exact (proj1 (connectBlock_disconnectBlock_once sampleWallet2 sampleBlock2 Hne)
           None None eq_refl).
Defined.

Lemma connectBlock_then_disconnectBlock_witness :
  scanIsAborted None = false
  ∧ Wallet.accounts sampleWallet2 !! "id-alice"%string = Some alice
  ∧ headAccepts sampleBlock2 alice
  ∧ ∃ account',
      Wallet.accounts
        (disconnectBlock (connectBlock sampleWallet2 sampleBlock2 None).1 sampleBlock2)
        !! "id-alice"%string
      = Some account'
      ∧ Account.getHead account' = Some (HeadValue.mk "h1" 1).
Proof.
  assert (Hacc : Wallet.accounts sampleWallet2 !! "id-alice"%string = Some alice)
    by (vm_compute; reflexivity).
  assert (Hhead : headAccepts sampleBlock2 alice) by reflexivity.
  split; [reflexivity|]. split; [exact Hacc|]. split; [exact Hhead|].
  destruct (connectBlock_then_disconnectBlock sampleWallet2 sampleBlock2 None eq_refl
              "id-alice"%string alice Hacc) as [Hback _].
  destruct (Hback Hhead) as (account' & Hlookup & _ & Hnew).
  exists account'. split; [exact Hlookup|exact Hnew].
Defined.

Lemma connectBlock_aborted_witness :
  scanIsAborted (Some abortedScan) = true
  ∧ Blockchain.getBlockTransactions (Wallet.chain sampleWallet2) sampleBlock2
    = [(sampleReward, 0); (samplePayment, 1)]
  ∧ Wallet.accounts (connectBlock sampleWallet2 sampleBlock2 (Some abortedScan)).1
      !! "id-alice"%string
    = Wallet.accounts sampleWallet2 !! "id-alice"%string.
Proof.
  split; [reflexivity|]. split; [reflexivity|].
  apply (connectBlock_aborted sampleWallet2 sampleBlock2 (Some abortedScan) eq_refl).
  simpl. discriminate.
Defined.

Lemma disconnectBlock_other_accounts_witness :
  Wallet.accounts sampleWallet2 !! "id-alice"%string = Some alice
  ∧ HeadValue.hash <$> Account.getHead alice ≠ Some (BlockHeader.hash sampleBlock2)
  ∧ Wallet.accounts (disconnectBlock sampleWallet2 sampleBlock2) !! "id-alice"%string
    = Some alice.
Proof.
  assert (Hacc : Wallet.accounts sampleWallet2 !! "id-alice"%string = Some alice)
    by (vm_compute; reflexivity).
  assert (Hhead : HeadValue.hash <$> Account.getHead alice
                  ≠ Some (BlockHeader.hash sampleBlock2))
    by (simpl; discriminate).
  split; [exact Hacc|]. split; [exact Hhead|].
  exact (disconnectBlock_other_accounts sampleWallet2 sampleBlock2 "id-alice"%string alice
           Hacc Hhead).
Defined.

(** *** Creating a transaction *)

Lemma createTransaction_funded_witness :
  ∃ sender' raw mints',
    createTransaction "native" sampleWallet1 spender [sampleReceive 12] [] [] 1 10 None
    = (sender', Ok (raw, mints'))
    ∧ RawTransaction.expiration raw = 12
    ∧ total (outputs "native" raw 1) ≤ amountOf (RawTransaction.spends raw).
Proof.
  destruct (createTransaction "native" sampleWallet1 spender [sampleReceive 12] [] [] 1 10
              None) as [sender' [[raw mints']|e]] eqn:Hrun.
  - exists sender', raw, mints'. split; [reflexivity|].
    destruct (createTransaction_funded _ _ _ _ _ _ _ _ _ _ _ _ Hrun)
      as (_ & Hexpiration & _ & _ & _ & _ & _ & _ & _ & _ & Hworth & _).
    split; [exact Hexpiration|exact Hworth].
  - vm_compute in Hrun. discriminate Hrun.
Defined.

(** The run behind the witness: 13 are needed, the notes of 10 and 5 are
    spent. *)
Example createTransaction_sample :
  (λ raw, (RawTransaction.fee raw.1, Note.value <$> RawTransaction.receives raw.1,
           Note.value <$> (fst <$> RawTransaction.spends raw.1)))
    <$> match (createTransaction "native" sampleWallet1 spender [sampleReceive 12] [] [] 1
                 10 None).2 with
        | Ok raw => Some raw
        | Throw _ => None
        end
  = Some (1, [12], [10; 5]).
Proof. vm_compute. reflexivity. Qed.

Lemma createTransaction_failure_witness :
  createTransaction "native" sampleWallet1 spender [sampleReceive 100] [] [] 1 10 None
  = ((createTransaction "native" sampleWallet1 spender [sampleReceive 100] [] [] 1 10
        None).1,
     Throw (NotEnoughFundsError "native" 15 101))
  ∧ 101 = demand "native" (requested "native" [sampleReceive 100] [] 1).
Proof.
  assert (Hrun :
    createTransaction "native" sampleWallet1 spender [sampleReceive 100] [] [] 1 10 None
    = ((createTransaction "native" sampleWallet1 spender [sampleReceive 100] [] [] 1 10
          None).1,
       Throw (NotEnoughFundsError "native" 15 101)))
    by (vm_compute; reflexivity).
  split; [exact Hrun|].
  destruct (createTransaction_failure _ _ _ _ _ _ _ _ _ _ _ Hrun)
    as (_ & _ & Hneeded & _).
  exact Hneeded.
Defined.

(** *** Scans *)

Lemma scanBlocks_reaches_last_witness :
  scanIsAborted None = false
  ∧ Wallet.accounts sampleWallet2 !! "id-alice"%string = Some alice
  ∧ headAccepts sampleBlock2 alice
  ∧ linked sampleBlock2 [sampleBlock3]
  ∧ Account.getHead
      <$> Wallet.accounts (scanBlocks sampleWallet2 None [sampleBlock2; sampleBlock3]).1
            !! "id-alice"%string
    = Some (Some (HeadValue.mk "h3" 3)).
Proof.
  assert (Hacc : Wallet.accounts sampleWallet2 !! "id-alice"%string = Some alice)
    by (vm_compute; reflexivity).
  assert (Hhead : headAccepts sampleBlock2 alice) by reflexivity.
  assert (Hlinked : linked sampleBlock2 [sampleBlock3]) by (split; [reflexivity|exact I]).
  split; [reflexivity|]. split; [exact Hacc|]. split; [exact Hhead|].
  split; [exact Hlinked|].
  exact (scanBlocks_reaches_last sampleWallet2 None "id-alice"%string alice sampleBlock2
           [sampleBlock3] eq_refl Hacc Hhead Hlinked).
Defined.

Lemma scanTransactions_lock_witness :
  Wallet.isOpen sampleWallet2 = true
  ∧ Wallet.scan sampleWallet2 = None
  ∧ (scanTransactions sampleHeaders None sampleWallet2 (Some "h9"%string)).2
    = Throw AssertionError
  ∧ Wallet.scan (scanTransactions sampleHeaders None sampleWallet2 (Some "h9"%string)).1
    ≠ None
  ∧ scanTransactions sampleHeaders None
      (scanTransactions sampleHeaders None sampleWallet2 (Some "h9"%string)).1 None
    = ((scanTransactions sampleHeaders None sampleWallet2 (Some "h9"%string)).1, Ok ()).
Proof.
  assert (Hrun : (scanTransactions sampleHeaders None sampleWallet2 (Some "h9"%string)).2
                 = Throw AssertionError) by (vm_compute; reflexivity).
  split; [reflexivity|]. split; [reflexivity|]. split; [exact Hrun|].
  pose proof (scanTransactions_lock sampleHeaders None sampleWallet2 (Some "h9"%string)
                eq_refl eq_refl) as Hlock.
  rewrite Hrun in Hlock. destruct Hlock as (_ & Hkept & Hlater).
  split; [exact (Hkept eq_refl)|].
  exact (proj2 (Hlater (Hkept eq_refl)) sampleHeaders None None).
Defined.

(** A scan of a wallet that has never scanned, which [stop()] aborts in the
    block loop, before the first transaction of the genesis block:
    [connectBlock] clears [this.scan] and connects nothing, no account has a
    head after the loop, and the scan throws on its last assertion with
    [this.scan] already [null].  The next scan is not held back: it runs and
    brings bob to the head of the chain. *)
Example scanTransactions_stopped_sample :
  (scanTransactions sampleHeaders (Some 1%nat) freshWallet None).2 = Throw AssertionError
  ∧ Wallet.scan (scanTransactions sampleHeaders (Some 1%nat) freshWallet None).1 = None
  ∧ Account.getHead
      <$> Wallet.accounts (scanTransactions sampleHeaders (Some 1%nat) freshWallet None).1
            !! "id-bob"%string
    = Some None
  ∧ (scanTransactions sampleHeaders None
       (scanTransactions sampleHeaders (Some 1%nat) freshWallet None).1 None).2
    = Ok ()
  ∧ Account.getHead
      <$> Wallet.accounts
            (scanTransactions sampleHeaders None
               (scanTransactions sampleHeaders (Some 1%nat) freshWallet None).1 None).1
            !! "id-bob"%string
    = Some (Some (HeadValue.mk "h2" 2)).
Proof. repeat split; vm_compute; reflexivity. Qed.

(** A scan that [stop()] aborts between the first block and the second: bob
    has the first block as his head, not the last, and the scan returns with
    the cursor at that block. *)
Example scanTransactions_stopped_midway_sample :
  (scanTransactions sampleHeaders (Some 2%nat) freshWallet None).2 = Ok ()
  ∧ Account.getHead
      <$> Wallet.accounts (scanTransactions sampleHeaders (Some 2%nat) freshWallet None).1
            !! "id-bob"%string
    = Some (Some (HeadValue.mk "h1" 1))
  ∧ ChainProcessor.hash
      (Wallet.chainProcessor
         (scanTransactions sampleHeaders (Some 2%nat) freshWallet None).1)
    = Some "h1"%string.
Proof. repeat split; vm_compute; reflexivity. Qed.

Lemma scanTransactions_heads_witness :
  Wallet.isOpen sampleWallet2 = true
  ∧ Wallet.scan sampleWallet2 = None
  ∧ scanTransactionsBeginHash sampleWallet2 None = "h1"%string
  ∧ Account.getHead
      <$> Wallet.accounts (scanTransactions sampleHeaders None sampleWallet2 None).1
            !! "id-bob"%string
    = Some (Some (HeadValue.mk "h2" 2))
  ∧ Account.getHead
      <$> Wallet.accounts
            (scanTransactions sampleHeaders (Some 0%nat) sampleWallet2 None).1
            !! "id-bob"%string
    = Some None.
Proof.
  split; [reflexivity|]. split; [reflexivity|]. split; [vm_compute; reflexivity|].
  split.
  - rewrite (scanTransactions_heads sampleHeaders None sampleWallet2 None eq_refl eq_refl
               ltac:(vm_compute; by eexists) ltac:(vm_compute; by eexists)
               (or_introl eq_refl) "id-bob"%string).
    vm_compute. reflexivity.
  - rewrite (scanTransactions_heads sampleHeaders (Some 0%nat) sampleWallet2 None
               eq_refl eq_refl
               ltac:(vm_compute; by eexists) ltac:(vm_compute; by eexists)
               (or_intror eq_refl) "id-bob"%string).
    vm_compute. reflexivity.
Defined.

Lemma close_wallet_witness :
  Wallet.isOpen sampleWallet2 = true
  ∧ listAccounts (close sampleWallet2) = []
  ∧ close (close sampleWallet2) = close sampleWallet2.
Proof.
  split; [reflexivity|].
  destruct (close_wallet sampleHeaders None sampleWallet2 None eq_refl)
    as (Hnone & _ & _ & _ & _ & _ & Hagain).
  split; [exact Hnone|exact Hagain].
Defined.

Lemma scanTransactions_up_to_date_witness :
  Wallet.isOpen sampleWallet1 = true
  ∧ shouldRescan sampleWallet1 = Ok false
  ∧ ChainProcessor.hash (Wallet.chainProcessor sampleWallet1) = Some "h2"%string
  ∧ scanTransactions sampleHeaders None sampleWallet1 None = (sampleWallet1, Ok ()).
Proof.
  split; [reflexivity|]. split; [vm_compute; reflexivity|]. split; [reflexivity|].
  apply (scanTransactions_up_to_date sampleHeaders None sampleWallet1 "h2"
           eq_refl eq_refl ltac:(vm_compute; reflexivity)
           ltac:(vm_compute; discriminate) eq_refl ltac:(vm_compute; by eexists)).
Defined.

(** *** Decryption *)

Lemma decryptNotes_batching_transparent_witness :
  (∀ payloads,
     WorkerPool.decryptNotes (Wallet.workerPool sampleWallet2) payloads
     = (λ o, if String.prefix (DecryptNoteOptions.incomingViewKey o)
                              (DecryptNoteOptions.serializedNote o)
             then Some (DecryptedNote.mk (DecryptNoteOptions.currentNoteIndex o) false
                          (DecryptNoteOptions.serializedNote o) None
                          (DecryptNoteOptions.serializedNote o))
             else None) <$> payloads)
  ∧ DecryptedNote.index
      <$> (decryptNotesForAccount sampleWallet2 samplePayment (Some 1) bob).1
    = [Some 2].
Proof.
  assert (Hpool : ∀ payloads,
     WorkerPool.decryptNotes (Wallet.workerPool sampleWallet2) payloads
     = (λ o, if String.prefix (DecryptNoteOptions.incomingViewKey o)
                              (DecryptNoteOptions.serializedNote o)
             then Some (DecryptedNote.mk (DecryptNoteOptions.currentNoteIndex o) false
                          (DecryptNoteOptions.serializedNote o) None
                          (DecryptNoteOptions.serializedNote o))
             else None) <$> payloads)
    by (intros payloads; reflexivity).
  split; [exact Hpool|].
  rewrite (decryptNotes_batching_transparent _ sampleWallet2 samplePayment (Some 1) bob
             Hpool).
  vm_compute. reflexivity.
Defined.
